(** * Affiliate commission ledger and payout engine of copyboss-live

    A shallow embedding of the accounting code of the repository:
    the sqlite accessors of [database.js], the webhook commission recorders
    of [server.js] and the payout processor and scheduler of the payout
    module.  Asynchronous functions become computations in a state and
    exception monad over a [World] that holds the three tables, the console,
    the requests sent to the payment rail and the behaviour of the
    environment (the clock, the answers of the payment rail and the sqlite
    calls that are going to fail).

    Money is a JavaScript number in the source; it is modelled by an exact
    rational, so [0.4] is four tenths and sums carry no rounding error. *)

From Stdlib Require Import List ZArith QArith Qround String Bool Lia Permutation Sorted.
Import ListNotations.

Local Open Scope string_scope.
Local Open Scope list_scope.
Local Open Scope Z_scope.

(** ** Dates as the JavaScript [Date] accessors read them *)

Record DateTime := mkDate {
  getFullYear : Z;
  getMonth : Z;      (* 0 .. 11 *)
  getDate : Z        (* 1 .. 31 *)
}.

Definition isLeapYear (y : Z) : bool :=
  ((y mod 4 =? 0) && negb (y mod 100 =? 0)) || (y mod 400 =? 0).

Definition daysInMonth (y m : Z) : Z :=
  if m =? 1 then (if isLeapYear y then 29 else 28)
  else if (m =? 3) || (m =? 5) || (m =? 8) || (m =? 10) then 30
  else 31.

(** [Date.prototype.setDate]: a day past the end of the month rolls over
    into the following months, a day below 1 into the preceding ones. *)
Fixpoint rollForward (fuel : nat) (y m d : Z) : DateTime :=
  match fuel with
  | O => mkDate y m d
  | S k =>
      if d <=? daysInMonth y m then mkDate y m d
      else if m =? 11 then rollForward k (y + 1) 0 (d - daysInMonth y m)
      else rollForward k y (m + 1) (d - daysInMonth y m)
  end.

Fixpoint rollBackward (fuel : nat) (y m d : Z) : DateTime :=
  match fuel with
  | O => mkDate y m d
  | S k =>
      if 1 <=? d then mkDate y m d
      else if m =? 0 then rollBackward k (y - 1) 11 (d + daysInMonth (y - 1) 11)
      else rollBackward k y (m - 1) (d + daysInMonth y (m - 1))
  end.

Definition setDate (t : DateTime) (d : Z) : DateTime :=
  if 1 <=? d
  then rollForward (Z.to_nat d) (getFullYear t) (getMonth t) d
  else rollBackward (S (Z.to_nat (- d))) (getFullYear t) (getMonth t) d.

(** ** Rows of the three tables *)

Module User.
Record t := mk {
  id : Z;
  email : string;
  referrer_id : option Z;
  stripe_account_id : option string;
  created_at : DateTime
}.
End User.

Module Commission.
Record t := mk {
  id : Z;
  referrer_id : Z;
  referred_user_id : Z;
  purchase_amount : Q;
  commission_amount : Q;
  status : string;
  stripe_payment_intent_id : option string;
  created_at : DateTime;
  paid_at : option DateTime
}.
End Commission.

Module Payout.
Record t := mk {
  id : Z;
  user_id : Z;
  amount : Q;
  stripe_payout_id : option string;
  status : string;
  created_at : DateTime;
  paid_at : option DateTime
}.
End Payout.

(** ** The payment rail and the console *)

Record TransferReq := mkTransfer {
  tr_amount : Z;                    (* smallest currency unit *)
  tr_currency : string;
  tr_destination : option string;
  tr_description : DateTime;        (* the date printed in the description *)
  tr_user_id : Z;                   (* metadata.user_id *)
  tr_affiliate_payout : string      (* metadata.affiliate_payout *)
}.

Inductive Error := SqliteError | StripeError.

Inductive Log :=
| JobStarting
| JobNotLastDay
| JobFailed (e : Error)
| BatchProcessing
| BatchNoEligible
| BatchCount (n : nat)
| BatchUserFailed (uid : Z) (e : Error)
| BatchCompleted
| BatchFailed (e : Error)
| PayoutProcessing (uid : Z)
| PayoutBelowThreshold (uid : Z) (total : Q)
| PayoutProcessed (uid : Z) (total : Q) (ref : string)
| PayoutFailed (uid : Z) (e : Error)
| ManualTrigger
| NoUserId
| NoReferral (uid : Z)
| CommissionRecorded (amount : Q) (uid : Z)
| CommissionFailed (e : Error)
| SubscriptionPeriodExpired (uid : Z)
| SubscriptionCommissionRecorded (amount : Q) (uid : Z)
| SubscriptionCommissionFailed (e : Error).

(** ** The world *)

Record World := mkWorld {
  users : list User.t;
  commissions : list Commission.t;
  commissions_seq : Z;              (* sqlite_sequence of the table *)
  affiliate_payouts : list Payout.t;
  affiliate_payouts_seq : Z;
  console : list Log;
  transfers : list TransferReq;     (* requests sent to the payment rail *)
  clock : DateTime;
  stripe : TransferReq -> option string;  (* None: the call throws *)
  faults : list bool                (* per sqlite call to come: does it fail *)
}.

Definition set_commissions (cs : list Commission.t) (seq : Z) (w : World) : World :=
  mkWorld (users w) cs seq (affiliate_payouts w) (affiliate_payouts_seq w)
          (console w) (transfers w) (clock w) (stripe w) (faults w).

Definition set_payouts (ps : list Payout.t) (seq : Z) (w : World) : World :=
  mkWorld (users w) (commissions w) (commissions_seq w) ps seq
          (console w) (transfers w) (clock w) (stripe w) (faults w).

Definition set_console (l : list Log) (w : World) : World :=
  mkWorld (users w) (commissions w) (commissions_seq w)
          (affiliate_payouts w) (affiliate_payouts_seq w)
          l (transfers w) (clock w) (stripe w) (faults w).

Definition set_transfers (l : list TransferReq) (w : World) : World :=
  mkWorld (users w) (commissions w) (commissions_seq w)
          (affiliate_payouts w) (affiliate_payouts_seq w)
          (console w) l (clock w) (stripe w) (faults w).

Definition set_faults (l : list bool) (w : World) : World :=
  mkWorld (users w) (commissions w) (commissions_seq w)
          (affiliate_payouts w) (affiliate_payouts_seq w)
          (console w) (transfers w) (clock w) (stripe w) l.

(** ** Promises: state and exceptions *)

Inductive Result (A : Type) :=
| Ok (a : A)
| Throw (e : Error).
Arguments Ok {A} a.
Arguments Throw {A} e.

Definition M (A : Type) : Type := World -> Result A * World.

Definition ret {A} (a : A) : M A := fun w => (Ok a, w).

Definition throw {A} (e : Error) : M A := fun w => (Throw e, w).

Definition bind {A B} (m : M A) (k : A -> M B) : M B :=
  fun w => match m w with
           | (Ok a, w') => k a w'
           | (Throw e, w') => (Throw e, w')
           end.

Definition try_catch {A} (body : M A) (handler : Error -> M A) : M A :=
  fun w => match body w with
           | (Ok a, w') => (Ok a, w')
           | (Throw e, w') => handler e w'
           end.

Declare Scope promise_scope.
Delimit Scope promise_scope with promise.
Notation "x <- m ;; k" := (bind m (fun x => k))
  (at level 61, m at next level, right associativity) : promise_scope.
Notation "m ;; k" := (bind m (fun _ => k))
  (at level 61, right associativity) : promise_scope.
Local Open Scope promise_scope.

Definition console_log (e : Log) : M unit :=
  fun w => (Ok tt, set_console (console w ++ [e]) w).

(** Every sqlite call consults the next entry of [faults]; when the list
    is used up the database works. *)
Definition sqlite_call : M unit :=
  fun w => match faults w with
           | [] => (Ok tt, w)
           | false :: fs => (Ok tt, set_faults fs w)
           | true :: fs => (Throw SqliteError, set_faults fs w)
           end.

(** ** database.js *)

(** rowid of an AUTOINCREMENT table: above the recorded sequence and above
    every row present. *)
Definition next_rowid (ids : list Z) (seq : Z) : Z :=
  fold_right Z.max seq ids + 1.

(** JavaScript truthiness of a nullable integer column. *)
Definition truthy (x : option Z) : bool :=
  match x with
  | Some n => negb (n =? 0)
  | None => false
  end.

Definition getUserById (uid : Z) : M (option User.t) :=
  sqlite_call ;;
  fun w => (Ok (find (fun u => User.id u =? uid) (users w)), w).

Definition createCommission (referrerId referredUserId : Z)
    (purchaseAmount commissionAmount : Q) (paymentIntentId : option string) : M Z :=
  sqlite_call ;;
  fun w =>
    let rowid := next_rowid (map Commission.id (commissions w)) (commissions_seq w) in
    let row := Commission.mk rowid referrerId referredUserId purchaseAmount
                 commissionAmount "pending" paymentIntentId (clock w) None in
    (Ok rowid, set_commissions (commissions w ++ [row]) rowid w).

Definition is_pending_of (userId : Z) (c : Commission.t) : bool :=
  (Commission.referrer_id c =? userId) && (Commission.status c =? "pending")%string.

(** SQL [SUM]: NULL over no row. *)
Definition sql_sum (l : list Q) : option Q :=
  match l with
  | [] => None
  | _ => Some (fold_left Qplus l 0%Q)
  end.

Definition pending_amounts (userId : Z) (cs : list Commission.t) : list Q :=
  map Commission.commission_amount (filter (is_pending_of userId) cs).

(** [row.total || 0] *)
Definition or_zero (total : option Q) : Q :=
  match total with
  | None => 0%Q
  | Some t => if Qeq_bool t 0 then 0%Q else t
  end.

Definition getTotalPendingCommissions (userId : Z) : M Q :=
  sqlite_call ;;
  fun w => (Ok (or_zero (sql_sum (pending_amounts userId (commissions w)))), w).

Definition createPayout (userId : Z) (amount : Q) : M Z :=
  sqlite_call ;;
  fun w =>
    let rowid := next_rowid (map Payout.id (affiliate_payouts w)) (affiliate_payouts_seq w) in
    let row := Payout.mk rowid userId amount None "pending" (clock w) None in
    (Ok rowid, set_payouts (affiliate_payouts w ++ [row]) rowid w).

Definition set_payout_status (payoutId : Z) (status : string)
    (stripePayoutId : option string) (paidAt : option DateTime) (p : Payout.t) : Payout.t :=
  if Payout.id p =? payoutId
  then Payout.mk (Payout.id p) (Payout.user_id p) (Payout.amount p)
         stripePayoutId status (Payout.created_at p) paidAt
  else p.

Definition updatePayoutStatus (payoutId : Z) (status : string)
    (stripePayoutId : option string) : M bool :=
  fun w0 =>
    let paidAt := if (status =? "paid")%string then Some (clock w0) else None in
    (sqlite_call ;;
     fun w =>
       (Ok (existsb (fun p => Payout.id p =? payoutId) (affiliate_payouts w)),
        set_payouts (map (set_payout_status payoutId status stripePayoutId paidAt)
                         (affiliate_payouts w))
                    (affiliate_payouts_seq w) w)) w0.

(** ** server.js: the commission recorders *)

Record Session := mkSession {
  session_metadata_userId : option Z;
  session_customer : option Z;
  amount_total : Z;                 (* pence *)
  session_payment_intent : option string
}.

Record Invoice := mkInvoice {
  invoice_metadata_userId : option Z;
  invoice_customer : option Z;
  invoice_created : DateTime;       (* new Date(invoice.created * 1000) *)
  amount_paid : Z;                  (* pence *)
  invoice_payment_intent : option string
}.

(** [a || b] on two optional identifiers. *)
Definition or_else (a b : option Z) : option Z :=
  match a with
  | Some x => Some x
  | None => b
  end.

Definition referrer_of (user : option User.t) : option Z :=
  match user with
  | Some u => if truthy (User.referrer_id u) then User.referrer_id u else None
  | None => None
  end.

Definition processAffiliateCommission (session : Session) : M unit :=
  try_catch
    (match or_else (session_metadata_userId session) (session_customer session) with
     | None => console_log NoUserId
     | Some userId =>
         user <- getUserById userId ;;
         match referrer_of user with
         | None => console_log (NoReferral userId)
         | Some referrer =>
             let purchaseAmount := (inject_Z (amount_total session) / 100)%Q in
             let commissionAmount := (purchaseAmount * 0.4)%Q in
             createCommission referrer userId purchaseAmount commissionAmount
               (session_payment_intent session) ;;
             console_log (CommissionRecorded commissionAmount userId)
         end
     end)
    (fun error => console_log (CommissionFailed error)).

Definition monthsDiff (subscriptionStart invoiceDate : DateTime) : Z :=
  (getFullYear invoiceDate - getFullYear subscriptionStart) * 12
  + (getMonth invoiceDate - getMonth subscriptionStart).

Definition processSubscriptionCommission (invoice : Invoice) : M unit :=
  try_catch
    (match or_else (invoice_metadata_userId invoice) (invoice_customer invoice) with
     | None => console_log NoUserId
     | Some userId =>
         user <- getUserById userId ;;
         match user, referrer_of user with
         | Some u, Some referrer =>
             let subscriptionStart := User.created_at u in
             let invoiceDate := invoice_created invoice in
             if 3 <=? monthsDiff subscriptionStart invoiceDate
             then console_log (SubscriptionPeriodExpired userId)
             else
               let purchaseAmount := (inject_Z (amount_paid invoice) / 100)%Q in
               let commissionAmount := (purchaseAmount * 0.4)%Q in
               createCommission referrer userId purchaseAmount commissionAmount
                 (invoice_payment_intent invoice) ;;
               console_log (SubscriptionCommissionRecorded commissionAmount userId)
         | _, _ => console_log (NoReferral userId)
         end
     end)
    (fun error => console_log (SubscriptionCommissionFailed error)).

(** ** The payout module *)

Record EligibleRow := mkRow {
  row_user : User.t;
  total_pending : Q
}.

Definition coalesce0 (x : option Q) : Q :=
  match x with
  | Some q => q
  | None => 0%Q
  end.

Definition has_account (u : User.t) : bool :=
  match User.stripe_account_id u with
  | Some _ => true
  | None => false
  end.

(** The LEFT JOIN and GROUP BY of the eligibility query: one row per user
    that has an account, with the sum of its pending commissions. *)
Definition grouped (w : World) : list EligibleRow :=
  map (fun u => mkRow u (coalesce0 (sql_sum (pending_amounts (User.id u) (commissions w)))))
      (filter has_account (users w)).

(** ORDER BY total_pending DESC.  sqlite leaves the order of rows of equal
    total open; they are kept in table order here. *)
Fixpoint insert_desc (r : EligibleRow) (l : list EligibleRow) : list EligibleRow :=
  match l with
  | [] => [r]
  | x :: l' =>
      if Qle_bool (total_pending x) (total_pending r)
      then r :: l
      else x :: insert_desc r l'
  end.

Definition order_desc (l : list EligibleRow) : list EligibleRow :=
  fold_right insert_desc [] l.

Definition eligible_rows (w : World) : list EligibleRow :=
  order_desc (filter (fun r => Qle_bool 50 (total_pending r)) (grouped w)).

Definition getEligibleUsers : M (list EligibleRow) :=
  sqlite_call ;;
  fun w => (Ok (eligible_rows w), w).

Definition mark_paid (userId : Z) (now : DateTime) (c : Commission.t) : Commission.t :=
  if is_pending_of userId c
  then Commission.mk (Commission.id c) (Commission.referrer_id c)
         (Commission.referred_user_id c) (Commission.purchase_amount c)
         (Commission.commission_amount c) "paid"
         (Commission.stripe_payment_intent_id c) (Commission.created_at c) (Some now)
  else c.

Definition updateCommissionsToPaid (userId : Z) : M nat :=
  sqlite_call ;;
  fun w =>
    (Ok (List.length (filter (is_pending_of userId) (commissions w))),
     set_commissions (map (mark_paid userId (clock w)) (commissions w))
                     (commissions_seq w) w).

Definition stripe_transfers_create (req : TransferReq) : M string :=
  fun w =>
    let w' := set_transfers (transfers w ++ [req]) w in
    match stripe w req with
    | Some transferId => (Ok transferId, w')
    | None => (Throw StripeError, w')
    end.

(** [Math.round]: to the nearest integer, halves upwards. *)
Definition Math_round (x : Q) : Z := Qfloor (x + (1 # 2)).

Definition Qltb (x y : Q) : bool :=
  match (x ?= y)%Q with
  | Lt => true
  | _ => false
  end.

Definition transfer_request (user : User.t) (totalPending : Q) (today : DateTime) : TransferReq :=
  mkTransfer (Math_round (totalPending * 100)) "gbp" (User.stripe_account_id user)
             today (User.id user) "true".

Definition processUserPayout (user : User.t) : M unit :=
  try_catch
    (console_log (PayoutProcessing (User.id user)) ;;
     totalPending <- getTotalPendingCommissions (User.id user) ;;
     if Qltb totalPending 50
     then console_log (PayoutBelowThreshold (User.id user) totalPending)
     else
       payout <- (fun w => stripe_transfers_create
                             (transfer_request user totalPending (clock w)) w) ;;
       payoutId <- createPayout (User.id user) totalPending ;;
       updatePayoutStatus payoutId "paid" (Some payout) ;;
       updateCommissionsToPaid (User.id user) ;;
       console_log (PayoutProcessed (User.id user) totalPending payout))
    (fun error =>
       console_log (PayoutFailed (User.id user) error) ;;
       totalPending <- getTotalPendingCommissions (User.id user) ;;
       payoutId <- createPayout (User.id user) totalPending ;;
       updatePayoutStatus payoutId "failed" None ;;
       throw error).

(** The body of the [for ... of] loop of the batch: one user, in its own try. *)
Definition payout_turn (user : EligibleRow) : M unit :=
  try_catch (processUserPayout (row_user user))
            (fun error => console_log (BatchUserFailed (User.id (row_user user)) error)).

Fixpoint payout_loop (eligibleUsers : list EligibleRow) : M unit :=
  match eligibleUsers with
  | [] => ret tt
  | user :: rest => payout_turn user ;; payout_loop rest
  end.

Definition processMonthlyPayouts : M unit :=
  try_catch
    (console_log BatchProcessing ;;
     eligibleUsers <- getEligibleUsers ;;
     if (List.length eligibleUsers =? 0)%nat
     then console_log BatchNoEligible
     else
       console_log (BatchCount (List.length eligibleUsers)) ;;
       payout_loop eligibleUsers ;;
       console_log BatchCompleted)
    (fun error => console_log (BatchFailed error) ;; throw error).

Definition monthlyPayoutJob : M unit :=
  console_log JobStarting ;;
  try_catch
    (fun w =>
       let today := clock w in
       let tomorrow := setDate today (getDate today + 1) in
       (if negb (getDate tomorrow =? 1)
        then console_log JobNotLastDay
        else processMonthlyPayouts) w)
    (fun error => console_log (JobFailed error)).

Definition triggerManualPayout : M unit :=
  console_log ManualTrigger ;;
  processMonthlyPayouts.

(** ** database.js: the other accessors of the ledger *)

Definition set_users (us : list User.t) (w : World) : World :=
  mkWorld us (commissions w) (commissions_seq w)
          (affiliate_payouts w) (affiliate_payouts_seq w)
          (console w) (transfers w) (clock w) (stripe w) (faults w).

Definition set_stripe_account (userId : Z) (accountId : option string) (u : User.t) : User.t :=
  if User.id u =? userId
  then User.mk (User.id u) (User.email u) (User.referrer_id u) accountId (User.created_at u)
  else u.

Definition updateStripeAccountId (userId : Z) (accountId : option string) : M bool :=
  sqlite_call ;;
  fun w =>
    (Ok (existsb (fun u => User.id u =? userId) (users w)),
     set_users (map (set_stripe_account userId accountId) (users w)) w).

Definition set_commission_status (commissionId : Z) (status : string)
    (paidAt : option DateTime) (c : Commission.t) : Commission.t :=
  if Commission.id c =? commissionId
  then Commission.mk (Commission.id c) (Commission.referrer_id c)
         (Commission.referred_user_id c) (Commission.purchase_amount c)
         (Commission.commission_amount c) status
         (Commission.stripe_payment_intent_id c) (Commission.created_at c) paidAt
  else c.

(** The third parameter, [payoutId], is accepted and not used. *)
Definition updateCommissionStatus (commissionId : Z) (status : string)
    (payoutId : option Z) : M bool :=
  fun w0 =>
    let paidAt := if (status =? "paid")%string then Some (clock w0) else None in
    (sqlite_call ;;
     fun w =>
       (Ok (existsb (fun c => Commission.id c =? commissionId) (commissions w)),
        set_commissions (map (set_commission_status commissionId status paidAt)
                             (commissions w))
                        (commissions_seq w) w)) w0.










(** ** routes/affiliate.js: the figures of the dashboard *)


(** [new Date(year, month, day)]: months beyond December carry into the
    year, then the day is counted from the first of the month. *)
Definition newDate (year month day : Z) : DateTime :=
  setDate (mkDate (year + month / 12) (month mod 12) 1) day.

(** [new Date(now.getFullYear(), now.getMonth() + 1, 0)] *)
Definition nextPayoutDate (now : DateTime) : DateTime :=
  newDate (getFullYear now) (getMonth now + 1) 0.

(** The days of the month the schedule ['0 2 28-31 * *'] fires on. *)
Definition cron_day (t : DateTime) : bool :=
  (28 <=? getDate t) && (getDate t <=? 31).

(** ** database.js: the plan and credit columns of the users table *)

Module Account.
Record t := mk {
  id : Z;
  plan : string;
  subscription_expires : option DateTime;
  report_credits : Z
}.
End Account.

Record AccountWorld := mkAccounts {
  accounts : list Account.t;        (* id, plan, subscription_expires, report_credits of users *)
  account_faults : list bool        (* per sqlite call to come: does it fail *)
}.

Definition account_call {A} (run : list Account.t -> A * list Account.t)
    (aw : AccountWorld) : Result A * AccountWorld :=
  match account_faults aw with
  | true :: fs => (Throw SqliteError, mkAccounts (accounts aw) fs)
  | false :: fs =>
      let (a, rows) := run (accounts aw) in (Ok a, mkAccounts rows fs)
  | [] =>
      let (a, rows) := run (accounts aw) in (Ok a, mkAccounts rows [])
  end.

Definition has_account_row (userId : Z) (rows : list Account.t) : bool :=
  existsb (fun a => Account.id a =? userId) rows.

Definition updateUserPlan (userId : Z) (plan : string) (expiryDate : option DateTime)
  : AccountWorld -> Result bool * AccountWorld :=
  account_call (fun rows =>
    (has_account_row userId rows,
     map (fun a => if Account.id a =? userId
                   then Account.mk (Account.id a) plan expiryDate (Account.report_credits a)
                   else a) rows)).

Definition add_credits (userId credits : Z) (a : Account.t) : Account.t :=
  if Account.id a =? userId
  then Account.mk (Account.id a) (Account.plan a) (Account.subscription_expires a)
                  (Account.report_credits a + credits)
  else a.

Definition addReportCredits (userId credits : Z)
  : AccountWorld -> Result bool * AccountWorld :=
  account_call (fun rows => (has_account_row userId rows, map (add_credits userId credits) rows)).

Definition can_use_credit (userId : Z) (a : Account.t) : bool :=
  (Account.id a =? userId) && (0 <? Account.report_credits a).

Definition use_credit (userId : Z) (a : Account.t) : Account.t :=
  if can_use_credit userId a
  then Account.mk (Account.id a) (Account.plan a) (Account.subscription_expires a)
                  (Account.report_credits a - 1)
  else a.

Definition useReportCredit (userId : Z)
  : AccountWorld -> Result bool * AccountWorld :=
  account_call (fun rows => (existsb (can_use_credit userId) rows, map (use_credit userId) rows)).

Definition getUserStatus (userId : Z)
  : AccountWorld -> Result (option Account.t) * AccountWorld :=
  account_call (fun rows => (find (fun a => Account.id a =? userId) rows, rows)).

(** * Vocabulary of the statements *)

(** The database works: no sqlite call to come fails. *)
Definition healthy (w : World) : Prop := Forall (fun b => b = false) (faults w).

(** A payout row has a paid_at exactly when its status is paid. *)
Definition payout_inv (p : Payout.t) : Prop :=
  Payout.paid_at p <> None <-> Payout.status p = "paid".

Definition payouts_inv (w : World) : Prop := Forall payout_inv (affiliate_payouts w).

(** The sum the specification speaks of: commission_amount added up over the
    commissions of the user that are pending. *)
Definition sum_pending (userId : Z) (w : World) : Q :=
  fold_right Qplus 0%Q (pending_amounts userId (commissions w)).

(** The row createCommission inserts in [w]. *)
Definition new_commission (w : World) (referrerId referredUserId : Z)
    (purchaseAmount commissionAmount : Q) (paymentIntentId : option string) : Commission.t :=
  Commission.mk (next_rowid (map Commission.id (commissions w)) (commissions_seq w))
    referrerId referredUserId purchaseAmount commissionAmount "pending"
    paymentIntentId (clock w) None.

(** The spec's rounding of an amount to the currency precision: two
    decimal places. *)
Definition round_to_currency_precision (q : Q) : Q :=
  (inject_Z (Math_round (q * 100)) / 100)%Q.

(** C4 as the specification words it: the one commission recorded carries the
    rounded amount. *)
Definition rounded_commission_recorded (session : Session) (w : World) : Prop :=
  exists c,
    commissions (snd (processAffiliateCommission session w)) = commissions w ++ [c]
    /\ (Commission.commission_amount c
        == round_to_currency_precision (Commission.purchase_amount c * 0.4))%Q
    /\ Commission.status c = "pending".

(** What getTotalPendingCommissions resolves to. *)
Definition pending_total (userId : Z) (w : World) : Q :=
  or_zero (sql_sum (pending_amounts userId (commissions w))).

(** The rowid createPayout draws in [w]. *)
Definition new_payout_id (w : World) : Z :=
  next_rowid (map Payout.id (affiliate_payouts w)) (affiliate_payouts_seq w).

(** The row of a payout started in [w], once marked paid, marked failed, or
    as inserted; and the request its transfer sends. *)
Definition paid_row (w : World) (user : User.t) (ref : string) : Payout.t :=
  Payout.mk (new_payout_id w) (User.id user) (pending_total (User.id user) w)
            (Some ref) "paid" (clock w) (Some (clock w)).

Definition failed_row (w : World) (user : User.t) : Payout.t :=
  Payout.mk (new_payout_id w) (User.id user) (pending_total (User.id user) w)
            None "failed" (clock w) None.

Definition request_of (w : World) (user : User.t) : TransferReq :=
  transfer_request user (pending_total (User.id user) w) (clock w).

Definition pending_row (w : World) (user : User.t) : Payout.t :=
  Payout.mk (new_payout_id w) (User.id user) (pending_total (User.id user) w)
            None "pending" (clock w) None.

(** The row the catch handler writes after a first row was inserted. *)
Definition second_failed_row (w : World) (user : User.t) : Payout.t :=
  Payout.mk (new_payout_id w + 1) (User.id user) (pending_total (User.id user) w)
            None "failed" (clock w) None.

(** A computation only appends to the console. *)
Definition console_grows {A} (m : M A) : Prop :=
  forall w, exists l, console (snd (m w)) = console w ++ l.

(** What a run printed. *)
Definition logged_since (w w' : World) : list Log :=
  skipn (List.length (console w)) (console w').

Definition row_id (r : EligibleRow) : Z := User.id (row_user r).

(** The commissions owed to one user. *)
Definition commissions_of (userId : Z) (w : World) : list Commission.t :=
  filter (fun c => Commission.referrer_id c =? userId) (commissions w).

(** What the batch owes a user of the list, judged from the world [w] the
    batch started in: a paid row with the transfer reference and no pending
    commission left when the transfer was accepted; a failed row, a line on
    the console and the commissions untouched when it was refused.  [rows]
    and [lines] are the payout rows and console lines the batch added. *)
Definition turn_outcome (w : World) (user : User.t) (wf : World)
    (rows : list Payout.t) (lines : list Log) : Prop :=
  match stripe w (request_of w user) with
  | Some ref =>
      (exists p, In p rows
                 /\ Payout.user_id p = User.id user
                 /\ Payout.status p = "paid"
                 /\ Payout.stripe_payout_id p = Some ref
                 /\ Payout.amount p = pending_total (User.id user) w)
      /\ Forall (fun c => Commission.status c <> "pending")
                (commissions_of (User.id user) wf)
      /\ In (PayoutProcessed (User.id user) (pending_total (User.id user) w) ref) lines
  | None =>
      (exists p, In p rows
                 /\ Payout.user_id p = User.id user
                 /\ Payout.status p = "failed"
                 /\ Payout.amount p = pending_total (User.id user) w)
      /\ commissions_of (User.id user) wf = commissions_of (User.id user) w
      /\ In (BatchUserFailed (User.id user) StripeError) lines
  end.

(** The payout rows a run added. *)
Definition payouts_since (w w' : World) : list Payout.t :=
  skipn (List.length (affiliate_payouts w)) (affiliate_payouts w').

(** The world the loop of the batch starts in. *)
Definition batch_start (w : World) : World :=
  set_console (console w ++ [BatchProcessing; BatchCount (List.length (eligible_rows w))])
              (set_faults (tl (faults w)) w).

(** A commission row has a paid_at exactly when its status is paid. *)
Definition commission_inv (c : Commission.t) : Prop :=
  Commission.paid_at c <> None <-> Commission.status c = "paid".

Definition commissions_inv (w : World) : Prop := Forall commission_inv (commissions w).

Definition ledger_inv (w : World) : Prop := commissions_inv w /\ payouts_inv w.

(** A computation relates every world to the world it leaves. *)
Definition keeps (R : World -> World -> Prop) {A} (m : M A) : Prop :=
  forall w, R w (snd (m w)).

(** What may happen to a commission row during a payout: nothing, or a
    pending row becomes paid with some timestamp. *)
Definition settles (c c' : Commission.t) : Prop :=
  c' = c
  \/ (Commission.status c = "pending"
      /\ exists now,
           c' = Commission.mk (Commission.id c) (Commission.referrer_id c)
                  (Commission.referred_user_id c) (Commission.purchase_amount c)
                  (Commission.commission_amount c) "paid"
                  (Commission.stripe_payment_intent_id c) (Commission.created_at c)
                  (Some now)).

(** The columns of a payout row that are written once. *)
Definition payout_core (p : Payout.t) : Z * Z * Q * DateTime :=
  (Payout.id p, Payout.user_id p, Payout.amount p, Payout.created_at p).

(** What a run of the payout module may do to the ledger: users untouched,
    commissions settled in place, payout rows and transfers appended. *)
Definition payout_step (w w' : World) : Prop :=
  users w' = users w
  /\ Forall2 settles (commissions w) (commissions w')
  /\ commissions_seq w' = commissions_seq w
  /\ (exists added, map payout_core (affiliate_payouts w')
                    = map payout_core (affiliate_payouts w) ++ added)
  /\ (exists sent, transfers w' = transfers w ++ sent)
  /\ clock w' = clock w
  /\ stripe w' = stripe w.

(** The transfers are as they were. *)
Definition same_transfers (w w' : World) : Prop := transfers w' = transfers w.

(** No account holds a negative number of report credits. *)
Definition credits_ok (rows : list Account.t) : Prop :=
  Forall (fun a => 0 <= Account.report_credits a) rows.

Definition credits_of (userId : Z) (rows : list Account.t) : option Z :=
  option_map Account.report_credits (find (fun a => Account.id a =? userId) rows).

(** A calendar date. *)
Definition valid_date (t : DateTime) : Prop :=
  0 <= getMonth t <= 11
  /\ 1 <= getDate t <= daysInMonth (getFullYear t) (getMonth t).

(** The sum of the commission amounts of a list of rows. *)
Definition amount_sum (rows : list Commission.t) : Q :=
  fold_right Qplus 0%Q (map Commission.commission_amount rows).

(** A transfer request the batch may send for one of [rows]: at least 50.00
    in pence, in pounds, addressed to the account of the row's user. *)
Definition sent_for (rows : list EligibleRow) (req : TransferReq) : Prop :=
  5000 <= tr_amount req
  /\ tr_currency req = "gbp"
  /\ exists r, In r rows
               /\ tr_user_id req = row_id r
               /\ tr_destination req = User.stripe_account_id (row_user r).




(** No sqlite call on the plan columns to come fails. *)
Definition accounts_healthy (aw : AccountWorld) : Prop :=
  Forall (fun b => b = false) (account_faults aw).

(** [n] calls of useReportCredit in a row, with what each resolved to. *)
Fixpoint use_times (n : nat) (userId : Z) (aw : AccountWorld)
  : list (Result bool) * AccountWorld :=
  match n with
  | O => ([], aw)
  | S k =>
      let (r, aw1) := useReportCredit userId aw in
      let (rs, aw2) := use_times k userId aw1 in
      (r :: rs, aw2)
  end.


Definition inv_step (w w' : World) : Prop := ledger_inv w -> ledger_inv w'.

(** The commission a purchase or invoice of [pence] records in [w]. *)
Definition recorded_commission (w : World) (referrer userId pence : Z)
    (intent : option string) : Commission.t :=
  new_commission w referrer userId (inject_Z pence / 100)%Q
                 (inject_Z pence / 100 * 0.4)%Q intent.

Definition recorder_step (w w' : World) : Prop :=
  users w' = users w
  /\ affiliate_payouts w' = affiliate_payouts w
  /\ transfers w' = transfers w.

(** * Example ledgers *)

Definition example_epoch : DateTime := mkDate 2024 0 15.

Definition referrer_A : User.t := User.mk 1 "a@example.com" None (Some "acct_A") example_epoch.
Definition purchaser_B : User.t := User.mk 2 "b@example.com" (Some 1) None example_epoch.

Definition two_user_world : World :=
  mkWorld [referrer_A; purchaser_B] [] 0 [] 0 [] [] (mkDate 2024 1 10)
          (fun _ => Some "tr_1") [].

(** A purchase of 9.99. *)
Definition purchase_999 : Session := mkSession (Some 2) None 999 (Some "pi_999").

Definition subscriber_jan15 : User.t :=
  User.mk 2 "b@example.com" (Some 1) None (mkDate 2024 0 15).

Definition subscription_world : World :=
  mkWorld [referrer_A; subscriber_jan15] [] 0 [] 0 [] [] (mkDate 2024 3 10)
          (fun _ => Some "tr_1") [].

Definition invoice_apr10 : Invoice :=
  mkInvoice (Some 2) None (mkDate 2024 3 10) 1999 (Some "pi_apr").

Definition invoice_mar31 : Invoice :=
  mkInvoice (Some 2) None (mkDate 2024 2 31) 1999 (Some "pi_mar").

Definition pending_commission (rowid referrer referred : Z) (amount : Q) : Commission.t :=
  Commission.mk rowid referrer referred (amount / 0.4)%Q amount "pending" None
                example_epoch None.

(** User 1 is owed 30 + 20, exactly the threshold; the payment rail accepts
    every transfer. *)
Definition paying_world : World :=
  mkWorld [referrer_A; purchaser_B]
          [pending_commission 1 1 2 30; pending_commission 2 1 2 20] 2
          [] 0 [] [] (mkDate 2024 0 31) (fun _ => Some "tr_1") [].

(** The same ledger with a payment rail that refuses every transfer. *)
Definition refusing_world : World :=
  mkWorld [referrer_A; purchaser_B]
          [pending_commission 1 1 2 30; pending_commission 2 1 2 20] 2
          [] 0 [] [] (mkDate 2024 0 31) (fun _ => None) [].

(** User 1 is owed 30 only. *)
Definition short_world : World :=
  mkWorld [referrer_A; purchaser_B] [pending_commission 1 1 2 30] 1
          [] 0 [] [] (mkDate 2024 0 31) (fun _ => Some "tr_1") [false].

(** The paying ledger with a database whose fourth call fails. *)
Definition late_failure_world : World :=
  mkWorld [referrer_A; purchaser_B]
          [pending_commission 1 1 2 30; pending_commission 2 1 2 20] 2
          [] 0 [] [] (mkDate 2024 0 31) (fun _ => Some "tr_1")
          [false; false; false; true].

(** The paying ledger after user 1 was paid once. *)
Definition settled_world : World := snd (processUserPayout referrer_A paying_world).

Definition affiliate (uid : Z) (account : string) : User.t :=
  User.mk uid "affiliate@example.com" None (Some account) example_epoch.

(** Three affiliates owed 80, 70 and 60; the payment rail refuses the
    transfer of user 2 and accepts the others. *)
Definition three_affiliates_world : World :=
  mkWorld [affiliate 1 "acct_1"; affiliate 2 "acct_2"; affiliate 3 "acct_3";
           User.mk 9 "buyer@example.com" (Some 1) None example_epoch]
          [pending_commission 1 1 9 80; pending_commission 2 2 9 70;
           pending_commission 3 3 9 60] 3
          [] 0 [] [] (mkDate 2024 0 31)
          (fun req => if tr_user_id req =? 2 then None else Some "tr_ok") [].

(** Two accounts: user 1 on the free plan with no credit, user 2 with three. *)
Definition two_accounts : AccountWorld :=
  mkAccounts [Account.mk 1 "free" None 0; Account.mk 2 "free" None 3] [].

(** * Properties *)

(** ** The database works / fails *)

Lemma sqlite_call_healthy (w : World) :
  healthy w ->
  exists fs, sqlite_call w = (Ok tt, set_faults fs w) /\ Forall (fun b => b = false) fs.
Proof.
  unfold healthy, sqlite_call. intros H.
  destruct (faults w) as [|b fs] eqn:E.
  - exists []. split; [|constructor].
    destruct w; simpl in *; subst; reflexivity.
  - inversion H; subst. exists fs. split; [reflexivity|assumption].
Qed.

Lemma sqlite_call_result (w : World) :
  (exists fs, sqlite_call w = (Ok tt, set_faults fs w))
  \/ (exists fs, sqlite_call w = (Throw SqliteError, set_faults fs w)).
Proof.
  unfold sqlite_call. destruct (faults w) as [|[|] fs] eqn:E.
  - left. exists []. destruct w; simpl in *; subst; reflexivity.
  - right. exists fs. reflexivity.
  - left. exists fs. reflexivity.
Qed.

(** ** The payout table and its timestamp *)

Lemma set_payout_status_inv payoutId status ref now p :
  payout_inv p ->
  payout_inv (set_payout_status payoutId status ref
                (if (status =? "paid")%string then Some now else None) p).
Proof.
  intros Hp. unfold set_payout_status.
  destruct (Payout.id p =? payoutId); [|exact Hp].
  unfold payout_inv; simpl.
  destruct (String.eqb_spec status "paid") as [->|Hne]; split; intro H;
    try reflexivity; try discriminate; try congruence.
Qed.

Lemma createPayout_inv userId amount w :
  payouts_inv w -> payouts_inv (snd (createPayout userId amount w)).
Proof.
  intros Hinv. unfold createPayout, bind.
  destruct (sqlite_call_result w) as [[fs E]|[fs E]]; rewrite E; simpl.
  - unfold payouts_inv; simpl. apply Forall_app. split; [exact Hinv|].
    constructor; [|constructor]. unfold payout_inv; simpl.
    split; intro H; [congruence|discriminate].
  - exact Hinv.
Qed.

Lemma updatePayoutStatus_inv payoutId status ref w :
  payouts_inv w -> payouts_inv (snd (updatePayoutStatus payoutId status ref w)).
Proof.
  intros Hinv. unfold updatePayoutStatus, bind.
  destruct (sqlite_call_result w) as [[fs E]|[fs E]]; rewrite E; simpl.
  - unfold payouts_inv in *; simpl. rewrite Forall_map.
    eapply Forall_impl; [|exact Hinv].
    intros p Hp. apply set_payout_status_inv; exact Hp.
  - exact Hinv.
Qed.

(** C9: the two writers of the payout table keep "paid_at is set exactly
    when the status is paid": a row inserted by createPayout is pending with
    no paid_at, and a row rewritten by updatePayoutStatus carries the current
    timestamp exactly when the new status is paid and no timestamp for any
    other status, failed included. *)
Theorem C9_payout_paid_at_invariant (w : World) :
  payouts_inv w ->
  (forall userId amount,
      payouts_inv (snd (createPayout userId amount w))
      /\ (forall rowid w', createPayout userId amount w = (Ok rowid, w') ->
          exists row, affiliate_payouts w' = affiliate_payouts w ++ [row]
                      /\ Payout.id row = rowid
                      /\ Payout.status row = "pending"
                      /\ Payout.paid_at row = None))
  /\ (forall payoutId status ref,
      payouts_inv (snd (updatePayoutStatus payoutId status ref w))
      /\ (forall b w', updatePayoutStatus payoutId status ref w = (Ok b, w') ->
          forall p, In p (affiliate_payouts w') -> Payout.id p = payoutId ->
            Payout.status p = status
            /\ (status = "paid" -> Payout.paid_at p = Some (clock w))
            /\ (status <> "paid" -> Payout.paid_at p = None))
      /\ (forall b w', updatePayoutStatus payoutId "failed" ref w = (Ok b, w') ->
          forall p, In p (affiliate_payouts w') -> Payout.id p = payoutId ->
            Payout.status p = "failed" /\ Payout.paid_at p = None)).
Proof.
  intros Hinv. split.
  - intros userId amount. split; [apply createPayout_inv; exact Hinv|].
    intros rowid w'. unfold createPayout, bind.
    destruct (sqlite_call_result w) as [[fs E]|[fs E]]; rewrite E; simpl;
      intros H; inversion H; subst; clear H.
    eexists. simpl. repeat split.
  - intros payoutId status ref.
    assert (Hupd : forall st b w',
               updatePayoutStatus payoutId st ref w = (Ok b, w') ->
               forall p, In p (affiliate_payouts w') -> Payout.id p = payoutId ->
                 Payout.status p = st
                 /\ (st = "paid" -> Payout.paid_at p = Some (clock w))
                 /\ (st <> "paid" -> Payout.paid_at p = None)).
    { intros st b w'. unfold updatePayoutStatus, bind.
      destruct (sqlite_call_result w) as [[fs E]|[fs E]]; rewrite E; simpl;
        intros H; inversion H; subst; clear H.
      simpl. intros p Hin Hid.
      apply in_map_iff in Hin. destruct Hin as (q & Hq & _).
      unfold set_payout_status in Hq.
      destruct (Payout.id q =? payoutId) eqn:Eid.
      - subst p; simpl.
        destruct (String.eqb_spec st "paid") as [->|Hne]; repeat split;
          intros; congruence.
      - subst p. apply Z.eqb_neq in Eid. contradiction. }
    split; [apply updatePayoutStatus_inv; exact Hinv|].
    split; [apply Hupd|].
    intros b w' H p Hin Hid.
    destruct (Hupd _ _ _ H p Hin Hid) as (Hs & _ & Hn).
    split; [exact Hs|apply Hn; discriminate].
Qed.

(** ** The pending sum and the eligibility query *)

Lemma fold_left_Qplus (l : list Q) (a : Q) :
  (fold_left Qplus l a == a + fold_right Qplus 0 l)%Q.
Proof.
  revert a. induction l as [|x l IH]; intros a; simpl.
  - ring.
  - rewrite IH. ring.
Qed.

Lemma coalesce0_sum (l : list Q) :
  (coalesce0 (sql_sum l) == fold_right Qplus 0 l)%Q.
Proof.
  destruct l as [|x l]; [reflexivity|].
  unfold sql_sum, coalesce0. rewrite fold_left_Qplus. ring.
Qed.

Lemma or_zero_sum (l : list Q) :
  (or_zero (sql_sum l) == fold_right Qplus 0 l)%Q.
Proof.
  destruct l as [|x l]; [reflexivity|].
  unfold sql_sum, or_zero.
  destruct (Qeq_bool (fold_left Qplus (x :: l) 0%Q) 0) eqn:E.
  - apply Qeq_bool_eq in E.
    transitivity (fold_left Qplus (x :: l) 0%Q); [symmetry; exact E|].
    rewrite fold_left_Qplus. ring.
  - rewrite fold_left_Qplus. ring.
Qed.

Lemma in_insert_desc (r x : EligibleRow) (l : list EligibleRow) :
  In r (insert_desc x l) <-> r = x \/ In r l.
Proof.
  induction l as [|y l IH]; simpl.
  - intuition congruence.
  - destruct (Qle_bool (total_pending y) (total_pending x)); simpl.
    + intuition congruence.
    + rewrite IH. intuition congruence.
Qed.

Lemma in_order_desc (r : EligibleRow) (l : list EligibleRow) :
  In r (order_desc l) <-> In r l.
Proof.
  induction l as [|y l IH]; simpl; [tauto|].
  rewrite in_insert_desc, IH. intuition congruence.
Qed.

Lemma in_eligible_rows (w : World) (r : EligibleRow) :
  In r (eligible_rows w) <->
  In (row_user r) (users w)
  /\ has_account (row_user r) = true
  /\ total_pending r
     = coalesce0 (sql_sum (pending_amounts (User.id (row_user r)) (commissions w)))
  /\ Qle_bool 50 (total_pending r) = true.
Proof.
  unfold eligible_rows, grouped.
  rewrite in_order_desc, filter_In, in_map_iff. split.
  - intros [(u & <- & Hu) Hle]. simpl in *.
    apply filter_In in Hu. tauto.
  - intros (Hu & Hacc & Htot & Hle). split; [|exact Hle].
    exists (row_user r). split.
    + destruct r as [u t]; simpl in *. subst t. reflexivity.
    + apply filter_In. tauto.
Qed.

Lemma has_account_iff (u : User.t) :
  has_account u = true <-> User.stripe_account_id u <> None.
Proof.
  unfold has_account. destruct (User.stripe_account_id u); split;
    intro H; congruence.
Qed.

Lemma no_commission_no_pending (userId : Z) (cs : list Commission.t) :
  (forall c, In c cs -> Commission.referrer_id c <> userId) ->
  pending_amounts userId cs = [].
Proof.
  intros H. unfold pending_amounts.
  induction cs as [|c cs IH]; simpl; [reflexivity|].
  unfold is_pending_of at 1.
  destruct (Z.eqb_spec (Commission.referrer_id c) userId) as [E|E].
  - exfalso. apply (H c); [left; reflexivity|exact E].
  - simpl. apply IH. intros c' Hc'. apply H. right. exact Hc'.
Qed.

Lemma eligible_iff (w : World) (u : User.t) :
  In u (map row_user (eligible_rows w)) <->
  In u (users w)
  /\ User.stripe_account_id u <> None
  /\ (50 <= sum_pending (User.id u) w)%Q.
Proof.
  rewrite in_map_iff. split.
  - intros (r & <- & Hr). apply in_eligible_rows in Hr.
    destruct Hr as (Hu & Hacc & Htot & Hle).
    split; [exact Hu|]. split; [apply has_account_iff; exact Hacc|].
    apply Qle_bool_iff in Hle. rewrite Htot in Hle.
    rewrite coalesce0_sum in Hle. exact Hle.
  - intros (Hu & Hacc & Hle).
    exists (mkRow u (coalesce0 (sql_sum (pending_amounts (User.id u) (commissions w))))).
    split; [reflexivity|]. apply in_eligible_rows; simpl.
    split; [exact Hu|]. split; [apply has_account_iff; exact Hacc|].
    split; [reflexivity|]. apply Qle_bool_iff.
    rewrite coalesce0_sum. exact Hle.
Qed.

(** C3: the eligibility scan returns a user exactly when the user is in the
    table, has a payment account and a pending sum of at least 50; a sum of
    exactly 50 is enough; and the pending sum of a user without commissions
    is 0, for the query and for getTotalPendingCommissions alike. *)
Theorem C3_eligibility_scan (w : World) (u : User.t) :
  (In u (map row_user (eligible_rows w)) <->
   In u (users w)
   /\ User.stripe_account_id u <> None
   /\ (50 <= sum_pending (User.id u) w)%Q)
  /\ (In u (users w) /\ User.stripe_account_id u <> None
      /\ (sum_pending (User.id u) w == 50)%Q ->
      In u (map row_user (eligible_rows w)))
  /\ (forall userId,
        (forall c, In c (commissions w) -> Commission.referrer_id c <> userId) ->
        sum_pending userId w = 0%Q
        /\ coalesce0 (sql_sum (pending_amounts userId (commissions w))) = 0%Q
        /\ forall total w',
             getTotalPendingCommissions userId w = (Ok total, w') -> total = 0%Q).
Proof.
  pose proof (eligible_iff w u) as Hiff.
  split; [exact Hiff|]. split.
  - intros (Hu & Hacc & Heq). apply Hiff.
    split; [exact Hu|]. split; [exact Hacc|]. rewrite Heq. apply Qle_refl.
  - intros userId Hnone.
    pose proof (no_commission_no_pending userId (commissions w) Hnone) as E.
    unfold sum_pending. rewrite E. simpl.
    split; [reflexivity|]. split; [reflexivity|].
    intros total w'. unfold getTotalPendingCommissions, bind.
    destruct (sqlite_call_result w) as [[fs Ec]|[fs Ec]]; rewrite Ec; simpl;
      intros H; inversion H; subst. rewrite E. reflexivity.
Qed.

(** ** The commission recorders *)

Lemma healthy_set_faults (fs : list bool) (w : World) :
  Forall (fun b => b = false) fs -> healthy (set_faults fs w).
Proof. intros H. exact H. Qed.

Lemma getUserById_healthy (uid : Z) (w : World) :
  healthy w ->
  exists fs, Forall (fun b => b = false) fs
    /\ getUserById uid w
       = (Ok (find (fun u => User.id u =? uid) (users w)), set_faults fs w).
Proof.
  intros H. destruct (sqlite_call_healthy w H) as (fs & E & Hfs).
  exists fs. split; [exact Hfs|]. unfold getUserById, bind. rewrite E. reflexivity.
Qed.

Lemma createCommission_healthy referrerId referredUserId purchaseAmount
      commissionAmount paymentIntentId (w : World) :
  healthy w ->
  exists fs w',
    createCommission referrerId referredUserId purchaseAmount commissionAmount
      paymentIntentId w
    = (Ok (next_rowid (map Commission.id (commissions w)) (commissions_seq w)), w')
    /\ healthy w'
    /\ commissions w'
       = commissions w ++ [new_commission w referrerId referredUserId purchaseAmount
                             commissionAmount paymentIntentId]
    /\ clock w' = clock w
    /\ faults w' = fs.
Proof.
  intros H. destruct (sqlite_call_healthy w H) as (fs & E & Hfs).
  unfold createCommission, bind. rewrite E. simpl.
  eexists fs, _. split; [reflexivity|]. simpl.
  split; [exact Hfs|]. repeat split.
Qed.

Lemma referrer_of_some (u : User.t) (referrer : Z) :
  User.referrer_id u = Some referrer -> referrer <> 0 ->
  referrer_of (Some u) = Some referrer.
Proof.
  intros E Hne. unfold referrer_of. rewrite E. simpl.
  apply Z.eqb_neq in Hne. rewrite Hne. reflexivity.
Qed.

(** C4, the statement as worded fails: for a purchase of 9.99 by a referred
    user the commission recorded is 3.996, not 4.00. *)
Lemma C4_rounding_counterexample :
  referrer_of (find (fun u => User.id u =? 2) (users two_user_world)) = Some 1
  /\ (exists c,
        commissions (snd (processAffiliateCommission purchase_999 two_user_world)) = [c]
        /\ Commission.commission_amount c = (inject_Z 999 / 100 * 0.4)%Q
        /\ (Commission.commission_amount c == 3.996)%Q
        /\ (round_to_currency_precision (Commission.purchase_amount c * 0.4) == 4)%Q)
  /\ ~ rounded_commission_recorded purchase_999 two_user_world.
Proof.
  split; [reflexivity|]. split.
  - eexists. split; [reflexivity|]. simpl. repeat split.
  - intros (c & Hc & Hround & _).
    vm_compute in Hc. inversion Hc; subst c; clear Hc.
    vm_compute in Hround. discriminate Hround.
Qed.

(** C4, amended: a one-time purchase by a user who has a referrer records
    exactly one commission, pending, whose amount is the purchase amount
    times 0.4 with no rounding applied.  The database is taken to work
    during the call. *)
Theorem C4_commission_is_unrounded_product
    (w : World) (session : Session) (userId : Z) (u : User.t) (referrer : Z) :
  healthy w ->
  or_else (session_metadata_userId session) (session_customer session) = Some userId ->
  find (fun x => User.id x =? userId) (users w) = Some u ->
  User.referrer_id u = Some referrer ->
  referrer <> 0 ->
  exists c,
    commissions (snd (processAffiliateCommission session w)) = commissions w ++ [c]
    /\ Commission.referrer_id c = referrer
    /\ Commission.referred_user_id c = userId
    /\ Commission.purchase_amount c = (inject_Z (amount_total session) / 100)%Q
    /\ Commission.commission_amount c = (Commission.purchase_amount c * 0.4)%Q
    /\ Commission.status c = "pending"
    /\ Commission.paid_at c = None.
Proof.
  intros Hw Hid Hfind Href Hne.
  unfold processAffiliateCommission, try_catch. rewrite Hid.
  unfold bind at 1.
  destruct (getUserById_healthy userId w Hw) as (fs & Hfs & E). rewrite E.
  rewrite Hfind, (referrer_of_some u referrer Href Hne).
  unfold bind.
  match goal with
  | |- context [createCommission ?a ?b ?c ?d ?e ?w1] =>
      destruct (createCommission_healthy a b c d e w1 (healthy_set_faults fs w Hfs))
        as (fs' & w' & Ec & Hw' & Hcs & _)
  end.
  rewrite Ec. simpl. rewrite Hcs. simpl.
  eexists. split; [reflexivity|]. simpl. repeat split.
Qed.

Lemma C4_commission_witness :
  exists c,
    commissions (snd (processAffiliateCommission purchase_999 two_user_world)) = [c]
    /\ Commission.commission_amount c = (Commission.purchase_amount c * 0.4)%Q.
Proof.
  destruct (C4_commission_is_unrounded_product two_user_world purchase_999 2
              purchaser_B 1) as (c & Hc & _ & _ & _ & Hamt & _).
  - constructor.
  - reflexivity.
  - reflexivity.
  - reflexivity.
  - discriminate.
  - exists c. split; [exact Hc|exact Hamt].
Defined.

Lemma app_one_neq {A} (l : list A) (x : A) : l <> l ++ [x].
Proof.
  intros E. apply (f_equal (@List.length A)) in E.
  rewrite length_app in E. simpl in E. lia.
Qed.

Lemma processSubscriptionCommission_healthy
    (w : World) (invoice : Invoice) (userId : Z) (u : User.t) (referrer : Z) :
  healthy w ->
  or_else (invoice_metadata_userId invoice) (invoice_customer invoice) = Some userId ->
  find (fun x => User.id x =? userId) (users w) = Some u ->
  User.referrer_id u = Some referrer ->
  referrer <> 0 ->
  commissions (snd (processSubscriptionCommission invoice w))
  = if 3 <=? monthsDiff (User.created_at u) (invoice_created invoice)
    then commissions w
    else commissions w
         ++ [new_commission w referrer userId
               (inject_Z (amount_paid invoice) / 100)%Q
               (inject_Z (amount_paid invoice) / 100 * 0.4)%Q
               (invoice_payment_intent invoice)].
Proof.
  intros Hw Hid Hfind Href Hne.
  unfold processSubscriptionCommission, try_catch. rewrite Hid.
  unfold bind at 1.
  destruct (getUserById_healthy userId w Hw) as (fs & Hfs & E). rewrite E.
  rewrite Hfind, (referrer_of_some u referrer Href Hne).
  destruct (3 <=? monthsDiff (User.created_at u) (invoice_created invoice)).
  - reflexivity.
  - unfold bind.
    match goal with
    | |- context [createCommission ?a ?b ?c ?d ?e ?w1] =>
        destruct (createCommission_healthy a b c d e w1 (healthy_set_faults fs w Hfs))
          as (fs' & w' & Ec & Hw' & Hcs & _)
    end.
    rewrite Ec. simpl. rewrite Hcs. reflexivity.
Qed.

(** C5: for a subscription invoice paid by a user who has a referrer, a
    commission is recorded exactly when the month-number difference
    (years apart times 12, plus months apart) between the account creation
    and the invoice is below 3; an account of January 15 invoiced on April 10
    is at 3 and records nothing, although fewer than 90 days have passed.
    The database is taken to work during the call. *)
Theorem C5_subscription_commission_window
    (w : World) (invoice : Invoice) (userId : Z) (u : User.t) (referrer : Z) :
  healthy w ->
  or_else (invoice_metadata_userId invoice) (invoice_customer invoice) = Some userId ->
  find (fun x => User.id x =? userId) (users w) = Some u ->
  User.referrer_id u = Some referrer ->
  referrer <> 0 ->
  let w' := snd (processSubscriptionCommission invoice w) in
  let months := (getFullYear (invoice_created invoice) - getFullYear (User.created_at u)) * 12
                + (getMonth (invoice_created invoice) - getMonth (User.created_at u)) in
  ((exists c, commissions w' = commissions w ++ [c]
              /\ Commission.referrer_id c = referrer
              /\ Commission.status c = "pending"
              /\ Commission.commission_amount c
                 = (inject_Z (amount_paid invoice) / 100 * 0.4)%Q)
   <-> months < 3)
  /\ (3 <= months -> commissions w' = commissions w)
  /\ (User.created_at u = mkDate (getFullYear (User.created_at u)) 0 15 ->
      invoice_created invoice = mkDate (getFullYear (User.created_at u)) 3 10 ->
      months = 3 /\ commissions w' = commissions w).
Proof.
  intros Hw Hid Hfind Href Hne w' months.
  pose proof (processSubscriptionCommission_healthy w invoice userId u referrer
                Hw Hid Hfind Href Hne) as Hrun.
  fold w' in Hrun. unfold monthsDiff in Hrun. fold months in Hrun.
  assert (Hge : 3 <= months -> commissions w' = commissions w).
  { intros H. apply Z.leb_le in H. rewrite H in Hrun. exact Hrun. }
  assert (Hlt : months < 3 ->
                commissions w'
                = commissions w
                  ++ [new_commission w referrer userId
                        (inject_Z (amount_paid invoice) / 100)%Q
                        (inject_Z (amount_paid invoice) / 100 * 0.4)%Q
                        (invoice_payment_intent invoice)]).
  { intros H. apply Z.leb_gt in H. rewrite H in Hrun. exact Hrun. }
  clear Hrun.
  split; [split|split].
  - intros (c & Hc & _). destruct (Z.lt_ge_cases months 3) as [H|H]; [exact H|].
    exfalso. rewrite (Hge H) in Hc. exact (app_one_neq _ _ Hc).
  - intros H. eexists. split; [exact (Hlt H)|]. simpl. repeat split.
  - exact Hge.
  - intros Hstart Hinv.
    assert (Hm : months = 3).
    { unfold months. rewrite Hinv, Hstart. simpl. lia. }
    split; [exact Hm|]. apply Hge. lia.
Qed.

Lemma C5_subscription_window_witness :
  commissions (snd (processSubscriptionCommission invoice_apr10 subscription_world)) = []
  /\ exists c,
       commissions (snd (processSubscriptionCommission invoice_mar31 subscription_world))
       = [c].
Proof.
  split.
  - refine (proj1 (proj2 (C5_subscription_commission_window subscription_world
                            invoice_apr10 2 subscriber_jan15 1 _ _ _ _ _)) _);
      try reflexivity; try discriminate; try constructor.
  - destruct (proj2 (proj1 (C5_subscription_commission_window subscription_world
                              invoice_mar31 2 subscriber_jan15 1
                              (Forall_nil _) eq_refl eq_refl eq_refl
                              (fun E => Z.neq_succ_diag_l 0%Z E)))
                eq_refl) as (c & Hc & _).
    exists c. exact Hc.
Defined.

(** ** One payout: the calls of the processor when the database works *)

Lemma pending_total_sum (userId : Z) (w : World) :
  (pending_total userId w == sum_pending userId w)%Q.
Proof. apply or_zero_sum. Qed.

Lemma Qltb_lt (x y : Q) : Qltb x y = true <-> (x < y)%Q.
Proof.
  unfold Qltb. rewrite Qlt_alt. destruct (x ?= y)%Q; split; intro H;
    congruence.
Qed.

Lemma Qltb_ge (x y : Q) : Qltb x y = false <-> (y <= x)%Q.
Proof.
  split; intro H.
  - apply Qnot_lt_le. intro Hlt. apply Qltb_lt in Hlt. congruence.
  - destruct (Qltb x y) eqn:E; [|reflexivity].
    apply Qltb_lt in E. exfalso. exact (Qlt_not_le _ _ E H).
Qed.

Lemma getTotalPendingCommissions_healthy (userId : Z) (w : World) :
  healthy w ->
  exists fs, Forall (fun b => b = false) fs
    /\ getTotalPendingCommissions userId w
       = (Ok (pending_total userId w), set_faults fs w).
Proof.
  intros H. destruct (sqlite_call_healthy w H) as (fs & E & Hfs).
  exists fs. split; [exact Hfs|].
  unfold getTotalPendingCommissions, bind. rewrite E. reflexivity.
Qed.

Lemma createPayout_healthy (userId : Z) (amount : Q) (w : World) :
  healthy w ->
  exists fs, Forall (fun b => b = false) fs
    /\ createPayout userId amount w
       = (Ok (new_payout_id w),
          set_payouts (affiliate_payouts w
                       ++ [Payout.mk (new_payout_id w) userId amount None "pending"
                             (clock w) None])
                      (new_payout_id w) (set_faults fs w)).
Proof.
  intros H. destruct (sqlite_call_healthy w H) as (fs & E & Hfs).
  exists fs. split; [exact Hfs|].
  unfold createPayout, bind. rewrite E. reflexivity.
Qed.

Lemma updatePayoutStatus_healthy payoutId status ref (w : World) :
  healthy w ->
  exists fs, Forall (fun b => b = false) fs
    /\ updatePayoutStatus payoutId status ref w
       = (Ok (existsb (fun p => Payout.id p =? payoutId) (affiliate_payouts w)),
          set_payouts
            (map (set_payout_status payoutId status ref
                    (if (status =? "paid")%string then Some (clock w) else None))
                 (affiliate_payouts w))
            (affiliate_payouts_seq w) (set_faults fs w)).
Proof.
  intros H. destruct (sqlite_call_healthy w H) as (fs & E & Hfs).
  exists fs. split; [exact Hfs|].
  unfold updatePayoutStatus, bind. rewrite E. reflexivity.
Qed.

Lemma updateCommissionsToPaid_healthy (userId : Z) (w : World) :
  healthy w ->
  exists fs, Forall (fun b => b = false) fs
    /\ updateCommissionsToPaid userId w
       = (Ok (List.length (filter (is_pending_of userId) (commissions w))),
          set_commissions (map (mark_paid userId (clock w)) (commissions w))
                          (commissions_seq w) (set_faults fs w)).
Proof.
  intros H. destruct (sqlite_call_healthy w H) as (fs & E & Hfs).
  exists fs. split; [exact Hfs|].
  unfold updateCommissionsToPaid, bind. rewrite E. reflexivity.
Qed.

(** A fresh rowid lies above every row of the table, so the update that
    follows an insert rewrites the inserted row only. *)
Lemma next_rowid_above (ids : list Z) (seq : Z) (i : Z) :
  In i ids -> i < next_rowid ids seq.
Proof.
  unfold next_rowid. induction ids as [|x ids IH]; simpl; [tauto|].
  intros [->|H]; [lia|]. specialize (IH H). lia.
Qed.

Lemma set_payout_status_fresh (ps : list Payout.t) (seq : Z) status ref paidAt :
  map (set_payout_status (next_rowid (map Payout.id ps) seq) status ref paidAt) ps = ps.
Proof.
  assert (H : forall k, (forall p, In p ps -> Payout.id p < k) ->
                        map (set_payout_status k status ref paidAt) ps = ps).
  { intros k. induction ps as [|p ps IH]; intros Hk; simpl; [reflexivity|].
    rewrite IH by (intros q Hq; apply Hk; right; exact Hq).
    unfold set_payout_status.
    assert (Payout.id p < k) as Hp by (apply Hk; left; reflexivity).
    destruct (Z.eqb_spec (Payout.id p) k); [lia|reflexivity]. }
  apply H. intros p Hp. apply next_rowid_above. apply in_map. exact Hp.
Qed.

Lemma update_after_insert (ps : list Payout.t) (seq : Z) userId amount created
      status ref paidAt :
  map (set_payout_status (next_rowid (map Payout.id ps) seq) status ref paidAt)
      (ps ++ [Payout.mk (next_rowid (map Payout.id ps) seq) userId amount None
                "pending" created None])
  = ps ++ [Payout.mk (next_rowid (map Payout.id ps) seq) userId amount ref
             status created paidAt].
Proof.
  rewrite map_app, set_payout_status_fresh. simpl.
  unfold set_payout_status at 1. simpl. rewrite Z.eqb_refl. reflexivity.
Qed.

(** Reads that do not depend on the fields a setter replaces. *)
Lemma pending_total_set_console u l w :
  pending_total u (set_console l w) = pending_total u w.
Proof. reflexivity. Qed.

Lemma pending_total_set_faults u l w :
  pending_total u (set_faults l w) = pending_total u w.
Proof. reflexivity. Qed.

Lemma pending_total_set_transfers u l w :
  pending_total u (set_transfers l w) = pending_total u w.
Proof. reflexivity. Qed.

Lemma pending_total_set_payouts u l s w :
  pending_total u (set_payouts l s w) = pending_total u w.
Proof. reflexivity. Qed.

Lemma new_payout_id_set_console l w :
  new_payout_id (set_console l w) = new_payout_id w.
Proof. reflexivity. Qed.

Lemma new_payout_id_set_faults l w :
  new_payout_id (set_faults l w) = new_payout_id w.
Proof. reflexivity. Qed.

Lemma new_payout_id_set_transfers l w :
  new_payout_id (set_transfers l w) = new_payout_id w.
Proof. reflexivity. Qed.

Lemma new_payout_id_set_commissions l s w :
  new_payout_id (set_commissions l s w) = new_payout_id w.
Proof. reflexivity. Qed.

Create Rewrite HintDb world.
#[local] Hint Rewrite pending_total_set_console pending_total_set_faults
  pending_total_set_transfers pending_total_set_payouts
  new_payout_id_set_console new_payout_id_set_faults
  new_payout_id_set_transfers new_payout_id_set_commissions : world.

Ltac healthy_now :=
  first [ assumption | unfold healthy; simpl; assumption ].

Ltac db_step :=
  match goal with
  | |- context [getTotalPendingCommissions ?u ?w1] =>
      let fs := fresh "fs" in let Hfs := fresh "Hfs" in let E := fresh "E" in
      destruct (getTotalPendingCommissions_healthy u w1 ltac:(healthy_now))
        as (fs & Hfs & E); rewrite E; clear E
  | |- context [createPayout ?u ?a ?w1] =>
      let fs := fresh "fs" in let Hfs := fresh "Hfs" in let E := fresh "E" in
      destruct (createPayout_healthy u a w1 ltac:(healthy_now))
        as (fs & Hfs & E); rewrite E; clear E
  | |- context [updatePayoutStatus ?i ?s ?r ?w1] =>
      let fs := fresh "fs" in let Hfs := fresh "Hfs" in let E := fresh "E" in
      destruct (updatePayoutStatus_healthy i s r w1 ltac:(healthy_now))
        as (fs & Hfs & E); rewrite E; clear E
  | |- context [updateCommissionsToPaid ?u ?w1] =>
      let fs := fresh "fs" in let Hfs := fresh "Hfs" in let E := fresh "E" in
      destruct (updateCommissionsToPaid_healthy u w1 ltac:(healthy_now))
        as (fs & Hfs & E); rewrite E; clear E
  end.

Lemma processUserPayout_success (user : User.t) (w : World) (ref : string) :
  healthy w ->
  Qltb (pending_total (User.id user) w) 50 = false ->
  stripe w (request_of w user) = Some ref ->
  exists w',
    processUserPayout user w = (Ok tt, w')
    /\ healthy w'
    /\ users w' = users w
    /\ commissions w' = map (mark_paid (User.id user) (clock w)) (commissions w)
    /\ commissions_seq w' = commissions_seq w
    /\ affiliate_payouts w' = affiliate_payouts w ++ [paid_row w user ref]
    /\ affiliate_payouts_seq w' = new_payout_id w
    /\ transfers w' = transfers w ++ [request_of w user]
    /\ clock w' = clock w
    /\ stripe w' = stripe w
    /\ console w'
       = console w ++ [PayoutProcessing (User.id user);
                       PayoutProcessed (User.id user) (pending_total (User.id user) w) ref].
Proof.
  intros Hw Hge Hstripe.
  unfold processUserPayout, try_catch.
  unfold bind at 1. unfold console_log at 1.
  unfold bind at 1. db_step. autorewrite with world. rewrite Hge.
  unfold bind at 1. unfold stripe_transfers_create at 1. simpl.
  fold (request_of w user). rewrite Hstripe.
  unfold bind at 1. db_step. autorewrite with world.
  unfold bind at 1. db_step.
  unfold bind at 1. db_step.
  unfold console_log. simpl.
  eexists. split; [reflexivity|]. simpl.
  split; [exact Hfs2|].
  unfold new_payout_id. rewrite update_after_insert.
  rewrite <- app_assoc. repeat split.
Qed.

Lemma processUserPayout_transfer_fails (user : User.t) (w : World) :
  healthy w ->
  Qltb (pending_total (User.id user) w) 50 = false ->
  stripe w (request_of w user) = None ->
  exists w',
    processUserPayout user w = (Throw StripeError, w')
    /\ healthy w'
    /\ users w' = users w
    /\ commissions w' = commissions w
    /\ commissions_seq w' = commissions_seq w
    /\ affiliate_payouts w' = affiliate_payouts w ++ [failed_row w user]
    /\ affiliate_payouts_seq w' = new_payout_id w
    /\ transfers w' = transfers w ++ [request_of w user]
    /\ clock w' = clock w
    /\ stripe w' = stripe w
    /\ console w'
       = console w ++ [PayoutProcessing (User.id user);
                       PayoutFailed (User.id user) StripeError].
Proof.
  intros Hw Hge Hstripe.
  unfold processUserPayout, try_catch.
  unfold bind at 1. unfold console_log at 1.
  unfold bind at 1. db_step. autorewrite with world. rewrite Hge.
  unfold bind at 1. unfold stripe_transfers_create at 1. simpl.
  fold (request_of w user). rewrite Hstripe.
  unfold bind at 1. unfold console_log at 1.
  unfold bind at 1. db_step. autorewrite with world.
  unfold bind at 1. db_step. autorewrite with world.
  unfold bind at 1. db_step.
  unfold throw. simpl.
  eexists. split; [reflexivity|]. simpl.
  split; [exact Hfs2|].
  unfold new_payout_id. rewrite update_after_insert.
  rewrite <- app_assoc. repeat split.
Qed.

Lemma sqlite_call_first_ok (w : World) :
  hd false (faults w) = false ->
  sqlite_call w = (Ok tt, set_faults (tl (faults w)) w).
Proof.
  unfold sqlite_call. intros H.
  destruct w as [us cs cq ps pq co tr cl st fs]; simpl in *.
  destruct fs as [|b fs]; simpl in *; [reflexivity|]. subst b. reflexivity.
Qed.

Lemma processUserPayout_below_threshold (user : User.t) (w : World) :
  hd false (faults w) = false ->
  Qltb (pending_total (User.id user) w) 50 = true ->
  processUserPayout user w
  = (Ok tt,
     set_console (console w ++ [PayoutProcessing (User.id user);
                                PayoutBelowThreshold (User.id user)
                                  (pending_total (User.id user) w)])
                 (set_faults (tl (faults w)) w)).
Proof.
  intros Hhd Hlt.
  unfold processUserPayout, try_catch.
  unfold bind at 1. unfold console_log at 1.
  unfold bind at 1. unfold getTotalPendingCommissions at 1. unfold bind at 1.
  rewrite sqlite_call_first_ok by exact Hhd.
  cbn [commissions faults set_faults set_console].
  fold (pending_total (User.id user) w). rewrite Hlt.
  unfold console_log. simpl. rewrite <- app_assoc. reflexivity.
Qed.

Lemma eligible_passes_recheck (w : World) (user : User.t) :
  In user (map row_user (eligible_rows w)) ->
  Qltb (pending_total (User.id user) w) 50 = false.
Proof.
  intros H. apply eligible_iff in H. destruct H as (_ & _ & Hle).
  apply Qltb_ge. rewrite pending_total_sum. exact Hle.
Qed.

Lemma mark_paid_pending (userId : Z) (now : DateTime) (c : Commission.t) :
  Commission.referrer_id c = userId ->
  Commission.status c = "pending" ->
  Commission.status (mark_paid userId now c) = "paid"
  /\ Commission.paid_at (mark_paid userId now c) = Some now
  /\ Commission.id (mark_paid userId now c) = Commission.id c
  /\ Commission.commission_amount (mark_paid userId now c) = Commission.commission_amount c.
Proof.
  intros Hr Hs. unfold mark_paid, is_pending_of.
  rewrite Hr, Hs, Z.eqb_refl. simpl. repeat split.
Qed.

Lemma mark_paid_none_left (userId : Z) (now : DateTime) (c : Commission.t) :
  Commission.referrer_id (mark_paid userId now c) = userId ->
  Commission.status (mark_paid userId now c) <> "pending".
Proof.
  unfold mark_paid, is_pending_of.
  destruct (Z.eqb_spec (Commission.referrer_id c) userId) as [E|E]; simpl.
  - destruct (String.eqb_spec (Commission.status c) "pending") as [Es|Es]; simpl.
    + intros _. discriminate.
    + intros _. exact Es.
  - intros H. contradiction.
Qed.

(** C1: an eligible user whose transfer succeeds gets every pending
    commission marked paid with a paid_at timestamp, and exactly one new
    payout row, paid, carrying the reference the payment rail returned.
    The database is taken to work during the call; C10 is the other case. *)
Theorem C1_successful_payout_settles (user : User.t) (w : World) (ref : string) :
  healthy w ->
  In user (map row_user (eligible_rows w)) ->
  stripe w (request_of w user) = Some ref ->
  let w' := snd (processUserPayout user w) in
  fst (processUserPayout user w) = Ok tt
  /\ commissions w' = map (mark_paid (User.id user) (clock w)) (commissions w)
  /\ (forall c, In c (commissions w) ->
        Commission.referrer_id c = User.id user ->
        Commission.status c = "pending" ->
        exists c', In c' (commissions w')
                   /\ Commission.id c' = Commission.id c
                   /\ Commission.status c' = "paid"
                   /\ Commission.paid_at c' <> None)
  /\ (forall c', In c' (commissions w') ->
        Commission.referrer_id c' = User.id user ->
        Commission.status c' <> "pending")
  /\ (exists p, affiliate_payouts w' = affiliate_payouts w ++ [p]
                /\ Payout.user_id p = User.id user
                /\ Payout.status p = "paid"
                /\ Payout.stripe_payout_id p = Some ref
                /\ Payout.paid_at p <> None
                /\ (Payout.amount p == sum_pending (User.id user) w)%Q).
Proof.
  intros Hw Hel Hstripe w'.
  destruct (processUserPayout_success user w ref Hw
              (eligible_passes_recheck w user Hel) Hstripe)
    as (w1 & Hrun & _ & _ & Hcs & _ & Hps & _).
  subst w'. rewrite Hrun. simpl.
  split; [reflexivity|]. split; [exact Hcs|]. split; [|split].
  - intros c Hin Hr Hs.
    destruct (mark_paid_pending (User.id user) (clock w) c Hr Hs)
      as (H1 & H2 & H3 & _).
    exists (mark_paid (User.id user) (clock w) c).
    split; [rewrite Hcs; apply in_map; exact Hin|].
    split; [exact H3|]. split; [exact H1|]. rewrite H2. discriminate.
  - intros c' Hin Hr. rewrite Hcs in Hin. apply in_map_iff in Hin.
    destruct Hin as (c & <- & _). apply mark_paid_none_left. exact Hr.
  - exists (paid_row w user ref). split; [exact Hps|]. simpl.
    repeat split; try discriminate. apply pending_total_sum.
Qed.

Lemma C1_successful_payout_witness :
  exists p,
    affiliate_payouts (snd (processUserPayout referrer_A paying_world)) = [p]
    /\ Payout.status p = "paid"
    /\ Payout.stripe_payout_id p = Some "tr_1".
Proof.
  destruct (C1_successful_payout_settles referrer_A paying_world "tr_1")
    as (_ & _ & _ & _ & p & Hp & _ & Hs & Hr & _).
  - constructor.
  - left. reflexivity.
  - reflexivity.
  - exists p. split; [exact Hp|]. split; [exact Hs|exact Hr].
Defined.

(** C2: an eligible user whose transfer fails gets one payout row, failed,
    with the amount that was attempted; no commission changes, so the user
    is eligible with the same pending sum in the next cycle.  The database
    is taken to work during the call. *)
Theorem C2_failed_transfer_keeps_commissions_pending (user : User.t) (w : World) :
  healthy w ->
  In user (map row_user (eligible_rows w)) ->
  stripe w (request_of w user) = None ->
  let w' := snd (processUserPayout user w) in
  fst (processUserPayout user w) = Throw StripeError
  /\ commissions w' = commissions w
  /\ (forall c, In c (commissions w) ->
        Commission.referrer_id c = User.id user ->
        Commission.status c = "pending" -> In c (commissions w'))
  /\ (exists p req,
        affiliate_payouts w' = affiliate_payouts w ++ [p]
        /\ Payout.user_id p = User.id user
        /\ Payout.status p = "failed"
        /\ Payout.paid_at p = None
        /\ (Payout.amount p == sum_pending (User.id user) w)%Q
        /\ transfers w' = transfers w ++ [req]
        /\ tr_amount req = Math_round (Payout.amount p * 100))
  /\ sum_pending (User.id user) w' = sum_pending (User.id user) w
  /\ In user (map row_user (eligible_rows w')).
Proof.
  intros Hw Hel Hstripe w'.
  destruct (processUserPayout_transfer_fails user w Hw
              (eligible_passes_recheck w user Hel) Hstripe)
    as (w1 & Hrun & _ & Hus & Hcs & _ & Hps & _ & Htr & _).
  subst w'. rewrite Hrun. simpl.
  split; [reflexivity|]. split; [exact Hcs|]. split; [|split; [|split]].
  - intros c Hin _ _. rewrite Hcs. exact Hin.
  - exists (failed_row w user), (request_of w user).
    split; [exact Hps|]. simpl. repeat split; try exact Htr.
    apply pending_total_sum.
  - unfold sum_pending. rewrite Hcs. reflexivity.
  - apply eligible_iff. apply eligible_iff in Hel.
    unfold sum_pending in *. rewrite Hus, Hcs. exact Hel.
Qed.

Lemma C2_failed_transfer_witness :
  commissions (snd (processUserPayout referrer_A refusing_world))
  = commissions refusing_world
  /\ fst (processUserPayout referrer_A refusing_world) = Throw StripeError.
Proof.
  destruct (C2_failed_transfer_keeps_commissions_pending referrer_A refusing_world)
    as (Hr & Hcs & _).
  - constructor.
  - left. reflexivity.
  - reflexivity.
  - split; [exact Hcs|exact Hr].
Defined.

(** C7: when the sum re-read by processUserPayout is below 50 the call
    returns normally and leaves the tables as they were: no transfer is
    requested, no payout row is written and no commission is touched. *)
Theorem C7_below_threshold_is_skipped (user : User.t) (w : World) :
  hd false (faults w) = false ->
  (sum_pending (User.id user) w < 50)%Q ->
  let w' := snd (processUserPayout user w) in
  fst (processUserPayout user w) = Ok tt
  /\ transfers w' = transfers w
  /\ affiliate_payouts w' = affiliate_payouts w
  /\ affiliate_payouts_seq w' = affiliate_payouts_seq w
  /\ commissions w' = commissions w
  /\ commissions_seq w' = commissions_seq w
  /\ users w' = users w
  /\ console w' = console w ++ [PayoutProcessing (User.id user);
                                PayoutBelowThreshold (User.id user)
                                  (pending_total (User.id user) w)].
Proof.
  intros Hread Hlt w'. subst w'.
  rewrite processUserPayout_below_threshold.
  - simpl. repeat split.
  - exact Hread.
  - apply Qltb_lt. rewrite pending_total_sum. exact Hlt.
Qed.

Lemma C7_below_threshold_witness :
  fst (processUserPayout referrer_A short_world) = Ok tt
  /\ transfers (snd (processUserPayout referrer_A short_world)) = []
  /\ affiliate_payouts (snd (processUserPayout referrer_A short_world)) = [].
Proof.
  destruct (C7_below_threshold_is_skipped referrer_A short_world)
    as (Hr & Ht & Hp & _).
  - reflexivity.
  - reflexivity.
  - split; [exact Hr|]. split; [exact Ht|exact Hp].
Defined.

(** ** A failure after the payout row was written *)

Lemma next_rowid_after_insert (ids : list Z) (seq : Z) :
  next_rowid (ids ++ [next_rowid ids seq]) (next_rowid ids seq) = next_rowid ids seq + 1.
Proof.
  assert (H : forall n, (forall i, In i ids -> i < n) ->
                        fold_right Z.max n (ids ++ [n]) = n).
  { intros n. induction ids as [|x ids IH]; intros Hn; simpl; [lia|].
    rewrite IH by (intros i Hi; apply Hn; right; exact Hi).
    assert (x < n) by (apply Hn; left; reflexivity). lia. }
  unfold next_rowid at 1. rewrite H; [reflexivity|].
  intros i Hi. apply next_rowid_above. exact Hi.
Qed.

Ltac run_processor :=
  unfold processUserPayout, try_catch, bind, console_log, getTotalPendingCommissions,
    createPayout, updatePayoutStatus, updateCommissionsToPaid, stripe_transfers_create,
    sqlite_call, throw, transfer_request;
  cbn -[Qltb or_zero sql_sum pending_amounts next_rowid set_payout_status
        Math_round Qmult String.eqb mark_paid].

Lemma processUserPayout_commission_update_fails (user : User.t) (w : World) (ref : string) :
  Qltb (pending_total (User.id user) w) 50 = false ->
  stripe w (request_of w user) = Some ref ->
  faults w = [false; false; false; true] ->
  fst (processUserPayout user w) = Throw SqliteError
  /\ affiliate_payouts (snd (processUserPayout user w))
     = affiliate_payouts w ++ [paid_row w user ref; second_failed_row w user]
  /\ commissions (snd (processUserPayout user w)) = commissions w
  /\ transfers (snd (processUserPayout user w)) = transfers w ++ [request_of w user].
Proof.
  intros Hge Hstripe Hf.
  destruct w as [us cs cq ps pq co tr cl st fs].
  unfold paid_row, second_failed_row, new_payout_id, request_of, pending_total,
    transfer_request in *.
  simpl in Hge, Hstripe, Hf. subst fs.
  run_processor. rewrite Hge. run_processor. rewrite Hstripe. run_processor.
  split; [reflexivity|]. split; [|split; reflexivity].
  rewrite !update_after_insert.
  rewrite map_app. simpl map. rewrite next_rowid_after_insert.
  rewrite <- app_assoc. reflexivity.
Qed.

Lemma processUserPayout_status_update_fails (user : User.t) (w : World) (ref : string) :
  Qltb (pending_total (User.id user) w) 50 = false ->
  stripe w (request_of w user) = Some ref ->
  faults w = [false; false; true] ->
  fst (processUserPayout user w) = Throw SqliteError
  /\ affiliate_payouts (snd (processUserPayout user w))
     = affiliate_payouts w ++ [pending_row w user; second_failed_row w user]
  /\ commissions (snd (processUserPayout user w)) = commissions w
  /\ transfers (snd (processUserPayout user w)) = transfers w ++ [request_of w user].
Proof.
  intros Hge Hstripe Hf.
  destruct w as [us cs cq ps pq co tr cl st fs].
  unfold pending_row, second_failed_row, new_payout_id, request_of, pending_total,
    transfer_request in *.
  simpl in Hge, Hstripe, Hf. subst fs.
  run_processor. rewrite Hge. run_processor. rewrite Hstripe. run_processor.
  split; [reflexivity|]. split; [|split; reflexivity].
  rewrite !update_after_insert.
  rewrite map_app. simpl map. rewrite next_rowid_after_insert.
  rewrite <- app_assoc. reflexivity.
Qed.

(** C10: when a database call fails after the payout row was inserted (the
    status update, or the bulk update of the commissions after the row was
    marked paid), the catch handler inserts a second row, failed, for the
    same user; the first row stays as it was, the commissions stay as they
    were and the transfer has been sent.  One invocation leaves a paid and a
    failed row for one user. *)
Theorem C10_late_failure_adds_failed_row (user : User.t) (w : World) (ref : string) :
  (50 <= sum_pending (User.id user) w)%Q ->
  stripe w (request_of w user) = Some ref ->
  let w' := snd (processUserPayout user w) in
  (faults w = [false; false; false; true] ->
   fst (processUserPayout user w) = Throw SqliteError
   /\ affiliate_payouts w'
      = affiliate_payouts w ++ [paid_row w user ref; second_failed_row w user]
   /\ Payout.status (paid_row w user ref) = "paid"
   /\ Payout.status (second_failed_row w user) = "failed"
   /\ Payout.user_id (paid_row w user ref) = Payout.user_id (second_failed_row w user)
   /\ Payout.id (paid_row w user ref) <> Payout.id (second_failed_row w user)
   /\ commissions w' = commissions w
   /\ transfers w' = transfers w ++ [request_of w user])
  /\ (faults w = [false; false; true] ->
      fst (processUserPayout user w) = Throw SqliteError
      /\ affiliate_payouts w'
         = affiliate_payouts w ++ [pending_row w user; second_failed_row w user]
      /\ Payout.status (second_failed_row w user) = "failed"
      /\ Payout.id (pending_row w user) <> Payout.id (second_failed_row w user)
      /\ commissions w' = commissions w
      /\ transfers w' = transfers w ++ [request_of w user]).
Proof.
  intros Hle Hstripe w'.
  assert (Hge : Qltb (pending_total (User.id user) w) 50 = false).
  { apply Qltb_ge. rewrite pending_total_sum. exact Hle. }
  subst w'. split; intros Hf.
  - destruct (processUserPayout_commission_update_fails user w ref Hge Hstripe Hf)
      as (Hr & Hps & Hcs & Htr).
    split; [exact Hr|]. split; [exact Hps|]. simpl.
    repeat split; try assumption. lia.
  - destruct (processUserPayout_status_update_fails user w ref Hge Hstripe Hf)
      as (Hr & Hps & Hcs & Htr).
    split; [exact Hr|]. split; [exact Hps|]. simpl.
    repeat split; try assumption. lia.
Qed.

Lemma C10_late_failure_witness :
  exists first second,
    affiliate_payouts (snd (processUserPayout referrer_A late_failure_world))
    = [first; second]
    /\ Payout.status first = "paid"
    /\ Payout.status second = "failed"
    /\ commissions (snd (processUserPayout referrer_A late_failure_world))
       = commissions late_failure_world.
Proof.
  destruct (C10_late_failure_adds_failed_row referrer_A late_failure_world "tr_1")
    as [H _].
  - discriminate.
  - reflexivity.
  - destruct (H eq_refl) as (_ & Hps & Hs1 & Hs2 & _ & _ & Hcs & _).
    eexists _, _. split; [exact Hps|]. split; [exact Hs1|].
    split; [exact Hs2|exact Hcs].
Defined.

(** ** The console only grows *)

Lemma grows_ret {A} (a : A) : console_grows (ret a).
Proof. intros w. exists []. simpl. rewrite app_nil_r. reflexivity. Qed.

Lemma grows_throw {A} (e : Error) : console_grows (@throw A e).
Proof. intros w. exists []. simpl. rewrite app_nil_r. reflexivity. Qed.

Lemma grows_bind {A B} (m : M A) (k : A -> M B) :
  console_grows m -> (forall a, console_grows (k a)) -> console_grows (bind m k).
Proof.
  intros Hm Hk w. unfold bind. destruct (Hm w) as [l1 E1].
  destruct (m w) as [[a|e] w1]; simpl in *.
  - destruct (Hk a w1) as [l2 E2]. exists (l1 ++ l2).
    rewrite E2, E1, app_assoc. reflexivity.
  - exists l1. exact E1.
Qed.

Lemma grows_try_catch {A} (body : M A) (handler : Error -> M A) :
  console_grows body -> (forall e, console_grows (handler e)) ->
  console_grows (try_catch body handler).
Proof.
  intros Hm Hk w. unfold try_catch. destruct (Hm w) as [l1 E1].
  destruct (body w) as [[a|e] w1]; simpl in *.
  - exists l1. exact E1.
  - destruct (Hk e w1) as [l2 E2]. exists (l1 ++ l2).
    rewrite E2, E1, app_assoc. reflexivity.
Qed.

Lemma grows_console_log (e : Log) : console_grows (console_log e).
Proof. intros w. exists [e]. reflexivity. Qed.

Lemma grows_sqlite_call : console_grows sqlite_call.
Proof.
  intros w. exists []. rewrite app_nil_r.
  destruct (sqlite_call_result w) as [[fs E]|[fs E]]; rewrite E; reflexivity.
Qed.

(** A computation that leaves the console alone after a step that grows it. *)
Lemma grows_then_pure {A B} (m : M A) (f : A -> World -> Result B * World) :
  console_grows m ->
  (forall a w, console (snd (f a w)) = console w) ->
  console_grows (bind m f).
Proof.
  intros Hm Hf. apply grows_bind; [exact Hm|].
  intros a w. exists []. rewrite app_nil_r. apply Hf.
Qed.

Lemma grows_getTotalPendingCommissions u : console_grows (getTotalPendingCommissions u).
Proof.
  apply grows_then_pure; [apply grows_sqlite_call|]. reflexivity.
Qed.

Lemma grows_createPayout u a : console_grows (createPayout u a).
Proof.
  apply grows_then_pure; [apply grows_sqlite_call|]. reflexivity.
Qed.

Lemma grows_updatePayoutStatus i s r : console_grows (updatePayoutStatus i s r).
Proof.
  intros w. unfold updatePayoutStatus.
  match goal with
  | |- context [bind sqlite_call ?f] =>
      apply (grows_then_pure sqlite_call f grows_sqlite_call)
  end.
  reflexivity.
Qed.

Lemma grows_updateCommissionsToPaid u : console_grows (updateCommissionsToPaid u).
Proof.
  apply grows_then_pure; [apply grows_sqlite_call|]. reflexivity.
Qed.

Lemma grows_getEligibleUsers : console_grows getEligibleUsers.
Proof.
  apply grows_then_pure; [apply grows_sqlite_call|]. reflexivity.
Qed.

Lemma grows_stripe_transfers_create req : console_grows (stripe_transfers_create req).
Proof.
  intros w. exists []. rewrite app_nil_r. unfold stripe_transfers_create.
  destruct (stripe w req); reflexivity.
Qed.

Lemma grows_processUserPayout user : console_grows (processUserPayout user).
Proof.
  unfold processUserPayout. apply grows_try_catch.
  - apply grows_bind; [apply grows_console_log|]. intros _.
    apply grows_bind; [apply grows_getTotalPendingCommissions|]. intros total.
    destruct (Qltb total 50); [apply grows_console_log|].
    apply grows_bind.
    { intros w. apply grows_stripe_transfers_create. }
    intros payout.
    apply grows_bind; [apply grows_createPayout|]. intros payoutId.
    apply grows_bind; [apply grows_updatePayoutStatus|]. intros _.
    apply grows_bind; [apply grows_updateCommissionsToPaid|]. intros _.
    apply grows_console_log.
  - intros e.
    apply grows_bind; [apply grows_console_log|]. intros _.
    apply grows_bind; [apply grows_getTotalPendingCommissions|]. intros total.
    apply grows_bind; [apply grows_createPayout|]. intros payoutId.
    apply grows_bind; [apply grows_updatePayoutStatus|]. intros _.
    apply grows_throw.
Qed.

Lemma grows_payout_loop rows : console_grows (payout_loop rows).
Proof.
  induction rows as [|r rows IH]; simpl; [apply grows_ret|].
  apply grows_bind; [|intros _; exact IH].
  apply grows_try_catch; [apply grows_processUserPayout|].
  intros e. apply grows_console_log.
Qed.

Lemma grows_batch_body :
  console_grows
    (eligibleUsers <- getEligibleUsers ;;
     if (List.length eligibleUsers =? 0)%nat
     then console_log BatchNoEligible
     else
       console_log (BatchCount (List.length eligibleUsers)) ;;
       payout_loop eligibleUsers ;;
       console_log BatchCompleted).
Proof.
  apply grows_bind; [apply grows_getEligibleUsers|]. intros rows.
  destruct (List.length rows =? 0)%nat; [apply grows_console_log|].
  apply grows_bind; [apply grows_console_log|]. intros _.
  apply grows_bind; [apply grows_payout_loop|]. intros _.
  apply grows_console_log.
Qed.

(** The batch announces itself first. *)
Lemma processMonthlyPayouts_announces (w : World) :
  exists l, console (snd (processMonthlyPayouts w)) = console w ++ BatchProcessing :: l.
Proof.
  unfold processMonthlyPayouts.
  match goal with
  | |- context [try_catch (console_log BatchProcessing ;; ?body) ?h] =>
      assert (Hb : console_grows body) by apply grows_batch_body;
      assert (Hh : forall e, console_grows (h e))
        by (intros e; apply grows_bind; [apply grows_console_log|intros _; apply grows_throw]);
      destruct (grows_try_catch body h Hb Hh
                  (set_console (console w ++ [BatchProcessing]) w)) as [l E];
      exists l
  end.
  unfold try_catch in *. unfold bind at 1. unfold console_log at 1.
  unfold bind in *.
  simpl in E. rewrite <- app_assoc in E. simpl in E. exact E.
Qed.

(** ** The scheduler *)

Lemma logged_since_app (w w' : World) (l : list Log) :
  console w' = console w ++ l -> logged_since w w' = l.
Proof.
  intros E. unfold logged_since. rewrite E.
  rewrite skipn_app, skipn_all, Nat.sub_diag. reflexivity.
Qed.

Lemma daysInMonth_bounds (y m : Z) : 28 <= daysInMonth y m <= 31.
Proof.
  unfold daysInMonth.
  destruct (m =? 1); [destruct (isLeapYear y); lia|].
  destruct ((m =? 3) || (m =? 5) || (m =? 8) || (m =? 10)); lia.
Qed.

Lemma tomorrow_is_first_iff_last_day (t : DateTime) :
  1 <= getDate t <= daysInMonth (getFullYear t) (getMonth t) ->
  getDate (setDate t (getDate t + 1)) = 1
  <-> getDate t = daysInMonth (getFullYear t) (getMonth t).
Proof.
  intros Hd. unfold setDate.
  destruct (Z.leb_spec 1 (getDate t + 1)) as [_|H]; [|lia].
  destruct (Z.to_nat (getDate t + 1)) as [|[|k]] eqn:Ek; [lia|lia|].
  cbn [rollForward].
  destruct (Z.leb_spec (getDate t + 1) (daysInMonth (getFullYear t) (getMonth t)))
    as [Hle|Hgt].
  - simpl. lia.
  - assert (Hlast : getDate t = daysInMonth (getFullYear t) (getMonth t)) by lia.
    replace (getDate t + 1 - daysInMonth (getFullYear t) (getMonth t)) with 1 by lia.
    split; [intros _; exact Hlast|intros _].
    destruct (getMonth t =? 11).
    + pose proof (daysInMonth_bounds (getFullYear t + 1) 0) as Hb.
      destruct (Z.leb_spec 1 (daysInMonth (getFullYear t + 1) 0)); [reflexivity|lia].
    + pose proof (daysInMonth_bounds (getFullYear t) (getMonth t + 1)) as Hb.
      destruct (Z.leb_spec 1 (daysInMonth (getFullYear t) (getMonth t + 1)));
        [reflexivity|lia].
Qed.

Lemma monthlyPayoutJob_skips (w : World) :
  getDate (setDate (clock w) (getDate (clock w) + 1)) <> 1 ->
  monthlyPayoutJob w
  = (Ok tt, set_console (console w ++ [JobStarting; JobNotLastDay]) w).
Proof.
  intros H. apply Z.eqb_neq in H.
  unfold monthlyPayoutJob, try_catch, bind, console_log. simpl.
  rewrite H. simpl. rewrite <- app_assoc. reflexivity.
Qed.

Lemma monthlyPayoutJob_runs (w : World) :
  getDate (setDate (clock w) (getDate (clock w) + 1)) = 1 ->
  monthlyPayoutJob w
  = try_catch processMonthlyPayouts (fun error => console_log (JobFailed error))
              (set_console (console w ++ [JobStarting]) w).
Proof.
  intros H. apply Z.eqb_eq in H.
  unfold monthlyPayoutJob. unfold bind at 1. unfold console_log at 1.
  unfold try_catch at 1. cbn [clock set_console]. rewrite H. reflexivity.
Qed.

(** C8: a firing of the scheduled job runs the batch exactly when the day
    after today is day 1, which for a calendar date means today is the last
    day of its month; any other firing only prints two lines.  The manual
    trigger checks no date and runs the batch in every world. *)
Theorem C8_scheduler_runs_batch_on_last_day (w : World) :
  let today := clock w in
  let tomorrow := setDate today (getDate today + 1) in
  (In BatchProcessing (logged_since w (snd (monthlyPayoutJob w)))
   <-> getDate tomorrow = 1)
  /\ (getDate tomorrow <> 1 ->
      monthlyPayoutJob w
      = (Ok tt, set_console (console w ++ [JobStarting; JobNotLastDay]) w))
  /\ (getDate tomorrow = 1 ->
      monthlyPayoutJob w
      = try_catch processMonthlyPayouts (fun error => console_log (JobFailed error))
                  (set_console (console w ++ [JobStarting]) w))
  /\ (1 <= getDate today <= daysInMonth (getFullYear today) (getMonth today) ->
      (getDate tomorrow = 1
       <-> getDate today = daysInMonth (getFullYear today) (getMonth today)))
  /\ triggerManualPayout w
     = processMonthlyPayouts (set_console (console w ++ [ManualTrigger]) w)
  /\ In BatchProcessing (logged_since w (snd (triggerManualPayout w))).
Proof.
  intros today tomorrow. subst today tomorrow.
  split; [|split; [|split; [|split; [|split]]]].
  - destruct (Z.eq_dec (getDate (setDate (clock w) (getDate (clock w) + 1))) 1)
      as [E|E].
    + split; [intros _; exact E|intros _].
      rewrite (monthlyPayoutJob_runs w E).
      set (w1 := set_console (console w ++ [JobStarting]) w).
      destruct (processMonthlyPayouts_announces w1) as [l Hl].
      assert (Hgrow : exists l', console (snd (try_catch processMonthlyPayouts
                                     (fun error => console_log (JobFailed error)) w1))
                                 = console w1 ++ BatchProcessing :: l').
      { unfold try_catch. destruct (processMonthlyPayouts w1) as [[a|e] w2];
          simpl in *.
        - exists l. exact Hl.
        - exists (l ++ [JobFailed e]). rewrite Hl, <- app_assoc. reflexivity. }
      destruct Hgrow as [l' Hl'].
      rewrite (logged_since_app w _ (JobStarting :: BatchProcessing :: l')).
      * right. left. reflexivity.
      * rewrite Hl'. subst w1. simpl. rewrite <- app_assoc. reflexivity.
    + split; [|intros H; contradiction].
      rewrite (monthlyPayoutJob_skips w E). simpl.
      rewrite (logged_since_app w _ [JobStarting; JobNotLastDay]) by reflexivity.
      simpl. intros [H|[H|[]]]; discriminate.
  - apply monthlyPayoutJob_skips.
  - apply monthlyPayoutJob_runs.
  - apply tomorrow_is_first_iff_last_day.
  - reflexivity.
  - change (triggerManualPayout w)
      with (processMonthlyPayouts (set_console (console w ++ [ManualTrigger]) w)).
    destruct (processMonthlyPayouts_announces
                (set_console (console w ++ [ManualTrigger]) w)) as [l Hl].
    rewrite (logged_since_app w _ (ManualTrigger :: BatchProcessing :: l)).
    + right. left. reflexivity.
    + rewrite Hl. simpl. rewrite <- app_assoc. reflexivity.
Qed.

(** ** The batch loop *)

Lemma pending_amounts_of_owner (userId : Z) (cs : list Commission.t) :
  pending_amounts userId (filter (fun c => Commission.referrer_id c =? userId) cs)
  = pending_amounts userId cs.
Proof.
  unfold pending_amounts. f_equal.
  induction cs as [|c cs IH]; simpl; [reflexivity|].
  unfold is_pending_of at 2.
  destruct (Commission.referrer_id c =? userId) eqn:E; simpl.
  - unfold is_pending_of at 1. rewrite E. simpl.
    destruct (Commission.status c =? "pending")%string; rewrite IH; reflexivity.
  - exact IH.
Qed.

Lemma pending_total_of_owner (userId : Z) (w w' : World) :
  commissions_of userId w' = commissions_of userId w ->
  pending_total userId w' = pending_total userId w.
Proof.
  unfold commissions_of, pending_total. intros E.
  rewrite <- (pending_amounts_of_owner userId (commissions w')), E.
  rewrite pending_amounts_of_owner. reflexivity.
Qed.

Lemma sum_pending_of_owner (userId : Z) (w w' : World) :
  commissions_of userId w' = commissions_of userId w ->
  sum_pending userId w' = sum_pending userId w.
Proof.
  unfold commissions_of, sum_pending. intros E.
  rewrite <- (pending_amounts_of_owner userId (commissions w')), E.
  rewrite pending_amounts_of_owner. reflexivity.
Qed.

Lemma mark_paid_other_owner (userId other : Z) (now : DateTime) (cs : list Commission.t) :
  other <> userId ->
  filter (fun c => Commission.referrer_id c =? other) (map (mark_paid userId now) cs)
  = filter (fun c => Commission.referrer_id c =? other) cs.
Proof.
  intros Hne. induction cs as [|c cs IH]; simpl; [reflexivity|].
  rewrite IH. unfold mark_paid, is_pending_of.
  destruct (Z.eqb_spec (Commission.referrer_id c) userId) as [E|E]; simpl;
    [|reflexivity].
  destruct (Commission.status c =? "pending")%string; simpl; [|reflexivity].
  destruct (Z.eqb_spec (Commission.referrer_id c) other) as [E'|E'];
    [congruence|reflexivity].
Qed.

Lemma mark_paid_own_settled (userId : Z) (now : DateTime) (cs : list Commission.t) :
  Forall (fun c => Commission.status c <> "pending")
         (filter (fun c => Commission.referrer_id c =? userId)
                 (map (mark_paid userId now) cs)).
Proof.
  apply Forall_forall. intros c' Hin. apply filter_In in Hin.
  destruct Hin as [Hin Hr]. apply in_map_iff in Hin.
  destruct Hin as (c & <- & _). apply mark_paid_none_left.
  apply Z.eqb_eq. exact Hr.
Qed.

Lemma payout_turn_never_throws (user : EligibleRow) (w : World) :
  fst (payout_turn user w) = Ok tt.
Proof.
  unfold payout_turn, try_catch.
  destruct (processUserPayout (row_user user) w) as [[[]|e] w1]; reflexivity.
Qed.

Lemma payout_loop_never_throws (rows : list EligibleRow) (w : World) :
  fst (payout_loop rows w) = Ok tt.
Proof.
  revert w. induction rows as [|r rows IH]; intros w; simpl; [reflexivity|].
  unfold bind. fold (payout_turn r).
  pose proof (payout_turn_never_throws r w) as H.
  destruct (payout_turn r w) as [[[]|e] w1]; simpl in H; [apply IH|discriminate].
Qed.

Lemma processUserPayout_announces (user : User.t) (w : World) :
  exists l, console (snd (processUserPayout user w))
            = console w ++ PayoutProcessing (User.id user) :: l.
Proof.
  destruct (grows_processUserPayout user w) as [l E].
  assert (Hfirst : exists l', l = PayoutProcessing (User.id user) :: l').
  { revert E. unfold processUserPayout, try_catch.
    unfold bind at 1. unfold console_log at 1.
    match goal with
    | |- context [let (_, _) := ?body ?w1 in _] =>
        set (rest := body); set (w0 := w1)
    end.
    assert (Hrest : console_grows rest).
    { subst rest.
      apply grows_bind; [apply grows_getTotalPendingCommissions|]. intros total.
      destruct (Qltb total 50); [apply grows_console_log|].
      apply grows_bind.
      { intros w'. apply grows_stripe_transfers_create. }
      intros payout.
      apply grows_bind; [apply grows_createPayout|]. intros payoutId.
      apply grows_bind; [apply grows_updatePayoutStatus|]. intros _.
      apply grows_bind; [apply grows_updateCommissionsToPaid|]. intros _.
      apply grows_console_log. }
    destruct (Hrest w0) as [l1 E1].
    destruct (rest w0) as [[a|e] w1]; simpl in *; intros E.
    - exists l1. rewrite E1 in E. subst w0. simpl in E.
      rewrite <- app_assoc in E. apply app_inv_head in E. simpl in E.
      symmetry. exact E.
    - match type of E with
      | console (snd (?h w1)) = _ =>
          assert (Hh : console_grows h)
      end.
      { apply grows_bind; [apply grows_console_log|]. intros _.
        apply grows_bind; [apply grows_getTotalPendingCommissions|]. intros total.
        apply grows_bind; [apply grows_createPayout|]. intros payoutId.
        apply grows_bind; [apply grows_updatePayoutStatus|]. intros _.
        apply grows_throw. }
      destruct (Hh w1) as [l2 E2]. rewrite E2, E1 in E. subst w0. simpl in E.
      rewrite <- !app_assoc in E. apply app_inv_head in E. simpl in E.
      eexists. symmetry. exact E. }
  destruct Hfirst as [l' ->]. exists l'. exact E.
Qed.

Lemma payout_turn_healthy (r : EligibleRow) (w : World) :
  healthy w ->
  (50 <= sum_pending (row_id r) w)%Q ->
  exists w1 p lines,
    payout_turn r w = (Ok tt, w1)
    /\ healthy w1
    /\ clock w1 = clock w
    /\ stripe w1 = stripe w
    /\ affiliate_payouts w1 = affiliate_payouts w ++ [p]
    /\ console w1 = console w ++ lines
    /\ (forall other, other <> row_id r ->
          commissions_of other w1 = commissions_of other w)
    /\ turn_outcome w (row_user r) w1 [p] lines.
Proof.
  intros Hw Hle. unfold row_id in *.
  assert (Hge : Qltb (pending_total (User.id (row_user r)) w) 50 = false).
  { apply Qltb_ge. rewrite pending_total_sum. exact Hle. }
  unfold payout_turn, try_catch, turn_outcome.
  destruct (stripe w (request_of w (row_user r))) as [ref|] eqn:Hstripe.
  - destruct (processUserPayout_success (row_user r) w ref Hw Hge Hstripe)
      as (w1 & Hrun & Hw1 & _ & Hcs & _ & Hps & _ & _ & Hcl & Hst & Hco).
    rewrite Hrun. exists w1, (paid_row w (row_user r) ref). eexists.
    split; [reflexivity|]. split; [exact Hw1|]. split; [exact Hcl|].
    split; [exact Hst|]. split; [exact Hps|]. split; [exact Hco|]. split.
    + intros other Hne. unfold commissions_of. rewrite Hcs.
      apply mark_paid_other_owner. exact Hne.
    + split; [|split].
      * exists (paid_row w (row_user r) ref). simpl. auto.
      * unfold commissions_of. rewrite Hcs. apply mark_paid_own_settled.
      * right. left. reflexivity.
  - destruct (processUserPayout_transfer_fails (row_user r) w Hw Hge Hstripe)
      as (w1 & Hrun & Hw1 & _ & Hcs & _ & Hps & _ & _ & Hcl & Hst & Hco).
    rewrite Hrun. unfold console_log. simpl.
    exists (set_console (console w1 ++ [BatchUserFailed (User.id (row_user r)) StripeError]) w1),
      (failed_row w (row_user r)). eexists.
    split; [reflexivity|]. simpl. split; [exact Hw1|]. split; [exact Hcl|].
    split; [exact Hst|]. split; [exact Hps|]. split.
    { rewrite Hco, <- app_assoc. reflexivity. }
    split.
    + intros other _. unfold commissions_of. simpl. rewrite Hcs. reflexivity.
    + split; [|split].
      * exists (failed_row w (row_user r)). simpl. auto.
      * unfold commissions_of. simpl. rewrite Hcs. reflexivity.
      * apply in_or_app. right. left. reflexivity.
Qed.

Lemma turn_outcome_transport (w w1 wf : World) (user : User.t)
      (rows rows' : list Payout.t) (lines lines' : list Log) :
  stripe w1 = stripe w ->
  clock w1 = clock w ->
  commissions_of (User.id user) w1 = commissions_of (User.id user) w ->
  incl rows rows' ->
  incl lines lines' ->
  turn_outcome w1 user wf rows lines ->
  turn_outcome w user wf rows' lines'.
Proof.
  intros Hst Hcl Hcs Hrows Hlines. unfold turn_outcome, request_of.
  rewrite Hst, Hcl, (pending_total_of_owner _ _ _ Hcs), Hcs.
  destruct (stripe w _) as [ref|].
  - intros ((p & Hp & Hrest) & Hall & Hlog).
    split; [exists p; split; [apply Hrows; exact Hp|exact Hrest]|].
    split; [exact Hall|apply Hlines; exact Hlog].
  - intros ((p & Hp & Hrest) & Hsame & Hlog).
    split; [exists p; split; [apply Hrows; exact Hp|exact Hrest]|].
    split; [exact Hsame|apply Hlines; exact Hlog].
Qed.

Lemma payout_loop_healthy (rows : list EligibleRow) :
  forall w : World,
    healthy w ->
    NoDup (map row_id rows) ->
    (forall r, In r rows -> (50 <= sum_pending (row_id r) w)%Q) ->
    exists added lines,
      affiliate_payouts (snd (payout_loop rows w)) = affiliate_payouts w ++ added
      /\ console (snd (payout_loop rows w)) = console w ++ lines
      /\ healthy (snd (payout_loop rows w))
      /\ (forall other, ~ In other (map row_id rows) ->
            commissions_of other (snd (payout_loop rows w)) = commissions_of other w)
      /\ forall r, In r rows ->
           turn_outcome w (row_user r) (snd (payout_loop rows w)) added lines.
Proof.
  induction rows as [|r rows IH]; intros w Hw Hnd Hel.
  - exists [], []. simpl. rewrite !app_nil_r. repeat split; try assumption.
    intros r [].
  - inversion Hnd as [|x xs Hnotin Hnd']; subst.
    destruct (payout_turn_healthy r w Hw (Hel r (or_introl eq_refl)))
      as (w1 & p & lines1 & Hrun & Hw1 & Hcl & Hst & Hps & Hco & Hframe & Hout).
    assert (Hother : forall r', In r' rows -> row_id r' <> row_id r).
    { intros r' Hin E. apply Hnotin. rewrite <- E. apply in_map. exact Hin. }
    assert (Hel1 : forall r', In r' rows -> (50 <= sum_pending (row_id r') w1)%Q).
    { intros r' Hin.
      rewrite (sum_pending_of_owner _ _ _ (Hframe _ (Hother r' Hin))).
      apply Hel. right. exact Hin. }
    destruct (IH w1 Hw1 Hnd' Hel1) as (added & lines & Hps' & Hco' & Hwf & Hframe' & Hout').
    simpl payout_loop. unfold bind. fold (payout_turn r). rewrite Hrun.
    exists (p :: added), (lines1 ++ lines).
    split; [rewrite Hps', Hps, <- app_assoc; reflexivity|].
    split; [rewrite Hco', Hco, <- app_assoc; reflexivity|].
    split; [exact Hwf|]. split.
    + intros other Hnot. simpl in Hnot.
      rewrite Hframe' by tauto. apply Hframe. intros E. apply Hnot. left.
      symmetry. exact E.
    + intros r' [<-|Hin].
      * unfold turn_outcome in *.
        destruct (stripe w (request_of w (row_user r))) as [ref|].
        -- destruct Hout as ((q & Hq & Hrest) & Hall & Hlog).
           split; [exists q; split; [|exact Hrest]|].
           { destruct Hq as [<-|[]]. left. reflexivity. }
           split; [|apply in_or_app; left; exact Hlog].
           fold (row_id r). rewrite (Hframe' (row_id r) Hnotin). exact Hall.
        -- destruct Hout as ((q & Hq & Hrest) & Hsame & Hlog).
           split; [exists q; split; [|exact Hrest]|].
           { destruct Hq as [<-|[]]. left. reflexivity. }
           split; [|apply in_or_app; left; exact Hlog].
           fold (row_id r). rewrite (Hframe' (row_id r) Hnotin). exact Hsame.
      * apply (turn_outcome_transport w w1 _ _ added (p :: added) lines (lines1 ++ lines)
                 Hst Hcl (Hframe _ (Hother r' Hin))).
        -- intros q Hq. right. exact Hq.
        -- intros q Hq. apply in_or_app. right. exact Hq.
        -- apply Hout'. exact Hin.
Qed.

Lemma payout_turn_announces (r : EligibleRow) (w : World) :
  exists l, console (snd (payout_turn r w))
            = console w ++ PayoutProcessing (row_id r) :: l.
Proof.
  unfold payout_turn, try_catch, row_id.
  destruct (processUserPayout_announces (row_user r) w) as [l E].
  destruct (processUserPayout (row_user r) w) as [[a|e] w1]; simpl in *.
  - exists l. exact E.
  - exists (l ++ [BatchUserFailed (User.id (row_user r)) e]).
    rewrite E, <- app_assoc. reflexivity.
Qed.

Lemma payout_loop_cons (r : EligibleRow) (rest : list EligibleRow) (w : World) :
  payout_loop (r :: rest) w = payout_loop rest (snd (payout_turn r w)).
Proof.
  simpl. unfold bind. fold (payout_turn r).
  pose proof (payout_turn_never_throws r w) as H.
  destruct (payout_turn r w) as [[[]|e] w1]; simpl in *; [reflexivity|discriminate].
Qed.

Lemma payout_loop_processes_all (rows : list EligibleRow) :
  forall w : World,
    exists lines,
      console (snd (payout_loop rows w)) = console w ++ lines
      /\ forall r, In r rows -> In (PayoutProcessing (row_id r)) lines.
Proof.
  induction rows as [|r rows IH]; intros w.
  - exists []. simpl. rewrite app_nil_r. split; [reflexivity|intros r []].
  - rewrite payout_loop_cons.
    destruct (payout_turn_announces r w) as [l1 E1].
    destruct (IH (snd (payout_turn r w))) as (l2 & E2 & Hall).
    exists ((PayoutProcessing (row_id r) :: l1) ++ l2). split.
    + rewrite E2, E1, <- app_assoc. reflexivity.
    + intros r' [<-|Hin].
      * left. reflexivity.
      * apply in_or_app. right. apply Hall. exact Hin.
Qed.

Lemma payouts_since_app (w w' : World) (l : list Payout.t) :
  affiliate_payouts w' = affiliate_payouts w ++ l -> payouts_since w w' = l.
Proof.
  intros E. unfold payouts_since. rewrite E.
  rewrite skipn_app, skipn_all, Nat.sub_diag. reflexivity.
Qed.

(** ** Instances on concrete ledgers *)

Lemma C9_payout_invariant_witness :
  payouts_inv settled_world
  /\ payouts_inv (snd (createPayout 1 50 settled_world))
  /\ payouts_inv (snd (updatePayoutStatus 1 "failed" None settled_world)).
Proof.
  assert (H : payouts_inv settled_world).
  { unfold payouts_inv.
    let l := eval vm_compute in (affiliate_payouts settled_world) in
    change (Forall payout_inv l).
    constructor; [|constructor].
    split; intros _; [reflexivity|discriminate]. }
  split; [exact H|].
  destruct (C9_payout_paid_at_invariant settled_world H) as [Hc Hu].
  split; [exact (proj1 (Hc 1 50%Q))|exact (proj1 (Hu 1 "failed" None))].
Defined.

Lemma C3_eligibility_witness :
  In referrer_A (map row_user (eligible_rows paying_world))
  /\ ~ In purchaser_B (map row_user (eligible_rows paying_world))
  /\ ~ In referrer_A (map row_user (eligible_rows short_world)).
Proof.
  split; [|split].
  - apply (proj1 (proj2 (C3_eligibility_scan paying_world referrer_A))).
    split; [left; reflexivity|]. split; [discriminate|reflexivity].
  - intros H.
    apply (proj1 (proj1 (C3_eligibility_scan paying_world purchaser_B))) in H.
    destruct H as (_ & Hacc & _). apply Hacc. reflexivity.
  - intros H.
    apply (proj1 (proj1 (C3_eligibility_scan short_world referrer_A))) in H.
    destruct H as (_ & _ & Hle). vm_compute in Hle. apply Hle. reflexivity.
Defined.

Lemma C8_scheduler_witness :
  In BatchProcessing (logged_since paying_world (snd (monthlyPayoutJob paying_world)))
  /\ ~ In BatchProcessing
         (logged_since two_user_world (snd (monthlyPayoutJob two_user_world)))
  /\ In BatchProcessing
        (logged_since two_user_world (snd (triggerManualPayout two_user_world))).
Proof.
  split; [|split].
  - apply (proj1 (C8_scheduler_runs_batch_on_last_day paying_world)). reflexivity.
  - intros H.
    apply (proj1 (C8_scheduler_runs_batch_on_last_day two_user_world)) in H.
    discriminate H.
  - apply (proj2 (proj2 (proj2 (proj2 (proj2
             (C8_scheduler_runs_batch_on_last_day two_user_world)))))).
Defined.

(** ** The batch as a whole *)

Lemma insert_desc_perm (r : EligibleRow) (l : list EligibleRow) :
  Permutation (insert_desc r l) (r :: l).
Proof.
  induction l as [|x l IH]; simpl; [apply Permutation_refl|].
  destruct (Qle_bool (total_pending x) (total_pending r)).
  - apply Permutation_refl.
  - eapply Permutation_trans; [apply perm_skip; exact IH|apply perm_swap].
Qed.

Lemma order_desc_perm (l : list EligibleRow) : Permutation (order_desc l) l.
Proof.
  induction l as [|x l IH]; simpl; [apply perm_nil|].
  eapply Permutation_trans; [apply insert_desc_perm|apply perm_skip; exact IH].
Qed.

(** A WHERE or HAVING clause keeps the keys of the rows distinct. *)
Lemma filter_keeps_keys_distinct {Row : Type} (key : Row -> Z) (keep : Row -> bool) :
  forall table : list Row,
    NoDup (map key table) -> NoDup (map key (filter keep table)).
Proof.
  intros table. induction table as [|row table IH]; simpl; intros Hkeys.
  - constructor.
  - inversion Hkeys as [|k ks Hfresh Hrest]; subst.
    destruct (keep row); simpl; [|apply IH; exact Hrest].
    constructor; [|apply IH; exact Hrest].
    intros Hin. apply Hfresh. apply in_map_iff in Hin.
    destruct Hin as (other & Hkey & Hother). apply filter_In in Hother.
    apply in_map_iff. exists other. tauto.
Qed.

Lemma eligible_rows_distinct (w : World) :
  NoDup (map User.id (users w)) -> NoDup (map row_id (eligible_rows w)).
Proof.
  intros H. unfold eligible_rows.
  eapply Permutation_NoDup.
  - apply Permutation_map. apply Permutation_sym. apply order_desc_perm.
  - apply filter_keeps_keys_distinct. unfold grouped. rewrite map_map. simpl.
    apply filter_keeps_keys_distinct. exact H.
Qed.

Lemma eligible_rows_sum (w : World) (r : EligibleRow) :
  In r (eligible_rows w) -> (50 <= sum_pending (row_id r) w)%Q.
Proof.
  intros H. apply (eligible_iff w (row_user r)).
  apply in_map. exact H.
Qed.

Lemma processMonthlyPayouts_runs_loop (w : World) :
  hd false (faults w) = false ->
  eligible_rows w <> [] ->
  processMonthlyPayouts w
  = (Ok tt,
     set_console (console (snd (payout_loop (eligible_rows w) (batch_start w)))
                  ++ [BatchCompleted])
                 (snd (payout_loop (eligible_rows w) (batch_start w)))).
Proof.
  intros Hscan Hrows.
  unfold processMonthlyPayouts, try_catch.
  unfold bind at 1. unfold console_log at 1.
  unfold bind at 1. unfold getEligibleUsers at 1. unfold bind at 1.
  rewrite sqlite_call_first_ok by exact Hscan.
  cbn [faults set_console].
  change (eligible_rows (set_faults (tl (faults w))
                           (set_console (console w ++ [BatchProcessing]) w)))
    with (eligible_rows w).
  assert (Hlen : (List.length (eligible_rows w) =? 0)%nat = false).
  { destruct (eligible_rows w); [contradiction|reflexivity]. }
  rewrite Hlen.
  unfold bind at 1. unfold console_log at 1.
  cbn [console set_faults set_console].
  rewrite <- app_assoc. cbn [app].
  change (set_console
            (console w ++ [BatchProcessing; BatchCount (List.length (eligible_rows w))])
            (set_faults (tl (faults w))
               (set_console (console w ++ [BatchProcessing]) w)))
    with (batch_start w).
  unfold bind at 1.
  pose proof (payout_loop_never_throws (eligible_rows w) (batch_start w)) as Hok.
  destruct (payout_loop (eligible_rows w) (batch_start w)) as [[[]|e] wl];
    simpl in Hok; [|discriminate].
  reflexivity.
Qed.

Lemma healthy_first_ok (w : World) : healthy w -> hd false (faults w) = false.
Proof.
  unfold healthy. intros H. destruct (faults w) as [|b fs]; [reflexivity|].
  inversion H; subst. reflexivity.
Qed.

Lemma healthy_batch_start (w : World) : healthy w -> healthy (batch_start w).
Proof.
  unfold healthy. simpl. intros H.
  destruct (faults w) as [|b fs]; [constructor|].
  inversion H; subst. assumption.
Qed.

Lemma processMonthlyPayouts_outcomes (w : World) :
  healthy w ->
  NoDup (map User.id (users w)) ->
  forall r, In r (eligible_rows w) ->
    processMonthlyPayouts w = (Ok tt, snd (processMonthlyPayouts w))
    /\ turn_outcome w (row_user r) (snd (processMonthlyPayouts w))
         (payouts_since w (snd (processMonthlyPayouts w)))
         (logged_since w (snd (processMonthlyPayouts w))).
Proof.
  intros Hw Hnd r Hin.
  assert (Hrows : eligible_rows w <> []).
  { intros E. rewrite E in Hin. exact Hin. }
  rewrite (processMonthlyPayouts_runs_loop w (healthy_first_ok w Hw) Hrows).
  split; [reflexivity|]. cbn [snd].
  destruct (payout_loop_healthy (eligible_rows w) (batch_start w)
              (healthy_batch_start w Hw) (eligible_rows_distinct w Hnd))
    as (added & lines & Hps & Hco & _ & _ & Hout).
  { intros r' Hin'. apply (eligible_rows_sum w r' Hin'). }
  set (wl := snd (payout_loop (eligible_rows w) (batch_start w))) in *.
  rewrite (payouts_since_app w _ added) by exact Hps.
  rewrite (logged_since_app w _
             ([BatchProcessing; BatchCount (List.length (eligible_rows w))]
              ++ lines ++ [BatchCompleted])).
  - assert (Hgoal : turn_outcome w (row_user r) wl added
                      ([BatchProcessing; BatchCount (List.length (eligible_rows w))]
                       ++ lines ++ [BatchCompleted])).
    { apply (turn_outcome_transport w (batch_start w) wl (row_user r)
               added added lines); try reflexivity.
      - intros p Hp. exact Hp.
      - intros l Hl. apply in_or_app. right. apply in_or_app. left. exact Hl.
      - apply Hout. exact Hin. }
    exact Hgoal.
  - cbn [console set_console]. rewrite Hco. cbn [console batch_start set_console].
    rewrite <- !app_assoc. reflexivity.
Qed.

(** C6: the loop of the batch never lets an exception out; after any turn,
    failed or not, it goes on with the rest of the list; a payout that
    throws is caught and reported on the console in its own turn; every
    user of the list is taken up.  With a working database, every user of a
    list of distinct eligible users ends with its own outcome, whatever
    happened to the others: a paid row and settled commissions where the
    transfer was accepted, a failed row and untouched commissions where it
    was refused.  The same holds of processMonthlyPayouts over the users its
    own scan returns, and it returns normally. *)
Theorem C6_batch_isolates_user_failures (rows : list EligibleRow) (w : World) :
  let wf := snd (payout_loop rows w) in
  let wb := snd (processMonthlyPayouts w) in
  fst (payout_loop rows w) = Ok tt
  /\ (forall r rest, rows = r :: rest ->
        payout_loop rows w = payout_loop rest (snd (payout_turn r w))
        /\ fst (payout_turn r w) = Ok tt
        /\ forall e w1, processUserPayout (row_user r) w = (Throw e, w1) ->
             snd (payout_turn r w)
             = set_console (console w1 ++ [BatchUserFailed (row_id r) e]) w1)
  /\ (forall r, In r rows -> In (PayoutProcessing (row_id r)) (logged_since w wf))
  /\ (healthy w ->
      NoDup (map row_id rows) ->
      (forall r, In r rows -> (50 <= sum_pending (row_id r) w)%Q) ->
      forall r, In r rows ->
        turn_outcome w (row_user r) wf (payouts_since w wf) (logged_since w wf))
  /\ (healthy w ->
      NoDup (map User.id (users w)) ->
      forall r, In r (eligible_rows w) ->
        fst (processMonthlyPayouts w) = Ok tt
        /\ turn_outcome w (row_user r) wb (payouts_since w wb) (logged_since w wb)).
Proof.
  intros wf wb. subst wf wb.
  split; [apply payout_loop_never_throws|]. split; [|split; [|split]].
  - intros r rest ->. split; [apply payout_loop_cons|].
    split; [apply payout_turn_never_throws|].
    intros e w1 Hrun. unfold payout_turn, try_catch. rewrite Hrun. reflexivity.
  - intros r Hin. destruct (payout_loop_processes_all rows w) as (lines & E & Hall).
    rewrite (logged_since_app w _ lines E). apply Hall. exact Hin.
  - intros Hw Hnd Hel r Hin.
    destruct (payout_loop_healthy rows w Hw Hnd Hel)
      as (added & lines & Hps & Hco & _ & _ & Hout).
    rewrite (payouts_since_app w _ added Hps), (logged_since_app w _ lines Hco).
    apply Hout. exact Hin.
  - intros Hw Hnd r Hin.
    destruct (processMonthlyPayouts_outcomes w Hw Hnd r Hin) as [Hrun Hout].
    split; [rewrite Hrun; reflexivity|exact Hout].
Qed.

Lemma C6_three_affiliates_witness :
  let w := three_affiliates_world in
  let wb := snd (processMonthlyPayouts w) in
  map row_id (eligible_rows w) = [1; 2; 3]
  /\ fst (processMonthlyPayouts w) = Ok tt
  /\ map (fun p => (Payout.user_id p, Payout.status p)) (affiliate_payouts wb)
     = [(1, "paid"); (2, "failed"); (3, "paid")]
  /\ (forall r, In r (eligible_rows w) ->
        turn_outcome w (row_user r) wb (payouts_since w wb) (logged_since w wb)).
Proof.
  intros w wb.
  destruct (C6_batch_isolates_user_failures (eligible_rows w) w)
    as (_ & _ & _ & _ & Hbatch).
  assert (Hw : healthy w) by constructor.
  assert (Hnd : NoDup (map User.id (users w))).
  { vm_compute. repeat constructor; simpl; intuition discriminate. }
  split; [reflexivity|]. split; [reflexivity|]. split; [reflexivity|].
  intros r Hin. exact (proj2 (Hbatch Hw Hnd r Hin)).
Defined.

(** * Further properties of the ledger code *)

(** ** Stepping through a try block *)

Lemma try_catch_bind_ok {A B} (m : M A) (k : A -> M B) (h : Error -> M B)
      (w w1 : World) (a : A) :
  m w = (Ok a, w1) -> try_catch (bind m k) h w = try_catch (k a) h w1.
Proof. intros E. unfold try_catch, bind. rewrite E. reflexivity. Qed.

Lemma try_catch_bind_throw {A B} (m : M A) (k : A -> M B) (h : Error -> M B)
      (w w1 : World) (e : Error) :
  m w = (Throw e, w1) -> try_catch (bind m k) h w = h e w1.
Proof. intros E. unfold try_catch, bind. rewrite E. reflexivity. Qed.

(** ** Relations every step of a computation keeps *)

Section Keeps.
Variable R : World -> World -> Prop.
Hypothesis R_refl : forall w, R w w.
Hypothesis R_trans : forall a b c, R a b -> R b c -> R a c.

Lemma keeps_ret {A} (a : A) : keeps R (ret a).
Proof. intros w. apply R_refl. Qed.

Lemma keeps_throw {A} (e : Error) : keeps R (@throw A e).
Proof. intros w. apply R_refl. Qed.

Lemma keeps_bind {A B} (m : M A) (k : A -> M B) :
  keeps R m -> (forall a, keeps R (k a)) -> keeps R (bind m k).
Proof.
  intros Hm Hk w. unfold bind. specialize (Hm w).
  destruct (m w) as [[a|e] w1]; simpl in *; [|exact Hm].
  eapply R_trans; [exact Hm|apply Hk].
Qed.

Lemma keeps_try_catch {A} (body : M A) (handler : Error -> M A) :
  keeps R body -> (forall e, keeps R (handler e)) -> keeps R (try_catch body handler).
Proof.
  intros Hm Hk w. unfold try_catch. specialize (Hm w).
  destruct (body w) as [[a|e] w1]; simpl in *; [exact Hm|].
  eapply R_trans; [exact Hm|apply Hk].
Qed.

Hypothesis R_console : forall l w, R w (set_console l w).
Hypothesis R_faults : forall l w, R w (set_faults l w).

Lemma keeps_console_log (e : Log) : keeps R (console_log e).
Proof. intros w. apply R_console. Qed.

Lemma keeps_sqlite_call : keeps R sqlite_call.
Proof.
  intros w. destruct (sqlite_call_result w) as [[fs E]|[fs E]]; rewrite E;
    apply R_faults.
Qed.

(** A query: the call, then a result read off the tables. *)
Lemma keeps_query {A} (read : World -> A) :
  keeps R (sqlite_call ;; fun w => (Ok (read w), w)).
Proof.
  apply keeps_bind; [apply keeps_sqlite_call|]. intros _ w. apply R_refl.
Qed.

Lemma keeps_getTotalPendingCommissions u : keeps R (getTotalPendingCommissions u).
Proof. apply (keeps_query (fun w => or_zero (sql_sum (pending_amounts u (commissions w))))). Qed.

Lemma keeps_getUserById u : keeps R (getUserById u).
Proof. apply (keeps_query (fun w => find (fun x => User.id x =? u) (users w))). Qed.

Lemma keeps_getEligibleUsers : keeps R getEligibleUsers.
Proof. apply (keeps_query eligible_rows). Qed.

Hypothesis R_createPayout : forall u a w,
    R w (set_payouts (affiliate_payouts w
                      ++ [Payout.mk (new_payout_id w) u a None "pending" (clock w) None])
                     (new_payout_id w) w).
Hypothesis R_updatePayoutStatus : forall i s r now w,
    R w (set_payouts (map (set_payout_status i s r
                             (if (s =? "paid")%string then Some now else None))
                          (affiliate_payouts w))
                     (affiliate_payouts_seq w) w).
Hypothesis R_updateCommissionsToPaid : forall u now w,
    R w (set_commissions (map (mark_paid u now) (commissions w)) (commissions_seq w) w).
Hypothesis R_transfer : forall req w,
    R w (set_transfers (transfers w ++ [req]) w).

Lemma keeps_createPayout u a : keeps R (createPayout u a).
Proof.
  apply keeps_bind; [apply keeps_sqlite_call|]. intros _ w. apply R_createPayout.
Qed.

Lemma keeps_updatePayoutStatus i s r : keeps R (updatePayoutStatus i s r).
Proof.
  intros w. unfold updatePayoutStatus, bind.
  destruct (sqlite_call_result w) as [[fs E]|[fs E]]; rewrite E; simpl.
  - eapply R_trans; [apply (R_faults fs w)|].
    apply (R_updatePayoutStatus i s r (clock w) (set_faults fs w)).
  - apply R_faults.
Qed.

Lemma keeps_updateCommissionsToPaid u : keeps R (updateCommissionsToPaid u).
Proof.
  apply keeps_bind; [apply keeps_sqlite_call|]. intros _ w.
  apply R_updateCommissionsToPaid.
Qed.

Lemma keeps_stripe_transfers_create req : keeps R (stripe_transfers_create req).
Proof.
  intros w. unfold stripe_transfers_create.
  destruct (stripe w req); apply R_transfer.
Qed.

Lemma keeps_payout_handler (user : User.t) (error : Error) :
  keeps R (console_log (PayoutFailed (User.id user) error) ;;
           totalPending <- getTotalPendingCommissions (User.id user) ;;
           payoutId <- createPayout (User.id user) totalPending ;;
           updatePayoutStatus payoutId "failed" None ;;
           @throw unit error).
Proof.
  apply keeps_bind; [apply keeps_console_log|]. intros _.
  apply keeps_bind; [apply keeps_getTotalPendingCommissions|]. intros total.
  apply keeps_bind; [apply keeps_createPayout|]. intros payoutId.
  apply keeps_bind; [apply keeps_updatePayoutStatus|]. intros _.
  apply keeps_throw.
Qed.

Lemma keeps_payout_writes (user : User.t) (totalPending : Q) (payout : string) :
  keeps R (payoutId <- createPayout (User.id user) totalPending ;;
           updatePayoutStatus payoutId "paid" (Some payout) ;;
           updateCommissionsToPaid (User.id user) ;;
           console_log (PayoutProcessed (User.id user) totalPending payout)).
Proof.
  apply keeps_bind; [apply keeps_createPayout|]. intros payoutId.
  apply keeps_bind; [apply keeps_updatePayoutStatus|]. intros _.
  apply keeps_bind; [apply keeps_updateCommissionsToPaid|]. intros _.
  apply keeps_console_log.
Qed.

Lemma keeps_processUserPayout (user : User.t) : keeps R (processUserPayout user).
Proof.
  unfold processUserPayout. apply keeps_try_catch.
  - apply keeps_bind; [apply keeps_console_log|]. intros _.
    apply keeps_bind; [apply keeps_getTotalPendingCommissions|]. intros total.
    destruct (Qltb total 50); [apply keeps_console_log|].
    apply keeps_bind.
    { intros w. apply keeps_stripe_transfers_create. }
    intros payout. apply keeps_payout_writes.
  - intros e. apply keeps_payout_handler.
Qed.

Lemma keeps_payout_turn (r : EligibleRow) : keeps R (payout_turn r).
Proof.
  apply keeps_try_catch; [apply keeps_processUserPayout|].
  intros e. apply keeps_console_log.
Qed.

Lemma keeps_payout_loop (rows : list EligibleRow) : keeps R (payout_loop rows).
Proof.
  induction rows as [|r rows IH]; simpl; [apply keeps_ret|].
  apply keeps_bind; [apply keeps_payout_turn|]. intros _. exact IH.
Qed.

Lemma keeps_processMonthlyPayouts : keeps R processMonthlyPayouts.
Proof.
  unfold processMonthlyPayouts. apply keeps_try_catch.
  - apply keeps_bind; [apply keeps_console_log|]. intros _.
    apply keeps_bind; [apply keeps_getEligibleUsers|]. intros rows.
    destruct (List.length rows =? 0)%nat; [apply keeps_console_log|].
    apply keeps_bind; [apply keeps_console_log|]. intros _.
    apply keeps_bind; [apply keeps_payout_loop|]. intros _.
    apply keeps_console_log.
  - intros e. apply keeps_bind; [apply keeps_console_log|]. intros _.
    apply keeps_throw.
Qed.

Lemma keeps_monthlyPayoutJob : keeps R monthlyPayoutJob.
Proof.
  unfold monthlyPayoutJob.
  apply keeps_bind; [apply keeps_console_log|]. intros _.
  apply keeps_try_catch; [|intros e; apply keeps_console_log].
  intros w.
  destruct (negb (getDate (setDate (clock w) (getDate (clock w) + 1)) =? 1)).
  - apply keeps_console_log.
  - apply keeps_processMonthlyPayouts.
Qed.

Lemma keeps_triggerManualPayout : keeps R triggerManualPayout.
Proof.
  unfold triggerManualPayout.
  apply keeps_bind; [apply keeps_console_log|]. intros _.
  apply keeps_processMonthlyPayouts.
Qed.

Hypothesis R_createCommission : forall a b c d e w,
    R w (set_commissions (commissions w ++ [new_commission w a b c d e])
                         (next_rowid (map Commission.id (commissions w)) (commissions_seq w))
                         w).

Lemma keeps_createCommission a b c d e : keeps R (createCommission a b c d e).
Proof.
  apply keeps_bind; [apply keeps_sqlite_call|]. intros _ w.
  apply R_createCommission.
Qed.

Lemma keeps_processAffiliateCommission session :
  keeps R (processAffiliateCommission session).
Proof.
  unfold processAffiliateCommission.
  apply keeps_try_catch; [|intros e; apply keeps_console_log].
  destruct (or_else _ _) as [userId|]; [|apply keeps_console_log].
  apply keeps_bind; [apply keeps_getUserById|]. intros user.
  destruct (referrer_of user); [|apply keeps_console_log].
  apply keeps_bind; [apply keeps_createCommission|]. intros _.
  apply keeps_console_log.
Qed.

Lemma keeps_processSubscriptionCommission invoice :
  keeps R (processSubscriptionCommission invoice).
Proof.
  unfold processSubscriptionCommission.
  apply keeps_try_catch; [|intros e; apply keeps_console_log].
  destruct (or_else _ _) as [userId|]; [|apply keeps_console_log].
  apply keeps_bind; [apply keeps_getUserById|]. intros user.
  destruct user as [u|]; [|apply keeps_console_log].
  destruct (referrer_of (Some u)); [|apply keeps_console_log].
  destruct (3 <=? monthsDiff (User.created_at u) (invoice_created invoice));
    [apply keeps_console_log|].
  apply keeps_bind; [apply keeps_createCommission|]. intros _.
  apply keeps_console_log.
Qed.
End Keeps.

(** ** The two table invariants *)

Lemma mark_paid_inv (userId : Z) (now : DateTime) (c : Commission.t) :
  commission_inv c -> commission_inv (mark_paid userId now c).
Proof.
  intros Hc. unfold mark_paid. destruct (is_pending_of userId c); [|exact Hc].
  unfold commission_inv; simpl. split; intros _; [reflexivity|discriminate].
Qed.

Lemma set_commission_status_inv commissionId status now (c : Commission.t) :
  commission_inv c ->
  commission_inv (set_commission_status commissionId status
                    (if (status =? "paid")%string then Some now else None) c).
Proof.
  intros Hc. unfold set_commission_status.
  destruct (Commission.id c =? commissionId); [|exact Hc].
  unfold commission_inv; simpl.
  destruct (String.eqb_spec status "paid") as [->|Hne]; split; intro H;
    try reflexivity; try discriminate; try congruence.
Qed.

Lemma new_commission_inv w a b c d e : commission_inv (new_commission w a b c d e).
Proof.
  unfold commission_inv, new_commission; simpl.
  split; intro H; [congruence|discriminate].
Qed.

(** X1: the three writers of the commissions table keep "paid_at is set
    exactly when the status is paid", whether the sqlite call succeeds or
    not: the insert of createCommission, the single-row update of
    updateCommissionStatus for any status text, and the bulk update of
    updateCommissionsToPaid. *)
Theorem X1_commission_writers_keep_paid_at_invariant (w : World) :
  commissions_inv w ->
  (forall referrerId referredUserId purchaseAmount commissionAmount paymentIntentId,
      commissions_inv (snd (createCommission referrerId referredUserId purchaseAmount
                              commissionAmount paymentIntentId w)))
  /\ (forall commissionId status payoutId,
        commissions_inv (snd (updateCommissionStatus commissionId status payoutId w)))
  /\ (forall userId, commissions_inv (snd (updateCommissionsToPaid userId w))).
Proof.
  intros Hinv. unfold commissions_inv in *. split; [|split].
  - intros a b c d e. unfold createCommission, bind.
    destruct (sqlite_call_result w) as [[fs E]|[fs E]]; rewrite E; simpl;
      [|exact Hinv].
    apply Forall_app. split; [exact Hinv|].
    constructor; [apply (new_commission_inv (set_faults fs w))|constructor].
  - intros i s p. unfold updateCommissionStatus, bind.
    destruct (sqlite_call_result w) as [[fs E]|[fs E]]; rewrite E; simpl;
      [|exact Hinv].
    rewrite Forall_map. eapply Forall_impl; [|exact Hinv].
    intros c Hc. apply set_commission_status_inv. exact Hc.
  - intros u. unfold updateCommissionsToPaid, bind.
    destruct (sqlite_call_result w) as [[fs E]|[fs E]]; rewrite E; simpl;
      [|exact Hinv].
    rewrite Forall_map. eapply Forall_impl; [|exact Hinv].
    intros c Hc. apply mark_paid_inv. exact Hc.
Qed.

Lemma X1_commission_writers_witness :
  commissions_inv paying_world
  /\ commissions_inv (snd (updateCommissionStatus 1 "paid" None paying_world))
  /\ commissions_inv (snd (updateCommissionsToPaid 1 paying_world)).
Proof.
  assert (H : commissions_inv paying_world).
  { repeat constructor; simpl; intros; congruence. }
  split; [exact H|].
  destruct (X1_commission_writers_keep_paid_at_invariant paying_world H)
    as (_ & Hu & Hb).
  split; [apply Hu|apply Hb].
Defined.

Lemma inv_step_createPayout u a w :
  inv_step w (set_payouts (affiliate_payouts w
                           ++ [Payout.mk (new_payout_id w) u a None "pending" (clock w) None])
                          (new_payout_id w) w).
Proof.
  intros [Hc Hp]. split; [exact Hc|]. unfold payouts_inv in *; simpl.
  apply Forall_app. split; [exact Hp|]. constructor; [|constructor].
  unfold payout_inv; simpl. split; intro H; [congruence|discriminate].
Qed.

Lemma inv_step_updatePayoutStatus i s r now w :
  inv_step w (set_payouts (map (set_payout_status i s r
                                  (if (s =? "paid")%string then Some now else None))
                               (affiliate_payouts w))
                          (affiliate_payouts_seq w) w).
Proof.
  intros [Hc Hp]. split; [exact Hc|]. unfold payouts_inv in *; simpl.
  rewrite Forall_map. eapply Forall_impl; [|exact Hp].
  intros p Hpi. apply set_payout_status_inv. exact Hpi.
Qed.

Lemma inv_step_updateCommissionsToPaid u now w :
  inv_step w (set_commissions (map (mark_paid u now) (commissions w)) (commissions_seq w) w).
Proof.
  intros [Hc Hp]. split; [|exact Hp]. unfold commissions_inv in *; simpl.
  rewrite Forall_map. eapply Forall_impl; [|exact Hc].
  intros c Hci. apply mark_paid_inv. exact Hci.
Qed.

Lemma inv_step_createCommission a b c d e w :
  inv_step w (set_commissions (commissions w ++ [new_commission w a b c d e])
                (next_rowid (map Commission.id (commissions w)) (commissions_seq w)) w).
Proof.
  intros [Hc Hp]. split; [|exact Hp]. unfold commissions_inv in *; simpl.
  apply Forall_app. split; [exact Hc|].
  constructor; [apply new_commission_inv|constructor].
Qed.

Lemma inv_step_refl w : inv_step w w.
Proof. intros H. exact H. Qed.

Lemma inv_step_trans a b c : inv_step a b -> inv_step b c -> inv_step a c.
Proof. intros H1 H2 H. apply H2, H1, H. Qed.

Lemma inv_step_console l w : inv_step w (set_console l w).
Proof. intros H. exact H. Qed.

Lemma inv_step_faults l w : inv_step w (set_faults l w).
Proof. intros H. exact H. Qed.

Lemma inv_step_transfer req w : inv_step w (set_transfers (transfers w ++ [req]) w).
Proof. intros H. exact H. Qed.

(** X2: every entry point of the ledger keeps both table invariants (a
    commission or payout row has a paid_at exactly when its status is
    paid), in every world: whichever sqlite calls fail, whatever the payment
    rail answers and wherever the run stops. *)
Theorem X2_entry_points_keep_ledger_invariants (w : World) :
  ledger_inv w ->
  (forall user, ledger_inv (snd (processUserPayout user w)))
  /\ ledger_inv (snd (processMonthlyPayouts w))
  /\ ledger_inv (snd (monthlyPayoutJob w))
  /\ ledger_inv (snd (triggerManualPayout w))
  /\ (forall session, ledger_inv (snd (processAffiliateCommission session w)))
  /\ (forall invoice, ledger_inv (snd (processSubscriptionCommission invoice w))).
Proof.
  intros Hinv.
  split; [|split; [|split; [|split; [|split]]]].
  - intros user.
    apply (keeps_processUserPayout inv_step inv_step_refl inv_step_trans
             inv_step_console inv_step_faults inv_step_createPayout
             inv_step_updatePayoutStatus inv_step_updateCommissionsToPaid
             inv_step_transfer user w Hinv).
  - apply (keeps_processMonthlyPayouts inv_step inv_step_refl inv_step_trans
             inv_step_console inv_step_faults inv_step_createPayout
             inv_step_updatePayoutStatus inv_step_updateCommissionsToPaid
             inv_step_transfer w Hinv).
  - apply (keeps_monthlyPayoutJob inv_step inv_step_refl inv_step_trans
             inv_step_console inv_step_faults inv_step_createPayout
             inv_step_updatePayoutStatus inv_step_updateCommissionsToPaid
             inv_step_transfer w Hinv).
  - apply (keeps_triggerManualPayout inv_step inv_step_refl inv_step_trans
             inv_step_console inv_step_faults inv_step_createPayout
             inv_step_updatePayoutStatus inv_step_updateCommissionsToPaid
             inv_step_transfer w Hinv).
  - intros session.
    apply (keeps_processAffiliateCommission inv_step inv_step_refl inv_step_trans
             inv_step_console inv_step_faults inv_step_createCommission session w Hinv).
  - intros invoice.
    apply (keeps_processSubscriptionCommission inv_step inv_step_refl inv_step_trans
             inv_step_console inv_step_faults inv_step_createCommission invoice w Hinv).
Qed.

Lemma X2_entry_points_witness :
  ledger_inv late_failure_world
  /\ ledger_inv (snd (processMonthlyPayouts late_failure_world)).
Proof.
  assert (H : ledger_inv late_failure_world).
  { split; [repeat constructor; simpl; intros; congruence|constructor]. }
  split; [exact H|].
  exact (proj1 (proj2 (X2_entry_points_keep_ledger_invariants late_failure_world H))).
Defined.

(** ** What a payout run never does *)

Lemma settles_refl (c : Commission.t) : settles c c.
Proof. left. reflexivity. Qed.

Lemma settles_trans (a b c : Commission.t) : settles a b -> settles b c -> settles a c.
Proof.
  intros [->|(Hs & now & ->)] Hbc; [exact Hbc|].
  destruct Hbc as [->|(Hs' & _)].
  - right. split; [exact Hs|]. exists now. reflexivity.
  - simpl in Hs'. discriminate.
Qed.

Lemma settled_rows_refl (l : list Commission.t) : Forall2 settles l l.
Proof. induction l; constructor; [apply settles_refl|assumption]. Qed.

Lemma settled_rows_trans (a b c : list Commission.t) :
  Forall2 settles a b -> Forall2 settles b c -> Forall2 settles a c.
Proof.
  intros Hab. revert c. induction Hab as [|x y l l' Hxy _ IH]; intros c Hbc.
  - inversion Hbc. constructor.
  - inversion Hbc as [|y' z m m' Hyz Hrest]; subst.
    constructor; [eapply settles_trans; eassumption|apply IH; exact Hrest].
Qed.

Lemma mark_paid_settles (userId : Z) (now : DateTime) (c : Commission.t) :
  settles c (mark_paid userId now c).
Proof.
  unfold mark_paid, is_pending_of.
  destruct (Commission.referrer_id c =? userId); simpl; [|left; reflexivity].
  destruct (String.eqb_spec (Commission.status c) "pending") as [E|E];
    [|left; reflexivity].
  right. split; [exact E|]. exists now. reflexivity.
Qed.

Lemma payout_step_refl (w : World) : payout_step w w.
Proof.
  unfold payout_step. split; [reflexivity|]. split; [apply settled_rows_refl|].
  split; [reflexivity|]. split; [exists []; rewrite app_nil_r; reflexivity|].
  split; [exists []; rewrite app_nil_r; reflexivity|]. split; reflexivity.
Qed.

Lemma payout_step_trans (a b c : World) :
  payout_step a b -> payout_step b c -> payout_step a c.
Proof.
  intros (Hu & Hc & Hq & (p1 & Hp) & (t1 & Ht) & Hcl & Hst)
         (Hu' & Hc' & Hq' & (p2 & Hp') & (t2 & Ht') & Hcl' & Hst').
  unfold payout_step. split; [congruence|].
  split; [eapply settled_rows_trans; eassumption|]. split; [congruence|].
  split; [exists (p1 ++ p2); rewrite Hp', Hp, app_assoc; reflexivity|].
  split; [exists (t1 ++ t2); rewrite Ht', Ht, app_assoc; reflexivity|].
  split; congruence.
Qed.

Lemma payout_step_console l w : payout_step w (set_console l w).
Proof. apply (payout_step_refl w). Qed.

Lemma payout_step_faults l w : payout_step w (set_faults l w).
Proof. apply (payout_step_refl w). Qed.

Lemma payout_step_createPayout u a w :
  payout_step w (set_payouts (affiliate_payouts w
                              ++ [Payout.mk (new_payout_id w) u a None "pending" (clock w) None])
                             (new_payout_id w) w).
Proof.
  unfold payout_step; simpl. split; [reflexivity|].
  split; [apply settled_rows_refl|]. split; [reflexivity|].
  split; [eexists; rewrite map_app; reflexivity|].
  split; [exists []; rewrite app_nil_r; reflexivity|]. split; reflexivity.
Qed.

Lemma set_payout_status_core i s r paidAt (ps : list Payout.t) :
  map payout_core (map (set_payout_status i s r paidAt) ps) = map payout_core ps.
Proof.
  rewrite map_map. apply map_ext. intros p. unfold set_payout_status.
  destruct (Payout.id p =? i); reflexivity.
Qed.

Lemma payout_step_updatePayoutStatus i s r now w :
  payout_step w (set_payouts (map (set_payout_status i s r
                                     (if (s =? "paid")%string then Some now else None))
                                  (affiliate_payouts w))
                             (affiliate_payouts_seq w) w).
Proof.
  unfold payout_step; simpl. split; [reflexivity|].
  split; [apply settled_rows_refl|]. split; [reflexivity|].
  split; [exists []; rewrite app_nil_r; apply set_payout_status_core|].
  split; [exists []; rewrite app_nil_r; reflexivity|]. split; reflexivity.
Qed.

Lemma payout_step_updateCommissionsToPaid u now w :
  payout_step w (set_commissions (map (mark_paid u now) (commissions w))
                                 (commissions_seq w) w).
Proof.
  unfold payout_step; simpl. split; [reflexivity|]. split.
  - induction (commissions w) as [|c cs IH]; simpl; constructor;
      [apply mark_paid_settles|exact IH].
  - split; [reflexivity|].
    split; [exists []; rewrite app_nil_r; reflexivity|].
    split; [exists []; rewrite app_nil_r; reflexivity|]. split; reflexivity.
Qed.

Lemma payout_step_transfer req w :
  payout_step w (set_transfers (transfers w ++ [req]) w).
Proof.
  unfold payout_step; simpl. split; [reflexivity|].
  split; [apply settled_rows_refl|]. split; [reflexivity|].
  split; [exists []; rewrite app_nil_r; reflexivity|].
  split; [exists [req]; reflexivity|]. split; reflexivity.
Qed.

Lemma settled_rows_same_columns (l l' : list Commission.t) :
  Forall2 settles l l' ->
  map Commission.id l' = map Commission.id l
  /\ map Commission.referrer_id l' = map Commission.referrer_id l
  /\ map Commission.purchase_amount l' = map Commission.purchase_amount l
  /\ map Commission.commission_amount l' = map Commission.commission_amount l.
Proof.
  induction 1 as [|c c' l l' Hcc _ IH]; simpl; [repeat split|].
  destruct IH as (H1 & H2 & H3 & H4).
  destruct Hcc as [->|(_ & now & ->)]; simpl; rewrite H1, H2, H3, H4; repeat split.
Qed.

Lemma settled_rows_keep_final (l l' : list Commission.t) (c : Commission.t) :
  Forall2 settles l l' -> In c l -> Commission.status c <> "pending" -> In c l'.
Proof.
  induction 1 as [|x x' l l' Hxx _ IH]; simpl; [tauto|].
  intros [->|Hin] Hs.
  - left. destruct Hxx as [E|(Hp & _)]; [exact E|contradiction].
  - right. apply IH; assumption.
Qed.

(** X3: in every world, whichever calls fail, a run of the payout module
    (one user, the batch, the scheduled job or the manual trigger) leaves
    the users table alone, never removes, reorders or re-prices a commission
    and never inserts one, only ever turns pending commissions into paid
    ones (a commission that is not pending stays exactly as it is), and only
    appends to the payout table and to the transfers sent. *)
Theorem X3_payout_runs_only_settle_and_append (w : World) (user : User.t) :
  forall w', (w' = snd (processUserPayout user w)
              \/ w' = snd (processMonthlyPayouts w)
              \/ w' = snd (monthlyPayoutJob w)
              \/ w' = snd (triggerManualPayout w)) ->
  payout_step w w'
  /\ users w' = users w
  /\ map Commission.id (commissions w') = map Commission.id (commissions w)
  /\ map Commission.referrer_id (commissions w') = map Commission.referrer_id (commissions w)
  /\ map Commission.commission_amount (commissions w')
     = map Commission.commission_amount (commissions w)
  /\ (forall c, In c (commissions w) -> Commission.status c <> "pending" ->
                In c (commissions w'))
  /\ (exists added, map payout_core (affiliate_payouts w')
                    = map payout_core (affiliate_payouts w) ++ added)
  /\ (exists sent, transfers w' = transfers w ++ sent).
Proof.
  intros w' Hw'.
  assert (Hstep : payout_step w w').
  { destruct Hw' as [-> | [-> | [-> | ->]]].
    - apply (keeps_processUserPayout payout_step payout_step_refl payout_step_trans
               payout_step_console payout_step_faults payout_step_createPayout
               payout_step_updatePayoutStatus payout_step_updateCommissionsToPaid
               payout_step_transfer).
    - apply (keeps_processMonthlyPayouts payout_step payout_step_refl payout_step_trans
               payout_step_console payout_step_faults payout_step_createPayout
               payout_step_updatePayoutStatus payout_step_updateCommissionsToPaid
               payout_step_transfer).
    - apply (keeps_monthlyPayoutJob payout_step payout_step_refl payout_step_trans
               payout_step_console payout_step_faults payout_step_createPayout
               payout_step_updatePayoutStatus payout_step_updateCommissionsToPaid
               payout_step_transfer).
    - apply (keeps_triggerManualPayout payout_step payout_step_refl payout_step_trans
               payout_step_console payout_step_faults payout_step_createPayout
               payout_step_updatePayoutStatus payout_step_updateCommissionsToPaid
               payout_step_transfer). }
  split; [exact Hstep|].
  destruct Hstep as (Hu & Hc & _ & Hp & Ht & _).
  destruct (settled_rows_same_columns _ _ Hc) as (H1 & H2 & _ & H4).
  split; [exact Hu|]. split; [exact H1|]. split; [exact H2|]. split; [exact H4|].
  split; [|split; assumption].
  intros c Hin Hs. eapply settled_rows_keep_final; eassumption.
Qed.

Lemma X3_payout_runs_witness :
  map Commission.commission_amount
      (commissions (snd (processMonthlyPayouts late_failure_world)))
  = map Commission.commission_amount (commissions late_failure_world).
Proof.
  destruct (X3_payout_runs_only_settle_and_append late_failure_world referrer_A
              (snd (processMonthlyPayouts late_failure_world)))
    as (_ & _ & _ & _ & H & _).
  - right. left. reflexivity.
  - exact H.
Defined.

(** ** The transfers a payout sends *)

Lemma same_transfers_refl w : same_transfers w w.
Proof. reflexivity. Qed.

Lemma same_transfers_trans a b c :
  same_transfers a b -> same_transfers b c -> same_transfers a c.
Proof. unfold same_transfers. congruence. Qed.

Lemma same_transfers_console l w : same_transfers w (set_console l w).
Proof. reflexivity. Qed.

Lemma same_transfers_faults l w : same_transfers w (set_faults l w).
Proof. reflexivity. Qed.

Lemma same_transfers_createPayout u a w :
  same_transfers w (set_payouts (affiliate_payouts w
                                 ++ [Payout.mk (new_payout_id w) u a None "pending" (clock w) None])
                                (new_payout_id w) w).
Proof. reflexivity. Qed.

Lemma same_transfers_updatePayoutStatus i s r now w :
  same_transfers w (set_payouts (map (set_payout_status i s r
                                        (if (s =? "paid")%string then Some now else None))
                                     (affiliate_payouts w))
                                (affiliate_payouts_seq w) w).
Proof. reflexivity. Qed.

Lemma same_transfers_updateCommissionsToPaid u now w :
  same_transfers w (set_commissions (map (mark_paid u now) (commissions w))
                                    (commissions_seq w) w).
Proof. reflexivity. Qed.

Ltac same_transfers_step :=
  first [ exact same_transfers_refl | exact same_transfers_trans
        | exact same_transfers_console | exact same_transfers_faults
        | exact same_transfers_createPayout | exact same_transfers_updatePayoutStatus
        | exact same_transfers_updateCommissionsToPaid ].

Lemma getTotalPendingCommissions_result (userId : Z) (w : World) :
  (exists fs, getTotalPendingCommissions userId w
              = (Ok (pending_total userId w), set_faults fs w))
  \/ (exists fs, getTotalPendingCommissions userId w
                 = (Throw SqliteError, set_faults fs w)).
Proof.
  unfold getTotalPendingCommissions, bind.
  destruct (sqlite_call_result w) as [[fs E]|[fs E]]; rewrite E.
  - left. exists fs. reflexivity.
  - right. exists fs. reflexivity.
Qed.

Lemma Math_round_pence (q : Q) : (50 <= q)%Q -> 5000 <= Math_round (q * 100).
Proof.
  intros H. unfold Math_round.
  change 5000 with (Qfloor (inject_Z 5000)). apply Qfloor_resp_le.
  apply Qle_trans with (q * 100)%Q.
  - change (inject_Z 5000) with (50 * 100)%Q.
    apply Qmult_le_compat_r; [exact H|discriminate].
  - rewrite <- (Qplus_0_r (q * 100)) at 1.
    apply Qplus_le_compat; [apply Qle_refl|discriminate].
Qed.

Lemma processUserPayout_transfers (user : User.t) (w : World) :
  transfers (snd (processUserPayout user w)) = transfers w
  \/ (transfers (snd (processUserPayout user w)) = transfers w ++ [request_of w user]
      /\ Qltb (pending_total (User.id user) w) 50 = false).
Proof.
  unfold processUserPayout.
  erewrite try_catch_bind_ok by reflexivity.
  match goal with
  | |- context [try_catch _ ?h] => set (handler := h)
  end.
  assert (Hh : forall e, keeps same_transfers (handler e)).
  { intros e. apply keeps_payout_handler; same_transfers_step. }
  set (w1 := set_console (console w ++ [PayoutProcessing (User.id user)]) w).
  destruct (getTotalPendingCommissions_result (User.id user) w1) as [[fs E]|[fs E]].
  - erewrite try_catch_bind_ok by exact E.
    change (pending_total (User.id user) w1) with (pending_total (User.id user) w).
    destruct (Qltb (pending_total (User.id user) w) 50) eqn:Hlt.
    + left. reflexivity.
    + right. split; [|reflexivity].
      set (w2 := set_faults fs w1).
      set (w3 := set_transfers (transfers w2 ++ [request_of w user]) w2).
      destruct (stripe w2 (request_of w user)) as [ref|] eqn:Es.
      * erewrite try_catch_bind_ok with (w1 := w3) (a := ref).
        -- match goal with
           | |- transfers (snd (try_catch ?body handler w3)) = _ =>
               assert (Hk : keeps same_transfers (try_catch body handler))
           end.
           { apply keeps_try_catch; [same_transfers_step| |exact Hh].
             apply keeps_payout_writes; same_transfers_step. }
           rewrite (Hk w3). reflexivity.
        -- unfold stripe_transfers_create. cbn [clock w2 w1 set_faults set_console].
           fold (request_of w user). fold w1. fold w2. rewrite Es. reflexivity.
      * erewrite try_catch_bind_throw with (w1 := w3) (e := StripeError).
        -- rewrite (Hh StripeError w3). reflexivity.
        -- unfold stripe_transfers_create. cbn [clock w2 w1 set_faults set_console].
           fold (request_of w user). fold w1. fold w2. rewrite Es. reflexivity.
  - erewrite try_catch_bind_throw by exact E.
    left. rewrite (Hh SqliteError (set_faults fs w1)). reflexivity.
Qed.

(** X4: in every world, one call of processUserPayout sends at most one
    transfer request; it sends one only when the pending sum it read is at
    least 50, and then for at least 5000 pence, in pounds, to the account of
    the user it was called for. *)
Theorem X4_at_most_one_transfer_never_below_threshold (user : User.t) (w : World) :
  transfers (snd (processUserPayout user w)) = transfers w
  \/ (transfers (snd (processUserPayout user w)) = transfers w ++ [request_of w user]
      /\ (50 <= sum_pending (User.id user) w)%Q
      /\ 5000 <= tr_amount (request_of w user)
      /\ tr_currency (request_of w user) = "gbp"
      /\ tr_user_id (request_of w user) = User.id user
      /\ tr_destination (request_of w user) = User.stripe_account_id user).
Proof.
  destruct (processUserPayout_transfers user w) as [H|[H Hge]]; [left; exact H|].
  right. split; [exact H|].
  apply Qltb_ge in Hge.
  split; [rewrite <- pending_total_sum; exact Hge|].
  split; [apply Math_round_pence; exact Hge|]. repeat split.
Qed.

Lemma payout_turn_transfers (r : EligibleRow) (w : World) :
  exists sent,
    transfers (snd (payout_turn r w)) = transfers w ++ sent
    /\ (sent = [] \/ exists req, sent = [req] /\ sent_for [r] req).
Proof.
  assert (Hturn : transfers (snd (payout_turn r w))
                  = transfers (snd (processUserPayout (row_user r) w))).
  { unfold payout_turn, try_catch.
    destruct (processUserPayout (row_user r) w) as [[a|e] w1]; reflexivity. }
  rewrite Hturn.
  destruct (processUserPayout_transfers (row_user r) w) as [H|[H Hge]].
  - exists []. rewrite app_nil_r. split; [exact H|left; reflexivity].
  - exists [request_of w (row_user r)]. split; [exact H|]. right.
    eexists. split; [reflexivity|]. apply Qltb_ge in Hge.
    split; [apply Math_round_pence; exact Hge|]. split; [reflexivity|].
    exists r. split; [left; reflexivity|]. split; reflexivity.
Qed.

Lemma sent_for_more (rows rows' : list EligibleRow) (req : TransferReq) :
  incl rows rows' -> sent_for rows req -> sent_for rows' req.
Proof.
  intros Hincl (Ha & Hc & r & Hr & Hrest).
  split; [exact Ha|]. split; [exact Hc|]. exists r. split; [apply Hincl; exact Hr|exact Hrest].
Qed.

Lemma payout_loop_transfers (rows : list EligibleRow) :
  forall w : World,
    exists sent,
      transfers (snd (payout_loop rows w)) = transfers w ++ sent
      /\ Forall (sent_for rows) sent
      /\ (NoDup (map row_id rows) -> NoDup (map tr_user_id sent)).
Proof.
  induction rows as [|r rows IH]; intros w.
  - exists []. simpl. rewrite app_nil_r. repeat split; constructor.
  - rewrite payout_loop_cons.
    destruct (payout_turn_transfers r w) as (s1 & E1 & Hs1).
    destruct (IH (snd (payout_turn r w))) as (s2 & E2 & Hall & Hnd).
    exists (s1 ++ s2). split; [rewrite E2, E1, app_assoc; reflexivity|].
    assert (Hall2 : Forall (sent_for (r :: rows)) s2).
    { eapply Forall_impl; [|exact Hall]. intros req. apply sent_for_more.
      intros x Hx. right. exact Hx. }
    destruct Hs1 as [->|(req & -> & Hreq)].
    + simpl. split; [exact Hall2|].
      intros H. inversion H; subst. apply Hnd. assumption.
    + split.
      * constructor; [|exact Hall2]. eapply sent_for_more; [|exact Hreq].
        intros x [->|[]]. left. reflexivity.
      * intros H. inversion H as [|x xs Hnotin Hrest]; subst. simpl.
        constructor; [|apply Hnd; exact Hrest].
        destruct Hreq as (_ & _ & r' & [<-|[]] & Hid & _). rewrite Hid.
        intros Hin. apply Hnotin. apply in_map_iff in Hin.
        destruct Hin as (req' & Hid' & Hin').
        rewrite Forall_forall in Hall.
        destruct (Hall req' Hin') as (_ & _ & r2 & Hr2 & Hid2 & _).
        rewrite <- Hid', Hid2. apply in_map. exact Hr2.
Qed.

Lemma getEligibleUsers_result (w : World) :
  (exists fs, getEligibleUsers w = (Ok (eligible_rows w), set_faults fs w))
  \/ (exists fs, getEligibleUsers w = (Throw SqliteError, set_faults fs w)).
Proof.
  unfold getEligibleUsers, bind.
  destruct (sqlite_call_result w) as [[fs E]|[fs E]]; rewrite E.
  - left. exists fs. reflexivity.
  - right. exists fs. reflexivity.
Qed.

Lemma processMonthlyPayouts_transfers (w : World) :
  exists sent,
    transfers (snd (processMonthlyPayouts w)) = transfers w ++ sent
    /\ Forall (sent_for (eligible_rows w)) sent
    /\ (NoDup (map row_id (eligible_rows w)) -> NoDup (map tr_user_id sent)).
Proof.
  unfold processMonthlyPayouts.
  erewrite try_catch_bind_ok by reflexivity.
  set (w1 := set_console (console w ++ [BatchProcessing]) w).
  destruct (getEligibleUsers_result w1) as [[fs E]|[fs E]].
  - erewrite try_catch_bind_ok by exact E.
    change (eligible_rows w1) with (eligible_rows w).
    destruct (List.length (eligible_rows w) =? 0)%nat.
    + exists []. rewrite app_nil_r. repeat split; constructor.
    + erewrite try_catch_bind_ok by reflexivity.
      set (w2 := set_console _ _).
      destruct (payout_loop_transfers (eligible_rows w) w2) as (sent & Hs & Hall & Hnd).
      pose proof (payout_loop_never_throws (eligible_rows w) w2) as Hok.
      destruct (payout_loop (eligible_rows w) w2) as [[[]|e] wl] eqn:El;
        simpl in Hok; [|discriminate].
      erewrite try_catch_bind_ok by exact El.
      exists sent. split; [exact Hs|]. split; assumption.
  - erewrite try_catch_bind_throw by exact E.
    exists []. rewrite app_nil_r. repeat split; constructor.
Qed.

(** X5: in every world, whichever calls fail, every transfer request the
    batch sends is for a user of the users table that has a payment account
    and was owed at least 50 when the batch started, goes to that account,
    and is for at least 5000 pence; with distinct user ids no user is sent
    two transfers in one batch. *)
Theorem X5_batch_transfers_only_to_eligible_users_once (w : World) :
  exists sent,
    transfers (snd (processMonthlyPayouts w)) = transfers w ++ sent
    /\ (forall req, In req sent ->
          5000 <= tr_amount req
          /\ tr_currency req = "gbp"
          /\ exists u, In u (users w)
                       /\ tr_user_id req = User.id u
                       /\ User.stripe_account_id u <> None
                       /\ tr_destination req = User.stripe_account_id u
                       /\ (50 <= sum_pending (User.id u) w)%Q)
    /\ (NoDup (map User.id (users w)) -> NoDup (map tr_user_id sent)).
Proof.
  destruct (processMonthlyPayouts_transfers w) as (sent & Hs & Hall & Hnd).
  exists sent. split; [exact Hs|]. split.
  - intros req Hin. rewrite Forall_forall in Hall.
    destruct (Hall req Hin) as (Ha & Hc & r & Hr & Hid & Hdest).
    split; [exact Ha|]. split; [exact Hc|].
    assert (He : In (row_user r) (map row_user (eligible_rows w)))
      by (apply in_map; exact Hr).
    apply eligible_iff in He. destruct He as (Hu & Hacc & Hsum).
    exists (row_user r). repeat split; assumption.
  - intros H. apply Hnd. apply eligible_rows_distinct. exact H.
Qed.

Lemma X5_batch_transfers_witness :
  map tr_user_id (transfers (snd (processMonthlyPayouts three_affiliates_world)))
  = [1; 2; 3]
  /\ exists sent,
       transfers (snd (processMonthlyPayouts three_affiliates_world)) = sent
       /\ NoDup (map tr_user_id sent).
Proof.
  split; [reflexivity|].
  destruct (X5_batch_transfers_only_to_eligible_users_once three_affiliates_world)
    as (sent & Hs & _ & Hnd).
  exists sent. split; [exact Hs|]. apply Hnd.
  vm_compute. repeat constructor; simpl; intuition discriminate.
Defined.

(** ** After a batch *)

Lemma processMonthlyPayouts_tables (w : World) :
  hd false (faults w) = false ->
  users (snd (processMonthlyPayouts w))
  = users (snd (payout_loop (eligible_rows w) (batch_start w)))
  /\ commissions (snd (processMonthlyPayouts w))
     = commissions (snd (payout_loop (eligible_rows w) (batch_start w))).
Proof.
  intros Hscan.
  destruct (eligible_rows w) as [|r rows] eqn:Erows.
  - unfold processMonthlyPayouts.
    erewrite try_catch_bind_ok by reflexivity.
    erewrite try_catch_bind_ok.
    2:{ unfold getEligibleUsers, bind. rewrite sqlite_call_first_ok by exact Hscan.
        reflexivity. }
    cbn [faults set_console].
    change (eligible_rows (set_faults (tl (faults w))
                             (set_console (console w ++ [BatchProcessing]) w)))
      with (eligible_rows w).
    rewrite Erows. split; reflexivity.
  - assert (Hne : eligible_rows w <> []) by (rewrite Erows; discriminate).
    rewrite (processMonthlyPayouts_runs_loop w Hscan Hne). rewrite Erows.
    split; reflexivity.
Qed.

Lemma settled_owner_owes_nothing (userId : Z) (w : World) :
  Forall (fun c => Commission.status c <> "pending") (commissions_of userId w) ->
  sum_pending userId w = 0%Q.
Proof.
  intros Hall. unfold sum_pending.
  rewrite <- pending_amounts_of_owner. fold (commissions_of userId w).
  unfold pending_amounts.
  induction (commissions_of userId w) as [|c cs IH]; [reflexivity|].
  inversion Hall as [|x xs Hc Hrest]; subst. simpl.
  unfold is_pending_of at 1.
  destruct (String.eqb_spec (Commission.status c) "pending") as [E|E]; [contradiction|].
  rewrite andb_false_r. apply IH. exact Hrest.
Qed.

Lemma same_id_same_user (us : list User.t) (u v : User.t) :
  NoDup (map User.id us) -> In u us -> In v us -> User.id u = User.id v -> u = v.
Proof.
  induction us as [|x us IH]; simpl; [tauto|].
  intros Hnd Hu Hv Hid. inversion Hnd as [|k ks Hfresh Hrest]; subst.
  destruct Hu as [->|Hu], Hv as [->|Hv].
  - reflexivity.
  - exfalso. apply Hfresh. rewrite Hid. apply in_map. exact Hv.
  - exfalso. apply Hfresh. rewrite <- Hid. apply in_map. exact Hu.
  - apply IH; assumption.
Qed.

Lemma eligible_after_batch (w : World) (u : User.t) :
  healthy w ->
  NoDup (map User.id (users w)) ->
  In u (map row_user (eligible_rows (snd (processMonthlyPayouts w))))
  <-> In u (map row_user (eligible_rows w)) /\ stripe w (request_of w u) = None.
Proof.
  intros Hw Hnd.
  pose proof (healthy_first_ok w Hw) as Hscan.
  destruct (processMonthlyPayouts_tables w Hscan) as [Hus Hcs].
  destruct (payout_loop_healthy (eligible_rows w) (batch_start w)
              (healthy_batch_start w Hw) (eligible_rows_distinct w Hnd))
    as (added & lines & _ & _ & _ & Hframe & Hout).
  { intros r Hr. apply (eligible_rows_sum w r Hr). }
  set (wl := snd (payout_loop (eligible_rows w) (batch_start w))) in *.
  set (wf := snd (processMonthlyPayouts w)) in *.
  assert (Husers : users wf = users w).
  { rewrite Hus.
    assert (Hkl : keeps (fun a b => users b = users a) (payout_loop (eligible_rows w))).
    { apply keeps_payout_loop; intros; simpl; congruence. }
    exact (Hkl (batch_start w)). }
  assert (Hof : forall uid, commissions_of uid wf = commissions_of uid wl).
  { intros uid. unfold commissions_of. rewrite Hcs. reflexivity. }
  assert (Hlisted : forall r, In r (eligible_rows w) ->
            match stripe w (request_of w (row_user r)) with
            | Some _ => sum_pending (row_id r) wf = 0%Q
            | None => sum_pending (row_id r) wf = sum_pending (row_id r) w
            end).
  { intros r Hr. specialize (Hout r Hr). unfold turn_outcome in Hout.
    change (stripe (batch_start w)) with (stripe w) in Hout.
    change (request_of (batch_start w) (row_user r)) with (request_of w (row_user r)) in Hout.
    destruct (stripe w (request_of w (row_user r))) as [ref|].
    - destruct Hout as (_ & Hall & _). apply settled_owner_owes_nothing.
      unfold row_id. rewrite Hof. exact Hall.
    - destruct Hout as (_ & Hsame & _). apply sum_pending_of_owner.
      unfold row_id. rewrite Hof. exact Hsame. }
  split.
  - intros Hin. apply eligible_iff in Hin. destruct Hin as (Hu & Hacc & Hsum).
    rewrite Husers in Hu.
    destruct (in_dec Z.eq_dec (User.id u) (map row_id (eligible_rows w))) as [Hid|Hid].
    + apply in_map_iff in Hid. destruct Hid as (r & Hrid & Hr).
      assert (Hru : row_user r = u).
      { apply (same_id_same_user (users w)); try assumption.
        apply (in_eligible_rows w r). exact Hr. }
      specialize (Hlisted r Hr). rewrite Hru in Hlisted. unfold row_id in Hlisted.
      rewrite Hru in Hlisted.
      destruct (stripe w (request_of w u)) as [ref|].
      * rewrite Hlisted in Hsum. exfalso. revert Hsum. apply Qlt_not_le. reflexivity.
      * split; [|reflexivity]. rewrite <- Hru. apply in_map. exact Hr.
    + exfalso. apply Hid.
      assert (He : In u (map row_user (eligible_rows w))).
      { apply eligible_iff. split; [exact Hu|]. split; [exact Hacc|].
        rewrite <- (sum_pending_of_owner (User.id u) w wf); [exact Hsum|].
        rewrite Hof. apply (Hframe (User.id u) Hid). }
      apply in_map_iff in He. destruct He as (r & <- & Hr).
      apply (in_map row_id). exact Hr.
  - intros [Hin Hnone]. apply in_map_iff in Hin. destruct Hin as (r & <- & Hr).
    specialize (Hlisted r Hr). rewrite Hnone in Hlisted.
    pose proof (proj1 (in_eligible_rows w r) Hr) as (Hu & Hacc & _ & _).
    apply eligible_iff. rewrite Husers. split; [exact Hu|].
    split; [apply has_account_iff; exact Hacc|].
    unfold row_id in Hlisted. rewrite Hlisted. apply (eligible_rows_sum w r Hr).
Qed.

(** X6: after a batch that ran on a working database over users with
    distinct ids, the users the eligibility scan returns are exactly the
    users that were eligible before and whose transfer the payment rail
    refused: a user that was paid is no longer eligible, and the batch made
    nobody eligible.  So a second batch, whatever fails in it, sends
    transfers only for users the first one could not pay. *)
Theorem X6_paid_users_leave_the_eligible_set (w : World) :
  healthy w ->
  NoDup (map User.id (users w)) ->
  let wf := snd (processMonthlyPayouts w) in
  (forall u, In u (map row_user (eligible_rows wf))
             <-> In u (map row_user (eligible_rows w))
                 /\ stripe w (request_of w u) = None)
  /\ exists again,
       transfers (snd (processMonthlyPayouts wf)) = transfers wf ++ again
       /\ forall req, In req again ->
            exists u, In u (map row_user (eligible_rows w))
                      /\ stripe w (request_of w u) = None
                      /\ tr_user_id req = User.id u.
Proof.
  intros Hw Hnd wf. split.
  - intros u. apply eligible_after_batch; assumption.
  - destruct (processMonthlyPayouts_transfers wf) as (again & Hs & Hall & _).
    exists again. split; [exact Hs|].
    intros req Hin. rewrite Forall_forall in Hall.
    destruct (Hall req Hin) as (_ & _ & r & Hr & Hid & _).
    assert (He : In (row_user r) (map row_user (eligible_rows wf)))
      by (apply in_map; exact Hr).
    apply (eligible_after_batch w (row_user r) Hw Hnd) in He.
    exists (row_user r). split; [apply He|]. split; [apply He|exact Hid].
Qed.

Lemma X6_paid_users_witness :
  map row_id (eligible_rows (snd (processMonthlyPayouts three_affiliates_world))) = [2]
  /\ forall u,
       In u (map row_user (eligible_rows (snd (processMonthlyPayouts three_affiliates_world))))
       -> stripe three_affiliates_world (request_of three_affiliates_world u) = None.
Proof.
  split; [reflexivity|].
  assert (Hnd : NoDup (map User.id (users three_affiliates_world))).
  { vm_compute. repeat constructor; simpl; intuition discriminate. }
  destruct (X6_paid_users_leave_the_eligible_set three_affiliates_world
              (Forall_nil _) Hnd) as [Hiff _].
  intros u Hu. apply (proj2 (proj1 (Hiff u) Hu)).
Defined.

(** ** The commission recorders in every world *)

Lemma getUserById_result (uid : Z) (w : World) :
  (exists fs, getUserById uid w
              = (Ok (find (fun u => User.id u =? uid) (users w)), set_faults fs w))
  \/ (exists fs, getUserById uid w = (Throw SqliteError, set_faults fs w)).
Proof.
  unfold getUserById, bind.
  destruct (sqlite_call_result w) as [[fs E]|[fs E]]; rewrite E.
  - left. exists fs. reflexivity.
  - right. exists fs. reflexivity.
Qed.

Lemma createCommission_result a b c d e (w : World) :
  (exists fs, createCommission a b c d e w
              = (Ok (next_rowid (map Commission.id (commissions w)) (commissions_seq w)),
                 set_commissions (commissions w ++ [new_commission w a b c d e])
                   (next_rowid (map Commission.id (commissions w)) (commissions_seq w))
                   (set_faults fs w)))
  \/ (exists fs, createCommission a b c d e w = (Throw SqliteError, set_faults fs w)).
Proof.
  unfold createCommission, bind.
  destruct (sqlite_call_result w) as [[fs E]|[fs E]]; rewrite E.
  - left. exists fs. reflexivity.
  - right. exists fs. reflexivity.
Qed.

Lemma referrer_of_inv (user : option User.t) (referrer : Z) :
  referrer_of user = Some referrer ->
  exists u, user = Some u /\ User.referrer_id u = Some referrer /\ referrer <> 0.
Proof.
  unfold referrer_of, truthy. destruct user as [u|]; [|discriminate].
  destruct (User.referrer_id u) as [r|] eqn:E; [|discriminate].
  destruct (Z.eqb_spec r 0) as [Hz|Hz]; simpl; [discriminate|].
  intros H. inversion H; subst. exists u. repeat split; assumption.
Qed.

Lemma processAffiliateCommission_cases (session : Session) (w : World) :
  fst (processAffiliateCommission session w) = Ok tt
  /\ (commissions (snd (processAffiliateCommission session w)) = commissions w
      \/ exists userId u referrer,
           or_else (session_metadata_userId session) (session_customer session)
           = Some userId
           /\ find (fun x => User.id x =? userId) (users w) = Some u
           /\ User.referrer_id u = Some referrer
           /\ referrer <> 0
           /\ commissions (snd (processAffiliateCommission session w))
              = commissions w
                ++ [recorded_commission w referrer userId (amount_total session)
                      (session_payment_intent session)]).
Proof.
  unfold processAffiliateCommission.
  destruct (or_else _ _) as [userId|] eqn:Eid.
  2:{ split; [reflexivity|left; reflexivity]. }
  destruct (getUserById_result userId w) as [[fs E]|[fs E]].
  2:{ erewrite try_catch_bind_throw by exact E. split; [reflexivity|left; reflexivity]. }
  erewrite try_catch_bind_ok by exact E.
  destruct (referrer_of (find (fun u => User.id u =? userId) (users w)))
    as [referrer|] eqn:Eref.
  2:{ split; [reflexivity|left; reflexivity]. }
  destruct (referrer_of_inv _ _ Eref) as (u & Hfind & Href & Hne).
  match goal with
  | |- context [createCommission ?a ?b ?c ?d ?e] =>
      destruct (createCommission_result a b c d e (set_faults fs w)) as [[fs' Ec]|[fs' Ec]]
  end.
  - erewrite try_catch_bind_ok by exact Ec.
    split; [reflexivity|]. right. exists userId, u, referrer.
    repeat split; try assumption.
  - erewrite try_catch_bind_throw by exact Ec.
    split; [reflexivity|left; reflexivity].
Qed.

Lemma processSubscriptionCommission_cases (invoice : Invoice) (w : World) :
  fst (processSubscriptionCommission invoice w) = Ok tt
  /\ (commissions (snd (processSubscriptionCommission invoice w)) = commissions w
      \/ exists userId u referrer,
           or_else (invoice_metadata_userId invoice) (invoice_customer invoice)
           = Some userId
           /\ find (fun x => User.id x =? userId) (users w) = Some u
           /\ User.referrer_id u = Some referrer
           /\ referrer <> 0
           /\ monthsDiff (User.created_at u) (invoice_created invoice) < 3
           /\ commissions (snd (processSubscriptionCommission invoice w))
              = commissions w
                ++ [recorded_commission w referrer userId (amount_paid invoice)
                      (invoice_payment_intent invoice)]).
Proof.
  unfold processSubscriptionCommission.
  destruct (or_else _ _) as [userId|] eqn:Eid.
  2:{ split; [reflexivity|left; reflexivity]. }
  destruct (getUserById_result userId w) as [[fs E]|[fs E]].
  2:{ erewrite try_catch_bind_throw by exact E. split; [reflexivity|left; reflexivity]. }
  erewrite try_catch_bind_ok by exact E.
  destruct (find (fun u => User.id u =? userId) (users w)) as [u|] eqn:Efind.
  2:{ split; [reflexivity|left; reflexivity]. }
  destruct (referrer_of (Some u)) as [referrer|] eqn:Eref.
  2:{ split; [reflexivity|left; reflexivity]. }
  destruct (referrer_of_inv _ _ Eref) as (u' & Hu' & Href & Hne).
  inversion Hu'; subst u'.
  destruct (Z.leb_spec 3 (monthsDiff (User.created_at u) (invoice_created invoice)))
    as [Hge|Hlt].
  { split; [reflexivity|left; reflexivity]. }
  match goal with
  | |- context [createCommission ?a ?b ?c ?d ?e] =>
      destruct (createCommission_result a b c d e (set_faults fs w)) as [[fs' Ec]|[fs' Ec]]
  end.
  - erewrite try_catch_bind_ok by exact Ec.
    split; [reflexivity|]. right. exists userId, u, referrer.
    repeat split; try assumption.
  - erewrite try_catch_bind_throw by exact Ec.
    split; [reflexivity|left; reflexivity].
Qed.

(** X7: in every world the two commission recorders return normally, so a
    failure never reaches the webhook that called them and the event is not
    retried; they leave users, payouts and transfers alone; and they either
    leave the commissions table as it is or append exactly one pending row,
    which happens only when the purchaser exists and has a referrer_id that
    is neither NULL nor 0 (and, for an invoice, a month difference below 3).
    The row carries that referrer, the purchaser, the amount in pounds and
    four tenths of it. *)
Theorem X7_recorders_never_throw_and_append_at_most_one (w : World) :
  (forall session,
      fst (processAffiliateCommission session w) = Ok tt
      /\ recorder_step w (snd (processAffiliateCommission session w))
      /\ (commissions (snd (processAffiliateCommission session w)) = commissions w
          \/ exists userId u referrer,
               or_else (session_metadata_userId session) (session_customer session)
               = Some userId
               /\ find (fun x => User.id x =? userId) (users w) = Some u
               /\ User.referrer_id u = Some referrer
               /\ referrer <> 0
               /\ commissions (snd (processAffiliateCommission session w))
                  = commissions w
                    ++ [recorded_commission w referrer userId (amount_total session)
                          (session_payment_intent session)]))
  /\ (forall invoice,
        fst (processSubscriptionCommission invoice w) = Ok tt
        /\ recorder_step w (snd (processSubscriptionCommission invoice w))
        /\ (commissions (snd (processSubscriptionCommission invoice w)) = commissions w
            \/ exists userId u referrer,
                 or_else (invoice_metadata_userId invoice) (invoice_customer invoice)
                 = Some userId
                 /\ find (fun x => User.id x =? userId) (users w) = Some u
                 /\ User.referrer_id u = Some referrer
                 /\ referrer <> 0
                 /\ monthsDiff (User.created_at u) (invoice_created invoice) < 3
                 /\ commissions (snd (processSubscriptionCommission invoice w))
                    = commissions w
                      ++ [recorded_commission w referrer userId (amount_paid invoice)
                            (invoice_payment_intent invoice)])).
Proof.
  assert (Hrefl : forall a, recorder_step a a) by (intros a; repeat split).
  assert (Htrans : forall a b c, recorder_step a b -> recorder_step b c -> recorder_step a c).
  { intros a b c (H1 & H2 & H3) (H4 & H5 & H6). repeat split; congruence. }
  split.
  - intros session.
    destruct (processAffiliateCommission_cases session w) as [Hok Hc].
    split; [exact Hok|]. split; [|exact Hc].
    apply (keeps_processAffiliateCommission recorder_step Hrefl Htrans);
      intros; repeat split.
  - intros invoice.
    destruct (processSubscriptionCommission_cases invoice w) as [Hok Hc].
    split; [exact Hok|]. split; [|exact Hc].
    apply (keeps_processSubscriptionCommission recorder_step Hrefl Htrans);
      intros; repeat split.
Qed.

Lemma processAffiliateCommission_records
    (w : World) (session : Session) (userId : Z) (u : User.t) (referrer : Z) :
  healthy w ->
  or_else (session_metadata_userId session) (session_customer session) = Some userId ->
  find (fun x => User.id x =? userId) (users w) = Some u ->
  User.referrer_id u = Some referrer ->
  referrer <> 0 ->
  healthy (snd (processAffiliateCommission session w))
  /\ users (snd (processAffiliateCommission session w)) = users w
  /\ clock (snd (processAffiliateCommission session w)) = clock w
  /\ commissions (snd (processAffiliateCommission session w))
     = commissions w ++ [recorded_commission w referrer userId (amount_total session)
                           (session_payment_intent session)]
  /\ commissions_seq (snd (processAffiliateCommission session w))
     = next_rowid (map Commission.id (commissions w)) (commissions_seq w).
Proof.
  intros Hw Hid Hfind Href Hne.
  unfold processAffiliateCommission. rewrite Hid.
  destruct (getUserById_healthy userId w Hw) as (fs & Hfs & E).
  erewrite try_catch_bind_ok by exact E.
  rewrite Hfind, (referrer_of_some u referrer Href Hne).
  destruct (sqlite_call_healthy (set_faults fs w) Hfs) as (fs' & E' & Hfs').
  erewrite try_catch_bind_ok.
  2:{ unfold createCommission, bind. rewrite E'. reflexivity. }
  simpl. split; [exact Hfs'|]. repeat split.
Qed.

(** X8: the recorder keeps no trace of the events it has seen: when the
    same completed checkout is delivered twice to a working database, the
    referrer gets two pending commissions that differ in their rowid only,
    both with the payment intent of the one purchase. *)
Theorem X8_replayed_purchase_is_recorded_twice
    (w : World) (session : Session) (userId : Z) (u : User.t) (referrer : Z) :
  healthy w ->
  or_else (session_metadata_userId session) (session_customer session) = Some userId ->
  find (fun x => User.id x =? userId) (users w) = Some u ->
  User.referrer_id u = Some referrer ->
  referrer <> 0 ->
  let first := recorded_commission w referrer userId (amount_total session)
                 (session_payment_intent session) in
  let w1 := snd (processAffiliateCommission session w) in
  let w2 := snd (processAffiliateCommission session w1) in
  exists second,
    commissions w2 = commissions w ++ [first; second]
    /\ Commission.id second = Commission.id first + 1
    /\ Commission.referrer_id second = Commission.referrer_id first
    /\ Commission.referred_user_id second = Commission.referred_user_id first
    /\ Commission.commission_amount second = Commission.commission_amount first
    /\ Commission.stripe_payment_intent_id second = session_payment_intent session
    /\ Commission.status first = "pending"
    /\ Commission.status second = "pending"
    /\ (sum_pending referrer w2
        == sum_pending referrer w + 2 * Commission.commission_amount first)%Q.
Proof.
  intros Hw Hid Hfind Href Hne first w1 w2.
  destruct (processAffiliateCommission_records w session userId u referrer
              Hw Hid Hfind Href Hne) as (Hw1 & Hus1 & Hcl1 & Hcs1 & Hseq1).
  fold w1 in Hw1, Hus1, Hcl1, Hcs1, Hseq1. fold first in Hcs1.
  assert (Hfind1 : find (fun x => User.id x =? userId) (users w1) = Some u)
    by (rewrite Hus1; exact Hfind).
  destruct (processAffiliateCommission_records w1 session userId u referrer
              Hw1 Hid Hfind1 Href Hne) as (_ & _ & _ & Hcs2 & _).
  fold w2 in Hcs2.
  exists (recorded_commission w1 referrer userId (amount_total session)
            (session_payment_intent session)).
  split; [rewrite Hcs2, Hcs1, <- app_assoc; reflexivity|].
  split.
  { unfold recorded_commission, new_commission; simpl.
    rewrite Hcs1, Hseq1, map_app. simpl.
    apply (next_rowid_after_insert (map Commission.id (commissions w)) (commissions_seq w)). }
  do 6 (split; [reflexivity|]).
  unfold sum_pending. rewrite Hcs2, Hcs1. unfold pending_amounts.
  rewrite !filter_app, !map_app, !fold_right_app. simpl.
  unfold is_pending_of; simpl. rewrite Z.eqb_refl. simpl.
  set (amount := (inject_Z (amount_total session) / 100 * 0.4)%Q).
  assert (Hshift : forall (l : list Q) (a : Q),
             (fold_right Qplus a l == fold_right Qplus 0 l + a)%Q).
  { induction l as [|x l IH]; intros a; simpl; [ring|]. rewrite IH. ring. }
  rewrite Hshift. ring.
Qed.

Lemma X8_replayed_purchase_witness :
  List.length (commissions (snd (processAffiliateCommission purchase_999
                              (snd (processAffiliateCommission purchase_999
                                      two_user_world))))) = 2%nat.
Proof.
  destruct (X8_replayed_purchase_is_recorded_twice two_user_world purchase_999 2
              purchaser_B 1) as (second & Hcs & _).
  - constructor.
  - reflexivity.
  - reflexivity.
  - reflexivity.
  - discriminate.
  - rewrite Hcs. reflexivity.
Defined.

(** ** The lists and figures of the dashboard *)


















(** ** The rows of the eligibility scan *)

Lemma insert_desc_sorted (r : EligibleRow) (l : list EligibleRow) :
  Sorted (fun a b => (total_pending b <= total_pending a)%Q) l ->
  Sorted (fun a b => (total_pending b <= total_pending a)%Q) (insert_desc r l).
Proof.
  induction l as [|x l IH]; intros Hs; simpl.
  - repeat constructor.
  - destruct (Qle_bool (total_pending x) (total_pending r)) eqn:E.
    + constructor; [exact Hs|]. constructor. apply Qle_bool_iff. exact E.
    + assert (Hlt : (total_pending r <= total_pending x)%Q).
      { apply Qlt_le_weak. apply Qnot_le_lt. intros H.
        apply Qle_bool_iff in H. congruence. }
      inversion Hs as [|y l' Hrest Hhd]; subst.
      constructor; [apply IH; exact Hrest|].
      destruct l as [|z l]; simpl.
      * constructor. exact Hlt.
      * destruct (Qle_bool (total_pending z) (total_pending r)).
        -- constructor. exact Hlt.
        -- inversion Hhd; subst. constructor. assumption.
Qed.

Lemma order_desc_sorted (l : list EligibleRow) :
  Sorted (fun a b => (total_pending b <= total_pending a)%Q) (order_desc l).
Proof.
  induction l as [|x l IH]; simpl; [constructor|].
  apply insert_desc_sorted. exact IH.
Qed.

(** X11: the rows the eligibility scan returns come in the order of the
    query, largest pending total first; each row carries the pending sum of
    its user, which is also what getTotalPendingCommissions returns for that
    user, so the re-check of processUserPayout passes for every row; and
    when the user ids are distinct there is one row per user. *)
Theorem X11_scan_rows_are_ordered_totals_one_per_user (w : World) :
  Sorted (fun a b => (total_pending b <= total_pending a)%Q) (eligible_rows w)
  /\ (forall r, In r (eligible_rows w) ->
        (total_pending r == sum_pending (row_id r) w)%Q
        /\ (total_pending r == pending_total (row_id r) w)%Q
        /\ (50 <= total_pending r)%Q
        /\ Qltb (pending_total (row_id r) w) 50 = false
        /\ In (row_user r) (users w))
  /\ (NoDup (map User.id (users w)) -> NoDup (map row_id (eligible_rows w))).
Proof.
  split; [apply order_desc_sorted|]. split; [|apply eligible_rows_distinct].
  intros r Hr. pose proof (proj1 (in_eligible_rows w r) Hr) as (Hu & _ & Htot & Hle).
  assert (Hsum : (total_pending r == sum_pending (row_id r) w)%Q).
  { rewrite Htot. apply coalesce0_sum. }
  split; [exact Hsum|]. split; [rewrite Hsum, pending_total_sum; reflexivity|].
  split; [apply Qle_bool_iff; exact Hle|].
  split; [|exact Hu].
  apply eligible_passes_recheck. apply in_map. exact Hr.
Qed.

(** ** The payout date of the dashboard and the schedule *)

Lemma nextPayoutDate_last_day (now : DateTime) :
  0 <= getMonth now <= 11 ->
  nextPayoutDate now
  = mkDate (getFullYear now) (getMonth now) (daysInMonth (getFullYear now) (getMonth now)).
Proof.
  intros Hm. unfold nextPayoutDate, newDate, setDate. simpl.
  destruct (Z.eq_dec (getMonth now) 11) as [E|E].
  - rewrite E. simpl. change (12 / 12) with 1.
    replace (getFullYear now + 1 - 1) with (getFullYear now) by lia.
    reflexivity.
  - assert (Hdiv : (getMonth now + 1) / 12 = 0) by (apply Z.div_small; lia).
    assert (Hmod : (getMonth now + 1) mod 12 = getMonth now + 1)
      by (apply Z.mod_small; lia).
    rewrite Hdiv, Hmod, Z.add_0_r.
    destruct (Z.eqb_spec (getMonth now + 1) 0) as [H0|H0]; [lia|].
    replace (getMonth now + 1 - 1) with (getMonth now) by lia.
    reflexivity.
Qed.

Lemma last_day_runs_batch (w : World) :
  valid_date (clock w) ->
  In BatchProcessing (logged_since w (snd (monthlyPayoutJob w)))
  <-> getDate (clock w) = daysInMonth (getFullYear (clock w)) (getMonth (clock w)).
Proof.
  intros [_ Hd]. rewrite <- (tomorrow_is_first_iff_last_day (clock w) Hd).
  destruct (Z.eq_dec (getDate (setDate (clock w) (getDate (clock w) + 1))) 1) as [E|E].
  - split; [intros _; exact E|intros _].
    rewrite (monthlyPayoutJob_runs w E).
    set (w1 := set_console (console w ++ [JobStarting]) w).
    destruct (processMonthlyPayouts_announces w1) as [l Hl].
    assert (Hgrow : exists l', console (snd (try_catch processMonthlyPayouts
                                   (fun error => console_log (JobFailed error)) w1))
                               = console w1 ++ BatchProcessing :: l').
    { unfold try_catch. destruct (processMonthlyPayouts w1) as [[a|e] w2]; simpl in *.
      - exists l. exact Hl.
      - exists (l ++ [JobFailed e]). rewrite Hl, <- app_assoc. reflexivity. }
    destruct Hgrow as [l' Hl'].
    rewrite (logged_since_app w _ (JobStarting :: BatchProcessing :: l')).
    + right. left. reflexivity.
    + rewrite Hl'. subst w1. simpl. rewrite <- app_assoc. reflexivity.
  - split; [|intros H; contradiction].
    rewrite (monthlyPayoutJob_skips w E). simpl.
    rewrite (logged_since_app w _ [JobStarting; JobNotLastDay]) by reflexivity.
    simpl. intros [H|[H|[]]]; discriminate.
Qed.

(** X12: the next payout date the dashboard shows, built as day 0 of the
    following month, is the last day of the current month, December
    included; it is never before today, it is a day the schedule fires on,
    and the scheduled job run on that day starts the batch. *)
Theorem X12_dashboard_payout_date_is_the_batch_day (now : DateTime) :
  valid_date now ->
  let d := nextPayoutDate now in
  d = mkDate (getFullYear now) (getMonth now)
             (daysInMonth (getFullYear now) (getMonth now))
  /\ getDate now <= getDate d
  /\ valid_date d
  /\ cron_day d = true
  /\ forall w, clock w = d ->
       In BatchProcessing (logged_since w (snd (monthlyPayoutJob w))).
Proof.
  intros [Hm Hd] d. subst d. rewrite (nextPayoutDate_last_day now Hm).
  pose proof (daysInMonth_bounds (getFullYear now) (getMonth now)) as Hb.
  split; [reflexivity|]. split; [simpl; lia|].
  split; [split; simpl; lia|]. split.
  - unfold cron_day. simpl.
    destruct (Z.leb_spec 28 (daysInMonth (getFullYear now) (getMonth now))); [|lia].
    destruct (Z.leb_spec (daysInMonth (getFullYear now) (getMonth now)) 31); [|lia].
    reflexivity.
  - intros w Hw. apply last_day_runs_batch.
    + rewrite Hw. split; simpl; lia.
    + rewrite Hw. reflexivity.
Qed.

Lemma X12_dashboard_payout_date_witness :
  nextPayoutDate (mkDate 2024 1 10) = mkDate 2024 1 29
  /\ nextPayoutDate (mkDate 2023 11 31) = mkDate 2023 11 31.
Proof.
  split.
  - apply (proj1 (X12_dashboard_payout_date_is_the_batch_day (mkDate 2024 1 10)
                    ltac:(split; split; vm_compute; discriminate))).
  - apply (proj1 (X12_dashboard_payout_date_is_the_batch_day (mkDate 2023 11 31)
                    ltac:(split; split; vm_compute; discriminate))).
Defined.



(** ** Onboarding and eligibility *)

Lemma set_stripe_account_id (userId : Z) (acct : option string) (u : User.t) :
  User.id (set_stripe_account userId acct u) = User.id u.
Proof. unfold set_stripe_account. destruct (User.id u =? userId); reflexivity. Qed.

Lemma updateStripeAccountId_first_ok (userId : Z) (acct : option string) (w : World) :
  hd false (faults w) = false ->
  updateStripeAccountId userId acct w
  = (Ok (existsb (fun u => User.id u =? userId) (users w)),
     set_users (map (set_stripe_account userId acct) (users w))
               (set_faults (tl (faults w)) w)).
Proof.
  intros H. unfold updateStripeAccountId, bind.
  rewrite sqlite_call_first_ok by exact H. reflexivity.
Qed.

(** X14: storing a payment account is what makes a user payable and
    nothing else about the scan moves.  After a successful
    updateStripeAccountId for an existing user, the call has resolved to
    true, the user's row with the new account is returned by the eligibility
    scan exactly when the account is not NULL and the pending sum is at least
    50, and every other user is returned exactly as before.  For an id that
    is in no row the call resolves to false and the users table is
    unchanged. *)
Theorem X14_account_id_decides_eligibility
    (userId : Z) (acct : option string) (w : World) :
  hd false (faults w) = false ->
  let w' := snd (updateStripeAccountId userId acct w) in
  (forall u, In u (users w) -> User.id u = userId ->
     fst (updateStripeAccountId userId acct w) = Ok true
     /\ (In (set_stripe_account userId acct u) (map row_user (eligible_rows w'))
         <-> acct <> None /\ (50 <= sum_pending userId w)%Q))
  /\ (forall x, User.id x <> userId ->
        (In x (map row_user (eligible_rows w')) <-> In x (map row_user (eligible_rows w))))
  /\ ((forall u, In u (users w) -> User.id u <> userId) ->
      fst (updateStripeAccountId userId acct w) = Ok false
      /\ users w' = users w).
Proof.
  intros Hok w'. subst w'. rewrite (updateStripeAccountId_first_ok userId acct w Hok).
  cbn [fst snd].
  set (w' := set_users _ _).
  assert (Hsum : forall uid, sum_pending uid w' = sum_pending uid w) by reflexivity.
  assert (Husers : users w' = map (set_stripe_account userId acct) (users w))
    by reflexivity.
  split; [|split].
  - intros u Hu Hid. split.
    + f_equal. apply existsb_exists. exists u. split; [exact Hu|].
      apply Z.eqb_eq. exact Hid.
    + rewrite eligible_iff, Husers, set_stripe_account_id, Hid, Hsum.
      assert (Hacct : User.stripe_account_id (set_stripe_account userId acct u) = acct).
      { unfold set_stripe_account. rewrite Hid, Z.eqb_refl. reflexivity. }
      rewrite Hacct. split.
      * intros (_ & H1 & H2). split; assumption.
      * intros (H1 & H2). split; [apply in_map; exact Hu|]. split; assumption.
  - intros x Hx. rewrite !eligible_iff, Husers, Hsum.
    assert (Hin : In x (map (set_stripe_account userId acct) (users w)) <-> In x (users w)).
    { rewrite in_map_iff. split.
      - intros (y & <- & Hy). rewrite set_stripe_account_id in Hx.
        unfold set_stripe_account. apply Z.eqb_neq in Hx. rewrite Hx. exact Hy.
      - intros Hy. exists x. split; [|exact Hy].
        unfold set_stripe_account. apply Z.eqb_neq in Hx. rewrite Hx. reflexivity. }
    rewrite Hin. reflexivity.
  - intros Hnone. split.
    + f_equal. destruct (existsb (fun u => User.id u =? userId) (users w)) eqn:E;
        [|reflexivity].
      apply existsb_exists in E. destruct E as (u & Hu & Hid).
      apply Z.eqb_eq in Hid. exfalso. exact (Hnone u Hu Hid).
    + rewrite Husers. rewrite <- (map_id (users w)) at 2.
      apply map_ext_in. intros u Hu. unfold set_stripe_account.
      specialize (Hnone u Hu). apply Z.eqb_neq in Hnone. rewrite Hnone. reflexivity.
Qed.

Lemma X14_account_id_witness :
  In (set_stripe_account 2 (Some "acct_B") purchaser_B)
     (users (snd (updateStripeAccountId 2 (Some "acct_B") paying_world)))
  /\ ~ In (set_stripe_account 2 (Some "acct_B") purchaser_B)
          (map row_user (eligible_rows
                           (snd (updateStripeAccountId 2 (Some "acct_B") paying_world)))).
Proof.
  split; [right; left; reflexivity|].
  destruct (X14_account_id_decides_eligibility 2 (Some "acct_B") paying_world eq_refl)
    as (H & _ & _).
  destruct (H purchaser_B (or_intror (or_introl eq_refl)) eq_refl) as [_ Hiff].
  intros Hin. apply Hiff in Hin. destruct Hin as [_ Hle].
  vm_compute in Hle. apply Hle. reflexivity.
Defined.

(** ** Updating one commission *)

Lemma updateCommissionStatus_first_ok (commissionId : Z) (status : string)
      (payoutId : option Z) (w : World) :
  hd false (faults w) = false ->
  updateCommissionStatus commissionId status payoutId w
  = (Ok (existsb (fun c => Commission.id c =? commissionId) (commissions w)),
     set_commissions
       (map (set_commission_status commissionId status
               (if (status =? "paid")%string then Some (clock w) else None))
            (commissions w))
       (commissions_seq w) (set_faults (tl (faults w)) w)).
Proof.
  intros H. unfold updateCommissionStatus, bind.
  rewrite sqlite_call_first_ok by exact H. reflexivity.
Qed.

Lemma set_status_unknown_id (commissionId : Z) status paidAt (cs : list Commission.t) :
  (forall c, In c cs -> Commission.id c <> commissionId) ->
  map (set_commission_status commissionId status paidAt) cs = cs.
Proof.
  intros H. rewrite <- (map_id cs) at 2. apply map_ext_in.
  intros c Hc. unfold set_commission_status.
  specialize (H c Hc). apply Z.eqb_neq in H. rewrite H. reflexivity.
Qed.

Lemma set_status_removes_amount (userId commissionId : Z) (now : DateTime)
      (cs : list Commission.t) (c : Commission.t) :
  NoDup (map Commission.id cs) ->
  In c cs ->
  Commission.id c = commissionId ->
  Commission.referrer_id c = userId ->
  Commission.status c = "pending" ->
  (amount_sum (filter (is_pending_of userId)
                 (map (set_commission_status commissionId "paid" (Some now)) cs))
   + Commission.commission_amount c
   == amount_sum (filter (is_pending_of userId) cs))%Q.
Proof.
  intros Hnd Hin Hid Href Hst. unfold amount_sum.
  induction cs as [|x cs IH]; [destruct Hin|].
  inversion Hnd as [|k ks Hfresh Hrest]; subst.
  destruct Hin as [->|Hin].
  - simpl. unfold set_commission_status at 1. rewrite Z.eqb_refl.
    unfold is_pending_of at 1; simpl. rewrite andb_false_r.
    unfold is_pending_of at 2. rewrite Hst, Z.eqb_refl. simpl.
    rewrite set_status_unknown_id.
    + ring.
    + intros y Hy E. apply Hfresh. rewrite <- E. apply in_map. exact Hy.
  - assert (Hx : Commission.id x <> Commission.id c).
    { intros E. apply Hfresh. rewrite E. apply in_map. exact Hin. }
    assert (Hsame : set_commission_status (Commission.id c) "paid" (Some now) x = x).
    { unfold set_commission_status. apply Z.eqb_neq in Hx. rewrite Hx. reflexivity. }
    simpl. rewrite Hsame.
    destruct (is_pending_of (Commission.referrer_id c) x); simpl.
    + rewrite <- (IH Hrest Hin). ring.
    + apply (IH Hrest Hin).
Qed.

Lemma same_id_same_commission (cs : list Commission.t) (a b : Commission.t) :
  NoDup (map Commission.id cs) -> In a cs -> In b cs ->
  Commission.id a = Commission.id b -> a = b.
Proof.
  induction cs as [|x cs IH]; simpl; [tauto|].
  intros Hnd Ha Hb Hid. inversion Hnd as [|k ks Hfresh Hrest]; subst.
  destruct Ha as [->|Ha], Hb as [->|Hb].
  - reflexivity.
  - exfalso. apply Hfresh. rewrite Hid. apply in_map. exact Hb.
  - exfalso. apply Hfresh. rewrite <- Hid. apply in_map. exact Ha.
  - apply IH; assumption.
Qed.

Lemma healthy_tail (w : World) : healthy w -> Forall (fun b => b = false) (tl (faults w)).
Proof.
  unfold healthy. intros H. destruct (faults w) as [|b fs]; [constructor|].
  inversion H; subst. assumption.
Qed.

(** X18: updateCommissionStatus on its own, with commission ids distinct
    and a working database.  Marking a pending commission paid resolves to
    true, stamps it with the current time and takes exactly its amount out
    of its referrer's pending sum; setting it back to pending afterwards
    clears the timestamp and restores the table row for row; and an id that
    is in no row resolves to false and leaves the table unchanged. *)
Theorem X18_single_commission_update (commissionId : Z) (w : World) :
  healthy w ->
  NoDup (map Commission.id (commissions w)) ->
  let paid := updateCommissionStatus commissionId "paid" None w in
  let back := updateCommissionStatus commissionId "pending" None (snd paid) in
  (forall c, In c (commissions w) -> Commission.id c = commissionId ->
             Commission.status c = "pending" ->
     fst paid = Ok true
     /\ In (set_commission_status commissionId "paid" (Some (clock w)) c)
           (commissions (snd paid))
     /\ (sum_pending (Commission.referrer_id c) (snd paid)
         + Commission.commission_amount c
         == sum_pending (Commission.referrer_id c) w)%Q
     /\ (Commission.paid_at c = None ->
         fst back = Ok true /\ commissions (snd back) = commissions w))
  /\ ((forall c, In c (commissions w) -> Commission.id c <> commissionId) ->
      fst paid = Ok false /\ commissions (snd paid) = commissions w).
Proof.
  intros Hw Hnd paid back. subst back paid.
  rewrite (updateCommissionStatus_first_ok commissionId "paid" None w
             (healthy_first_ok w Hw)).
  cbn [fst snd]. change (("paid" =? "paid")%string) with true. cbv iota.
  set (w1 := set_commissions _ _ _).
  assert (Hw1 : healthy w1) by (apply healthy_tail; exact Hw).
  rewrite (updateCommissionStatus_first_ok commissionId "pending" None w1
             (healthy_first_ok w1 Hw1)).
  cbn [fst snd]. change (("pending" =? "paid")%string) with false. cbv iota.
  split.
  - intros c Hin Hid Hst.
    assert (Hex : existsb (fun x => Commission.id x =? commissionId) (commissions w) = true).
    { apply existsb_exists. exists c. split; [exact Hin|]. apply Z.eqb_eq. exact Hid. }
    split; [rewrite Hex; reflexivity|].
    split; [apply in_map; exact Hin|]. split.
    { apply (set_status_removes_amount (Commission.referrer_id c) commissionId
               (clock w) (commissions w) c Hnd Hin Hid eq_refl Hst). }
    intros Hnull. split.
    + f_equal. apply existsb_exists.
      exists (set_commission_status commissionId "paid" (Some (clock w)) c).
      split; [apply in_map; exact Hin|].
      unfold set_commission_status. apply Z.eqb_eq in Hid. rewrite Hid. simpl. exact Hid.
    + subst w1. cbn [commissions set_commissions]. rewrite map_map.
      rewrite <- (map_id (commissions w)) at 2. apply map_ext_in.
      intros x Hx. unfold set_commission_status.
      destruct (Z.eqb_spec (Commission.id x) commissionId) as [E|E]; simpl.
      * rewrite E, Z.eqb_refl.
        assert (x = c) by (apply (same_id_same_commission (commissions w));
                           [assumption..|congruence]).
        subst x. destruct c; simpl in *. subst. reflexivity.
      * apply Z.eqb_neq in E. rewrite E. reflexivity.
  - intros Hnone. split.
    + f_equal. destruct (existsb (fun c => Commission.id c =? commissionId) (commissions w))
        eqn:E; [|reflexivity].
      apply existsb_exists in E. destruct E as (c & Hc & Hid).
      apply Z.eqb_eq in Hid. exfalso. exact (Hnone c Hc Hid).
    + apply set_status_unknown_id. exact Hnone.
Qed.

Lemma X18_single_commission_witness :
  commissions (snd (updateCommissionStatus 1 "pending" None
                      (snd (updateCommissionStatus 1 "paid" None paying_world))))
  = commissions paying_world.
Proof.
  destruct (X18_single_commission_update 1 paying_world) as [H _].
  - constructor.
  - vm_compute. repeat constructor; simpl; intuition discriminate.
  - destruct (H (pending_commission 1 1 2 30) (or_introl eq_refl) eq_refl eq_refl)
      as (_ & _ & _ & Hback).
    apply (proj2 (Hback eq_refl)).
Defined.

(** ** Plans and report credits *)

Lemma account_call_result {A} (run : list Account.t -> A * list Account.t)
      (aw : AccountWorld) :
  (exists fs, account_call run aw
              = (Ok (fst (run (accounts aw))), mkAccounts (snd (run (accounts aw))) fs))
  \/ (exists fs, account_call run aw = (Throw SqliteError, mkAccounts (accounts aw) fs)).
Proof.
  unfold account_call. destruct (account_faults aw) as [|[|] fs].
  - left. exists []. destruct (run (accounts aw)); reflexivity.
  - right. exists fs. reflexivity.
  - left. exists fs. destruct (run (accounts aw)); reflexivity.
Qed.

Lemma account_call_healthy {A} (run : list Account.t -> A * list Account.t)
      (aw : AccountWorld) :
  accounts_healthy aw ->
  account_call run aw
  = (Ok (fst (run (accounts aw))),
     mkAccounts (snd (run (accounts aw))) (tl (account_faults aw))).
Proof.
  unfold accounts_healthy, account_call. intros H.
  destruct (account_faults aw) as [|b fs].
  - destruct (run (accounts aw)); reflexivity.
  - inversion H; subst. destruct (run (accounts aw)); reflexivity.
Qed.

Lemma use_credit_nonneg (userId : Z) (a : Account.t) :
  0 <= Account.report_credits a -> 0 <= Account.report_credits (use_credit userId a).
Proof.
  unfold use_credit, can_use_credit. intros H.
  destruct (Account.id a =? userId); simpl; [|exact H].
  destruct (Z.ltb_spec 0 (Account.report_credits a)); simpl; lia.
Qed.

Lemma no_credit_no_change (userId : Z) (rows : list Account.t) :
  existsb (can_use_credit userId) rows = false -> map (use_credit userId) rows = rows.
Proof.
  induction rows as [|a rows IH]; simpl; [reflexivity|].
  intros H. apply orb_false_iff in H. destruct H as [Ha Hrest].
  rewrite (IH Hrest). unfold use_credit. rewrite Ha. reflexivity.
Qed.

(** X15: the report credits of no user ever go below zero.  In every
    world useReportCredit keeps all balances non-negative, as does
    addReportCredits for a non-negative number of credits and updateUserPlan;
    useReportCredit resolves to true only if a row of the user held a credit,
    and when it resolves to false, or fails, the table is unchanged. *)
Theorem X15_report_credits_never_negative (userId : Z) (aw : AccountWorld) :
  credits_ok (accounts aw) ->
  credits_ok (accounts (snd (useReportCredit userId aw)))
  /\ (forall credits, 0 <= credits ->
        credits_ok (accounts (snd (addReportCredits userId credits aw))))
  /\ (forall plan expiry, credits_ok (accounts (snd (updateUserPlan userId plan expiry aw))))
  /\ (fst (useReportCredit userId aw) = Ok true ->
      exists a, In a (accounts aw) /\ Account.id a = userId /\ 0 < Account.report_credits a)
  /\ (fst (useReportCredit userId aw) <> Ok true ->
      accounts (snd (useReportCredit userId aw)) = accounts aw).
Proof.
  intros Hok. unfold credits_ok in *.
  split; [|split; [|split; [|split]]].
  - unfold useReportCredit.
    destruct (account_call_result
                (fun rows => (existsb (can_use_credit userId) rows,
                              map (use_credit userId) rows)) aw) as [[fs E]|[fs E]];
      rewrite E; simpl; [|exact Hok].
    rewrite Forall_map. eapply Forall_impl; [|exact Hok].
    intros a. apply use_credit_nonneg.
  - intros credits Hc. unfold addReportCredits.
    destruct (account_call_result
                (fun rows => (has_account_row userId rows,
                              map (add_credits userId credits) rows)) aw)
      as [[fs E]|[fs E]]; rewrite E; simpl; [|exact Hok].
    rewrite Forall_map. eapply Forall_impl; [|exact Hok].
    intros a Ha. cbv beta in Ha. unfold add_credits.
    destruct (Account.id a =? userId); simpl; lia.
  - intros plan expiry. unfold updateUserPlan.
    match goal with
    | |- context [account_call ?run aw] =>
        destruct (account_call_result run aw) as [[fs E]|[fs E]]
    end; rewrite E; simpl; [|exact Hok].
    rewrite Forall_map. eapply Forall_impl; [|exact Hok].
    intros a Ha. destruct (Account.id a =? userId); simpl; exact Ha.
  - unfold useReportCredit.
    destruct (account_call_result
                (fun rows => (existsb (can_use_credit userId) rows,
                              map (use_credit userId) rows)) aw) as [[fs E]|[fs E]];
      rewrite E; simpl; [|discriminate].
    intros H. inversion H as [Hex]. apply existsb_exists in Hex.
    destruct Hex as (a & Ha & Hcan). unfold can_use_credit in Hcan.
    apply andb_true_iff in Hcan. destruct Hcan as [H1 H2].
    exists a. split; [exact Ha|]. split; [apply Z.eqb_eq; exact H1|].
    apply Z.ltb_lt. exact H2.
  - unfold useReportCredit.
    destruct (account_call_result
                (fun rows => (existsb (can_use_credit userId) rows,
                              map (use_credit userId) rows)) aw) as [[fs E]|[fs E]];
      rewrite E; simpl; [|reflexivity].
    intros H. apply no_credit_no_change.
    destruct (existsb (can_use_credit userId) (accounts aw)); [|reflexivity].
    exfalso. apply H. reflexivity.
Qed.

Lemma X15_report_credits_witness :
  credits_ok (accounts (snd (useReportCredit 1 two_accounts)))
  /\ accounts (snd (useReportCredit 1 two_accounts)) = accounts two_accounts.
Proof.
  assert (H : credits_ok (accounts two_accounts)).
  { repeat constructor; simpl; lia. }
  destruct (X15_report_credits_never_negative 1 two_accounts H) as (H1 & _ & _ & _ & H5).
  split; [exact H1|]. apply H5. discriminate.
Defined.

Lemma add_zero_credits (userId : Z) (rows : list Account.t) :
  map (add_credits userId 0) rows = rows.
Proof.
  rewrite <- (map_id rows) at 2. apply map_ext. intros a. unfold add_credits.
  destruct (Account.id a =? userId); [|reflexivity].
  rewrite Z.add_0_r. destruct a; reflexivity.
Qed.

Lemma use_after_add (userId m : Z) (rows : list Account.t) :
  credits_ok rows -> 0 <= m ->
  map (use_credit userId) (map (add_credits userId (m + 1)) rows)
  = map (add_credits userId m) rows.
Proof.
  intros Hok Hm. rewrite map_map. apply map_ext_in. intros a Ha.
  unfold credits_ok in Hok. rewrite Forall_forall in Hok. specialize (Hok a Ha).
  unfold use_credit, can_use_credit, add_credits.
  destruct (Account.id a =? userId) eqn:E; simpl; rewrite E; simpl; [|reflexivity].
  destruct (Z.ltb_spec 0 (Account.report_credits a + (m + 1))); [|lia].
  f_equal. lia.
Qed.

Lemma can_use_after_add (userId m : Z) (rows : list Account.t) :
  credits_ok rows -> 0 <= m -> has_account_row userId rows = true ->
  existsb (can_use_credit userId) (map (add_credits userId (m + 1)) rows) = true.
Proof.
  intros Hok Hm Hrow. unfold has_account_row in Hrow.
  apply existsb_exists in Hrow. destruct Hrow as (a & Ha & Hid).
  apply existsb_exists. exists (add_credits userId (m + 1) a).
  split; [apply in_map; exact Ha|].
  unfold credits_ok in Hok. rewrite Forall_forall in Hok. specialize (Hok a Ha).
  unfold can_use_credit, add_credits. rewrite Hid. simpl. rewrite Hid. simpl.
  apply Z.ltb_lt. lia.
Qed.

Lemma use_times_after_add (n : nat) (userId : Z) (rows : list Account.t) :
  credits_ok rows -> has_account_row userId rows = true ->
  forall fs, Forall (fun b => b = false) fs ->
    fst (use_times n userId (mkAccounts (map (add_credits userId (Z.of_nat n)) rows) fs))
    = repeat (Ok true) n
    /\ accounts (snd (use_times n userId
                        (mkAccounts (map (add_credits userId (Z.of_nat n)) rows) fs)))
       = rows
    /\ accounts_healthy (snd (use_times n userId
                                (mkAccounts (map (add_credits userId (Z.of_nat n)) rows) fs))).
Proof.
  intros Hok Hrow. induction n as [|n IH]; intros fs Hfs.
  - simpl. rewrite add_zero_credits. repeat split. exact Hfs.
  - cbn [use_times]. unfold useReportCredit.
    rewrite account_call_healthy by exact Hfs. cbn [fst snd accounts account_faults].
    replace (Z.of_nat (S n)) with (Z.of_nat n + 1) by lia.
    rewrite (use_after_add userId (Z.of_nat n) rows Hok) by lia.
    rewrite (can_use_after_add userId (Z.of_nat n) rows Hok) by (lia || exact Hrow).
    assert (Htl : Forall (fun b => b = false) (tl fs)).
    { destruct fs; [constructor|]. inversion Hfs; subst. assumption. }
    destruct (IH (tl fs) Htl) as (H1 & H2 & H3).
    destruct (use_times n userId
                (mkAccounts (map (add_credits userId (Z.of_nat n)) rows) (tl fs)))
      as [rs aw2].
    simpl in *. rewrite H1. repeat split; assumption.
Qed.

(** X17: credits bought are credits usable, no more.  On a working
    database, for an existing user and balances that are not negative:
    after addReportCredits of n credits, n calls of useReportCredit all
    resolve to true and leave the whole table as it was before the purchase;
    if the user had no credit before, the next call resolves to false. *)
Theorem X17_bought_credits_are_used_up_exactly
    (n : nat) (userId : Z) (aw : AccountWorld) :
  accounts_healthy aw ->
  credits_ok (accounts aw) ->
  has_account_row userId (accounts aw) = true ->
  let bought := addReportCredits userId (Z.of_nat n) aw in
  let used := use_times n userId (snd bought) in
  fst bought = Ok true
  /\ fst used = repeat (Ok true) n
  /\ accounts (snd used) = accounts aw
  /\ ((forall a, In a (accounts aw) -> Account.id a = userId ->
                 Account.report_credits a = 0) ->
      fst (useReportCredit userId (snd used)) = Ok false).
Proof.
  intros Hw Hok Hrow bought used. subst used bought.
  unfold addReportCredits. rewrite account_call_healthy by exact Hw.
  cbn [fst snd]. rewrite Hrow.
  assert (Htl : Forall (fun b => b = false) (tl (account_faults aw))).
  { unfold accounts_healthy in Hw. destruct (account_faults aw); [constructor|].
    inversion Hw; subst. assumption. }
  destruct (use_times_after_add n userId (accounts aw) Hok Hrow _ Htl) as (H1 & H2 & H3).
  split; [reflexivity|]. split; [exact H1|]. split; [exact H2|].
  intros Hzero. unfold useReportCredit. rewrite account_call_healthy by exact H3.
  cbn [fst]. rewrite H2. f_equal.
  destruct (existsb (can_use_credit userId) (accounts aw)) eqn:E; [|reflexivity].
  apply existsb_exists in E. destruct E as (a & Ha & Hcan).
  unfold can_use_credit in Hcan. apply andb_true_iff in Hcan. destruct Hcan as [Hid Hpos].
  apply Z.eqb_eq in Hid. apply Z.ltb_lt in Hpos.
  rewrite (Hzero a Ha Hid) in Hpos. lia.
Qed.

Lemma X17_bought_credits_witness :
  fst (use_times 2 1 (snd (addReportCredits 1 2 two_accounts))) = [Ok true; Ok true]
  /\ accounts (snd (use_times 2 1 (snd (addReportCredits 1 2 two_accounts))))
     = accounts two_accounts.
Proof.
  destruct (X17_bought_credits_are_used_up_exactly 2 1 two_accounts)
    as (_ & H1 & H2 & _).
  - constructor.
  - repeat constructor; simpl; lia.
  - reflexivity.
  - split; [exact H1|exact H2].
Defined.

Lemma find_account_after_map (userId : Z) (f : Account.t -> Account.t)
      (rows : list Account.t) :
  (forall a, Account.id (f a) = Account.id a) ->
  find (fun a => Account.id a =? userId) (map f rows)
  = option_map f (find (fun a => Account.id a =? userId) rows).
Proof.
  intros Hid. induction rows as [|a rows IH]; simpl; [reflexivity|].
  rewrite Hid. destruct (Account.id a =? userId); [reflexivity|exact IH].
Qed.

(** X16: what getUserStatus shows after a write to the plan columns, on a
    working database.  After addReportCredits the user's row shows the old
    balance plus the credits and the same plan; after updateUserPlan it
    shows the new plan and expiry and the same balance; the row any other
    user is shown is unchanged by both; and a user that has no row is
    shown nothing, before and after. *)
Theorem X16_status_after_plan_writes (userId : Z) (aw : AccountWorld) :
  accounts_healthy aw ->
  let before := fst (getUserStatus userId aw) in
  (forall credits,
      fst (getUserStatus userId (snd (addReportCredits userId credits aw)))
      = match before with
        | Ok (Some a) => Ok (Some (Account.mk (Account.id a) (Account.plan a)
                                     (Account.subscription_expires a)
                                     (Account.report_credits a + credits)))
        | other => other
        end)
  /\ (forall plan expiry,
        fst (getUserStatus userId (snd (updateUserPlan userId plan expiry aw)))
        = match before with
          | Ok (Some a) => Ok (Some (Account.mk (Account.id a) plan expiry
                                       (Account.report_credits a)))
          | other => other
          end)
  /\ (forall other credits plan expiry, other <> userId ->
        fst (getUserStatus userId (snd (addReportCredits other credits aw))) = before
        /\ fst (getUserStatus userId (snd (updateUserPlan other plan expiry aw))) = before
        /\ fst (getUserStatus userId (snd (useReportCredit other aw))) = before).
Proof.
  intros Hw before. subst before.
  assert (Htl : forall rows, accounts_healthy (mkAccounts rows (tl (account_faults aw)))).
  { intros rows. unfold accounts_healthy in *. simpl.
    destruct (account_faults aw); [constructor|]. inversion Hw; subst. assumption. }
  unfold getUserStatus, addReportCredits, updateUserPlan, useReportCredit.
  split; [|split].
  - intros credits. rewrite !(account_call_healthy _ aw Hw). cbn [fst snd].
    rewrite account_call_healthy by apply Htl. cbn [fst accounts].
    rewrite find_account_after_map.
    + destruct (find (fun a => Account.id a =? userId) (accounts aw)) as [a|] eqn:E;
        [|reflexivity].
      simpl. apply find_some in E. destruct E as [_ E].
      unfold add_credits. rewrite E. reflexivity.
    + intros a. unfold add_credits. destruct (Account.id a =? userId); reflexivity.
  - intros plan expiry. rewrite !(account_call_healthy _ aw Hw). cbn [fst snd].
    rewrite account_call_healthy by apply Htl. cbn [fst accounts].
    rewrite find_account_after_map.
    + destruct (find (fun a => Account.id a =? userId) (accounts aw)) as [a|] eqn:E;
        [|reflexivity].
      simpl. apply find_some in E. destruct E as [_ E]. rewrite E. reflexivity.
    + intros a. destruct (Account.id a =? userId); reflexivity.
  - intros other credits plan expiry Hne.
    assert (Hkeep : forall f : Account.t -> Account.t,
               (forall a, Account.id (f a) = Account.id a) ->
               (forall a, Account.id a <> other -> f a = a) ->
               find (fun a => Account.id a =? userId) (map f (accounts aw))
               = find (fun a => Account.id a =? userId) (accounts aw)).
    { intros f Hid Hsame. rewrite (find_account_after_map userId f _ Hid).
      destruct (find (fun a => Account.id a =? userId) (accounts aw)) as [a|] eqn:E;
        [|reflexivity].
      simpl. apply find_some in E. destruct E as [_ E]. apply Z.eqb_eq in E.
      rewrite Hsame; [reflexivity|]. congruence. }
    rewrite !(account_call_healthy _ aw Hw). cbn [fst snd].
    rewrite !account_call_healthy by apply Htl. cbn [fst accounts].
    split; [|split]; f_equal; apply Hkeep.
    + intros a. unfold add_credits. destruct (Account.id a =? other); reflexivity.
    + intros a Ha. unfold add_credits. apply Z.eqb_neq in Ha. rewrite Ha. reflexivity.
    + intros a. destruct (Account.id a =? other); reflexivity.
    + intros a Ha. apply Z.eqb_neq in Ha. rewrite Ha. reflexivity.
    + intros a. unfold use_credit. destruct (can_use_credit other a); reflexivity.
    + intros a Ha. unfold use_credit, can_use_credit.
      apply Z.eqb_neq in Ha. rewrite Ha. reflexivity.
Qed.

Lemma X16_status_witness :
  fst (getUserStatus 2 (snd (addReportCredits 2 15 two_accounts)))
  = Ok (Some (Account.mk 2 "free" None 18)).
Proof.
  apply (proj1 (X16_status_after_plan_writes 2 two_accounts (Forall_nil _)) 15).
Defined.

(** ** Referrals and the recorder *)





(** ** Instances of the unconditional properties *)

Lemma X4_at_most_one_transfer_witness :
  transfers (snd (processUserPayout referrer_A late_failure_world))
  = [request_of late_failure_world referrer_A]
  /\ 5000 <= tr_amount (request_of late_failure_world referrer_A).
Proof.
  destruct (X4_at_most_one_transfer_never_below_threshold referrer_A late_failure_world)
    as [H|(H & _ & Hamt & _)].
  - vm_compute in H. discriminate H.
  - split; [exact H|exact Hamt].
Defined.

Lemma X7_recorders_witness :
  fst (processAffiliateCommission purchase_999 late_failure_world) = Ok tt
  /\ fst (processSubscriptionCommission invoice_apr10 subscription_world) = Ok tt.
Proof.
  split.
  - apply (proj1 (X7_recorders_never_throw_and_append_at_most_one late_failure_world)).
  - apply (proj2 (X7_recorders_never_throw_and_append_at_most_one subscription_world)).
Defined.

Lemma X11_scan_rows_witness :
  Sorted (fun a b => (total_pending b <= total_pending a)%Q)
         (eligible_rows three_affiliates_world)
  /\ map total_pending (eligible_rows three_affiliates_world) = [80%Q; 70%Q; 60%Q].
Proof.
  split; [|reflexivity].
  apply (proj1 (X11_scan_rows_are_ordered_totals_one_per_user three_affiliates_world)).
Defined.
